(** * WhatsApp news-chat scraper: parser, state manager, CSV exporter, scraper

    A shallow embedding of [src/parser.js], [src/stateManager.js],
    [src/exporter.js] and [src/scraper.js], and the properties of the
    ingestion pipeline proved over it.

    JavaScript strings are sequences of UTF-16 code units; they are modelled
    as [list N].  Built-ins of the language ([String.prototype.trim],
    [split], [join], [RegExp], [Date], [JSON.parse], [Math.max]) are modelled
    after ECMA-262 in the modules [JS], [JSDate] and [JSON].  The files of a
    run and the exceptions of its asynchronous functions are explicit: a
    computation takes the files as they are and gives them back with a
    value or a thrown error (module [Effects]).

    What the model takes in and what it leaves out:
    - the state file is missing, is not JSON, or holds a state document
      with fields of their declared types, which is what the program
      itself writes (module [JSONText], whose text [JSON.parse] reads back
      as the document); a file with any other JSON value is returned by
      [loadState] as it is (module [StateManager]) and then read through
      the coercions of the language, which are not modelled;
    - a write of the state file succeeds or leaves the file as it was; a
      write of the output file may stop anywhere (module [Effects]);
    - a call that spreads an array into its arguments throws a RangeError
      beyond the number of arguments the engine takes;
    - the modules [Scraper] and [Exporter] give the functions with the
      calls of the logger left out, which is what they do when every write
      of the log succeeds; the module [Logged] puts the calls back, each
      with the exception it can throw. *)

From Stdlib Require Import List ZArith NArith Lia Bool Ascii String.
From Stdlib Require Import DecimalString Sorting.Sorted.
From Stdlib Require DecimalPos DecimalN DecimalZ DecimalFacts.
Import ListNotations.

Set Warnings "-register-all".

Local Open Scope Z_scope.

(* ================================================================== *)
(** ** JavaScript strings and the string built-ins the code calls      *)
(* ================================================================== *)

Module JS.

(** A string is the list of its UTF-16 code units. *)
Definition jsstring := list N.

(** An ASCII literal as a JavaScript string. *)
Definition str (s : string) : jsstring :=
  map N_of_ascii (list_ascii_of_string s).

Definition LF : N := 10%N.

Definition jsstring_eqb (a b : jsstring) : bool :=
  if list_eq_dec N.eq_dec a b then true else false.

(** The values a dynamically typed parameter such as [messageText] or
    [msg.body] can hold.  [VObject] stands for every object (arrays, boxed
    strings, functions): all that the code observes of such a value is that
    it is truthy and that its [typeof] is not ['string']. *)
Inductive JSValue :=
| VUndefined
| VNull
| VBool (b : bool)
| VNumber (z : Z)
| VNaN
| VString (s : jsstring)
| VObject.

(** ToBoolean. *)
Definition truthy (v : JSValue) : bool :=
  match v with
  | VUndefined | VNull | VNaN => false
  | VBool b => b
  | VNumber z => negb (z =? 0)
  | VString s => match s with [] => false | _ => true end
  | VObject => true
  end.

(** [typeof v === 'string'] *)
Definition typeof_string (v : JSValue) : bool :=
  match v with VString _ => true | _ => false end.

(** ECMA-262 WhiteSpace and LineTerminator code points: what [trim] strips
    and what the class [\s] matches. *)
Definition isWhiteSpace (c : N) : bool :=
  ((c =? 9) || (c =? 10) || (c =? 11) || (c =? 12) || (c =? 13) || (c =? 32)
   || (c =? 160) || (c =? 5760) || ((8192 <=? c) && (c <=? 8202))
   || (c =? 8232) || (c =? 8233) || (c =? 8239) || (c =? 8287)
   || (c =? 12288) || (c =? 65279))%N.

Fixpoint trimStart (s : jsstring) : jsstring :=
  match s with
  | [] => []
  | c :: s' => if isWhiteSpace c then trimStart s' else s
  end.

Definition trimEnd (s : jsstring) : jsstring := rev (trimStart (rev s)).

(** [s.trim()] *)
Definition trim (s : jsstring) : jsstring := trimEnd (trimStart s).

(** [s.split(sep)] for a one-unit separator: the pieces between occurrences
    of [sep]; the empty string splits into one empty piece. *)
Fixpoint split (sep : N) (s : jsstring) : list jsstring :=
  match s with
  | [] => [[]]
  | c :: s' =>
      if (c =? sep)%N then [] :: split sep s'
      else match split sep s' with
           | [] => [[c]]
           | l :: ls => (c :: l) :: ls
           end
  end.

(** [lines.join(sep)] *)
Fixpoint join (sep : jsstring) (ls : list jsstring) : jsstring :=
  match ls with
  | [] => []
  | [l] => l
  | l :: ls' => l ++ sep ++ join sep ls'
  end.

(** [String(x).padStart(2, '0')] once [String(x)] is computed. *)
Definition padStart2 (s : jsstring) : jsstring :=
  repeat 48%N (2 - List.length s)%nat ++ s.

(** [String(z)] for an integer below 10^21 in magnitude. *)
Definition String_of_Z (z : Z) : jsstring :=
  str (NilZero.string_of_int (Z.to_int z)).

(** [String(x)] where [None] is NaN. *)
Definition String_of_number (x : option Z) : jsstring :=
  match x with
  | Some z => String_of_Z z
  | None => str "NaN"
  end.

(** *** Regular expressions

    The two patterns of the parser are matched by the two functions below;
    neither needs backtracking beyond what is written out. *)

(** Canonicalize of a case-insensitive, non-unicode pattern, on the
    characters that matter for an ASCII or caseless pattern character: a
    Latin small letter is compared as its capital, and no code unit from 128
    up is ever mapped to one below 128. *)
Definition canonicalize (c : N) : N :=
  if ((97 <=? c) && (c <=? 122))%N then (c - 32)%N else c.

(** The literal [pat] matches at the start of [s], ignoring case. *)
Fixpoint startsWith_ci (pat s : jsstring) : bool :=
  match pat, s with
  | [], _ => true
  | _ :: _, [] => false
  | p :: pat', c :: s' =>
      (canonicalize p =? canonicalize c)%N && startsWith_ci pat' s'
  end.

(** [/a1|a2|.../i.test(s)] for literal alternatives: some position of [s]
    at which one of the alternatives matches. *)
Fixpoint test_alternatives_ci (alts : list jsstring) (s : jsstring) : bool :=
  existsb (fun p => startsWith_ci p s) alts
  || match s with
     | [] => false
     | _ :: s' => test_alternatives_ci alts s'
     end.

(** The literal [pat] matches at the start of [s]; the rest is returned. *)
Fixpoint stripPrefix (pat s : jsstring) : option jsstring :=
  match pat, s with
  | [], _ => Some s
  | _ :: _, [] => None
  | p :: pat', c :: s' => if (p =? c)%N then stripPrefix pat' s' else None
  end.

(** The longest prefix without white space: the greedy [[^\s]+]. *)
Fixpoint takeNonSpace (s : jsstring) : jsstring :=
  match s with
  | [] => []
  | c :: s' => if isWhiteSpace c then [] else c :: takeNonSpace s'
  end.

(** One match of [/(https?:\/\/[^\s]+)/] anchored at the start of [s].  The
    optional [s] is greedy: it is tried first and given back when the rest
    of the pattern fails after it. *)
Definition linkAt (s : jsstring) : option jsstring :=
  let attempt (scheme rest : jsstring) : option jsstring :=
    match stripPrefix (str "://") rest with
    | Some body =>
        match takeNonSpace body with
        | [] => None
        | run => Some (scheme ++ str "://" ++ run)
        end
    | None => None
    end in
  match stripPrefix (str "http") s with
  | None => None
  | Some r =>
      match r with
      | c :: r' =>
          if (c =? 115)%N then
            match attempt (str "https") r' with
            | Some u => Some u
            | None => attempt (str "http") r
            end
          else attempt (str "http") r
      | [] => attempt (str "http") r
      end
  end.

(** The successive matches of the global link pattern: the search moves one
    unit at a time and resumes after the end of each match ([skip] counts
    the units of the current match still to pass). *)
Fixpoint matchLinks_from (skip : nat) (s : jsstring) : list jsstring :=
  match s with
  | [] => []
  | _ :: s' =>
      match skip with
      | S k => matchLinks_from k s'
      | O =>
          match linkAt s with
          | Some u => u :: matchLinks_from (List.length u - 1) s'
          | None => matchLinks_from 0 s'
          end
      end
  end.

(** [content.match(linkRegex) || []] *)
Definition matchLinks (s : jsstring) : list jsstring := matchLinks_from 0 s.

End JS.

(* ================================================================== *)
(** ** The [Date] built-in, in UTC (ECMA-262, section 21.4.1)          *)
(* ================================================================== *)

Module JSDate.

Definition msPerDay : Z := 86400000.
Definition msPerHour : Z := 3600000.
Definition msPerMinute : Z := 60000.

(** A Date object holds a time value in milliseconds, or NaN. *)
Inductive Date :=
| InvalidDate
| TimeValue (t : Z).

(** [new Date(v)] for an integer [v]: TimeClip keeps 100,000,000 days on
    either side of the epoch. *)
Definition new_Date (v : Z) : Date :=
  if Z.abs v <=? 8640000000000000 then TimeValue v else InvalidDate.

Definition Day (t : Z) : Z := t / msPerDay.

Definition DayFromYear (y : Z) : Z :=
  365 * (y - 1970) + (y - 1969) / 4 - (y - 1901) / 100 + (y - 1601) / 400.

Definition DaysInYear (y : Z) : Z :=
  if negb (y mod 4 =? 0) then 365
  else if negb (y mod 100 =? 0) then 366
  else if negb (y mod 400 =? 0) then 365
  else 366.

(** The year whose first day is the last one not after day [d]: a first
    estimate from the mean length of a year, corrected by at most one. *)
Definition YearFromDay (d : Z) : Z :=
  let y0 := 1970 + (400 * d) / 146097 in
  if d <? DayFromYear y0 then y0 - 1
  else if DayFromYear (y0 + 1) <=? d then y0 + 1
  else y0.

Definition YearFromTime (t : Z) : Z := YearFromDay (Day t).

Definition InLeapYear (t : Z) : Z :=
  if DaysInYear (YearFromTime t) =? 366 then 1 else 0.

Definition DayWithinYear (t : Z) : Z := Day t - DayFromYear (YearFromTime t).

Definition MonthFromTime (t : Z) : Z :=
  let d := DayWithinYear t in
  let leap := InLeapYear t in
  if d <? 31 then 0
  else if d <? 59 + leap then 1
  else if d <? 90 + leap then 2
  else if d <? 120 + leap then 3
  else if d <? 151 + leap then 4
  else if d <? 181 + leap then 5
  else if d <? 212 + leap then 6
  else if d <? 243 + leap then 7
  else if d <? 273 + leap then 8
  else if d <? 304 + leap then 9
  else if d <? 334 + leap then 10
  else 11.

Definition DateFromTime (t : Z) : Z :=
  let d := DayWithinYear t in
  let leap := InLeapYear t in
  match MonthFromTime t with
  | 0 => d + 1
  | 1 => d - 30
  | 2 => d - 58 - leap
  | 3 => d - 89 - leap
  | 4 => d - 119 - leap
  | 5 => d - 150 - leap
  | 6 => d - 180 - leap
  | 7 => d - 211 - leap
  | 8 => d - 242 - leap
  | 9 => d - 272 - leap
  | 10 => d - 303 - leap
  | _ => d - 333 - leap
  end.

Definition HourFromTime (t : Z) : Z := (t / msPerHour) mod 24.
Definition MinFromTime (t : Z) : Z := (t / msPerMinute) mod 60.

(** The getters return NaN ([None]) on an invalid date. *)
Definition getter (f : Z -> Z) (d : Date) : option Z :=
  match d with
  | InvalidDate => None
  | TimeValue t => Some (f t)
  end.

Definition getUTCFullYear := getter YearFromTime.
Definition getUTCMonth := getter MonthFromTime.
Definition getUTCDate := getter DateFromTime.
Definition getUTCHours := getter HourFromTime.
Definition getUTCMinutes := getter MinFromTime.

End JSDate.

(* ================================================================== *)
(** ** src/parser.js                                                   *)
(* ================================================================== *)

Module Parser.
Import JS JSDate.

(** The object [parseMessage] returns; [sender] is the property the scraper
    adds afterwards ([None] while it is absent). *)
Record ParsedMessage := {
  reporter : jsstring;
  content : jsstring;
  date : jsstring;
  time : jsstring;
  links : list jsstring;
  hasMedia : bool;
  sender : option jsstring
}.

Definition slash : jsstring := [47%N].
Definition colon : jsstring := [58%N].

(** NaN + 1 is NaN. *)
Definition plus1 (x : option Z) : option Z := option_map (fun z => z + 1) x.

Definition formatDate (timestamp : Z) : jsstring :=
  let date := new_Date (timestamp * 1000) in
  let day := padStart2 (String_of_number (getUTCDate date)) in
  let month := padStart2 (String_of_number (plus1 (getUTCMonth date))) in
  let year := String_of_number (getUTCFullYear date) in
  day ++ slash ++ month ++ slash ++ year.

Definition formatTime (timestamp : Z) : jsstring :=
  let date := new_Date (timestamp * 1000) in
  let hours := padStart2 (String_of_number (getUTCHours date)) in
  let minutes := padStart2 (String_of_number (getUTCMinutes date)) in
  hours ++ colon ++ minutes.

(** The three alternatives of [sourceTagPattern], by code unit: the Hebrew
    word tsadi-apostrophe-alef-tet, [chat], and the Hebrew word
    qof-bet-vav-tsadi-tav. *)
Definition tag_tsat : jsstring := [1510; 39; 1488; 1496]%N.
Definition tag_chat : jsstring := str "chat".
Definition tag_kvutsat : jsstring := [1511; 1489; 1493; 1510; 1514]%N.

Definition sourceTagPattern_test (line : jsstring) : bool :=
  test_alternatives_ci [tag_tsat; tag_chat; tag_kvutsat] line.

(** The record of both early returns. *)
Definition emptyParsed (timestamp : Z) (hasMedia : bool) : ParsedMessage :=
  {| reporter := [];
     content := [];
     date := formatDate timestamp;
     time := formatTime timestamp;
     links := [];
     hasMedia := hasMedia;
     sender := None |}.

(** [messageText.trim().split('\n').filter(line => line.trim())] *)
Definition nonBlankLines (messageText : jsstring) : list jsstring :=
  filter (fun line => truthy (VString (trim line)))
         (split LF (trim messageText)).

Definition contentOf (lines : list jsstring) : jsstring :=
  let contentLines :=
    filter (fun line => negb (sourceTagPattern_test line)) (tl lines) in
  trim (join [LF] contentLines).

Definition parseMessage (messageText : JSValue) (timestamp : Z)
    (hasMedia : bool) : ParsedMessage :=
  if negb (truthy messageText) || negb (typeof_string messageText) then
    emptyParsed timestamp hasMedia
  else
    match messageText with
    | VString text =>
        let lines := nonBlankLines text in
        match lines with
        | [] => emptyParsed timestamp hasMedia
        | line0 :: _ =>
            let reporter := trim line0 in
            let content := contentOf lines in
            let links := matchLinks content in
            {| reporter := reporter;
               content := content;
               date := formatDate timestamp;
               time := formatTime timestamp;
               links := links;
               hasMedia := hasMedia;
               sender := None |}
        end
    | _ => emptyParsed timestamp hasMedia
    end.

End Parser.


(* ================================================================== *)
(** ** [JSON.parse] (ECMA-262, section 25.5.1; the grammar of ECMA-404) *)
(* ================================================================== *)

Module JSON.
Import JS.

(** A parsed JSON text.  A number is kept as the text of its literal, which
    determines the Number it denotes; an object is the list of its
    properties in the order they were created. *)
Inductive value :=
| JNull
| JBool (b : bool)
| JNumber (literal : jsstring)
| JString (s : jsstring)
| JArray (elements : list value)
| JObject (properties : list (jsstring * value)).

(** What a parsing function yields: a result and the input left, a
    SyntaxError, or the exhaustion of the recursion budget. *)
Inductive PR (A : Type) :=
| POk (a : A) (rest : jsstring)
| PSyntaxError
| POutOfFuel.
Arguments POk {A} a rest.
Arguments PSyntaxError {A}.
Arguments POutOfFuel {A}.

(** JSON white space: space, tab, line feed, carriage return. *)
Definition isJSONWhiteSpace (c : N) : bool :=
  ((c =? 32) || (c =? 9) || (c =? 10) || (c =? 13))%N.

Fixpoint skip_ws (s : jsstring) : jsstring :=
  match s with
  | [] => []
  | c :: s' => if isJSONWhiteSpace c then skip_ws s' else s
  end.

Definition isDigit (c : N) : bool := ((48 <=? c) && (c <=? 57))%N.

Definition hexValue (c : N) : option N :=
  if isDigit c then Some (c - 48)%N
  else if ((97 <=? c) && (c <=? 102))%N then Some (c - 87)%N
  else if ((65 <=? c) && (c <=? 70))%N then Some (c - 55)%N
  else None.

Definition hex4 (a b c d : N) : option N :=
  match hexValue a, hexValue b, hexValue c, hexValue d with
  | Some x, Some y, Some z, Some w => Some (((x * 16 + y) * 16 + z) * 16 + w)%N
  | _, _, _, _ => None
  end.

(** The single-character escapes. *)
Definition escapeOf (e : N) : option N :=
  if (e =? 34)%N then Some 34%N            (* quotation mark *)
  else if (e =? 92)%N then Some 92%N       (* reverse solidus *)
  else if (e =? 47)%N then Some 47%N       (* solidus *)
  else if (e =? 98)%N then Some 8%N        (* b: backspace *)
  else if (e =? 102)%N then Some 12%N      (* f: form feed *)
  else if (e =? 110)%N then Some 10%N      (* n: line feed *)
  else if (e =? 114)%N then Some 13%N      (* r: carriage return *)
  else if (e =? 116)%N then Some 9%N       (* t: tab *)
  else None.

(** The characters of a string literal after its opening quote, up to and
    including the closing quote. *)
Fixpoint parse_chars (s : jsstring) : option (jsstring * jsstring) :=
  match s with
  | [] => None
  | c :: s1 =>
      if (c =? 34)%N then Some ([], s1)
      else if (c =? 92)%N then
        match s1 with
        | [] => None
        | e :: s2 =>
            if (e =? 117)%N then
              match s2 with
              | h1 :: h2 :: h3 :: h4 :: s3 =>
                  match hex4 h1 h2 h3 h4, parse_chars s3 with
                  | Some u, Some (cs, rest) => Some (u :: cs, rest)
                  | _, _ => None
                  end
              | _ => None
              end
            else
              match escapeOf e, parse_chars s2 with
              | Some u, Some (cs, rest) => Some (u :: cs, rest)
              | _, _ => None
              end
        end
      else if (c <? 32)%N then None
      else
        match parse_chars s1 with
        | Some (cs, rest) => Some (c :: cs, rest)
        | None => None
        end
  end.

Fixpoint takeDigits (s : jsstring) : jsstring * jsstring :=
  match s with
  | [] => ([], [])
  | c :: s' =>
      if isDigit c then let (ds, rest) := takeDigits s' in (c :: ds, rest)
      else ([], s)
  end.

(** [int]: a single zero, or a non-zero digit and more digits. *)
Definition parse_int (s : jsstring) : option (jsstring * jsstring) :=
  match s with
  | [] => None
  | c :: s' =>
      if (c =? 48)%N then Some ([c], s')
      else if isDigit c then let (ds, rest) := takeDigits s' in Some (c :: ds, rest)
      else None
  end.

(** [frac]: nothing, or a point and at least one digit. *)
Definition parse_frac (s : jsstring) : option (jsstring * jsstring) :=
  match s with
  | c :: s' =>
      if (c =? 46)%N then
        match takeDigits s' with
        | ([], _) => None
        | (ds, rest) => Some (c :: ds, rest)
        end
      else Some ([], s)
  | [] => Some ([], s)
  end.

(** [exp]: nothing, or [e] or [E], an optional sign and at least one digit. *)
Definition parse_exp (s : jsstring) : option (jsstring * jsstring) :=
  match s with
  | c :: s' =>
      if ((c =? 101) || (c =? 69))%N then
        let (sign, s'') :=
          match s' with
          | g :: t => if ((g =? 43) || (g =? 45))%N then ([g], t) else ([], s')
          | [] => ([], s')
          end in
        match takeDigits s'' with
        | ([], _) => None
        | (ds, rest) => Some (c :: sign ++ ds, rest)
        end
      else Some ([], s)
  | [] => Some ([], s)
  end.

Definition parse_number (s : jsstring) : option (jsstring * jsstring) :=
  let (minus, s0) :=
    match s with
    | c :: t => if (c =? 45)%N then ([c], t) else ([], s)
    | [] => ([], s)
    end in
  match parse_int s0 with
  | None => None
  | Some (i, s1) =>
      match parse_frac s1 with
      | None => None
      | Some (f, s2) =>
          match parse_exp s2 with
          | None => None
          | Some (e, s3) => Some (minus ++ i ++ f ++ e, s3)
          end
      end
  end.

(** CreateDataProperty on the object under construction: a repeated key
    keeps its place and takes the later value. *)
Fixpoint setProperty (k : jsstring) (v : value)
    (props : list (jsstring * value)) : list (jsstring * value) :=
  match props with
  | [] => [(k, v)]
  | (k', v') :: ps =>
      if jsstring_eqb k k' then (k, v) :: ps
      else (k', v') :: setProperty k v ps
  end.

Section Containers.
(** The parser of one value, as the two loops below call it. *)
Variable parseValue : jsstring -> PR value.

(** The elements of an array after the first one is known to exist. *)
Fixpoint parse_elements (fuel : nat) (s : jsstring) : PR (list value) :=
  match fuel with
  | O => POutOfFuel
  | S k =>
      match parseValue s with
      | POk v r =>
          match skip_ws r with
          | c :: r' =>
              if (c =? 44)%N then
                match parse_elements k r' with
                | POk vs r'' => POk (v :: vs) r''
                | PSyntaxError => PSyntaxError
                | POutOfFuel => POutOfFuel
                end
              else if (c =? 93)%N then POk [v] r'
              else PSyntaxError
          | [] => PSyntaxError
          end
      | PSyntaxError => PSyntaxError
      | POutOfFuel => POutOfFuel
      end
  end.

(** The members of an object, added to [acc] from left to right. *)
Fixpoint parse_members (fuel : nat) (s : jsstring)
    (acc : list (jsstring * value)) : PR (list (jsstring * value)) :=
  match fuel with
  | O => POutOfFuel
  | S k =>
      match skip_ws s with
      | q :: r =>
          if (q =? 34)%N then
            match parse_chars r with
            | Some (key, r1) =>
                match skip_ws r1 with
                | c :: r2 =>
                    if (c =? 58)%N then
                      match parseValue r2 with
                      | POk v r3 =>
                          match skip_ws r3 with
                          | d :: r4 =>
                              if (d =? 44)%N then
                                parse_members k r4 (setProperty key v acc)
                              else if (d =? 125)%N then
                                POk (setProperty key v acc) r4
                              else PSyntaxError
                          | [] => PSyntaxError
                          end
                      | PSyntaxError => PSyntaxError
                      | POutOfFuel => POutOfFuel
                      end
                    else PSyntaxError
                | [] => PSyntaxError
                end
            | None => PSyntaxError
            end
          else PSyntaxError
      | [] => PSyntaxError
      end
  end.
End Containers.

Definition parse_literal (s : jsstring) : PR value :=
  match stripPrefix (str "true") s with
  | Some r => POk (JBool true) r
  | None =>
      match stripPrefix (str "false") s with
      | Some r => POk (JBool false) r
      | None =>
          match stripPrefix (str "null") s with
          | Some r => POk JNull r
          | None => PSyntaxError
          end
      end
  end.

(** One value, after optional white space. *)
Fixpoint parse_value (fuel : nat) (s : jsstring) : PR value :=
  match fuel with
  | O => POutOfFuel
  | S n =>
      match skip_ws s with
      | [] => PSyntaxError
      | c :: r =>
          if (c =? 123)%N then
            match skip_ws r with
            | d :: r' =>
                if (d =? 125)%N then POk (JObject []) r'
                else
                  match parse_members (parse_value n) n r [] with
                  | POk ps r'' => POk (JObject ps) r''
                  | PSyntaxError => PSyntaxError
                  | POutOfFuel => POutOfFuel
                  end
            | [] => PSyntaxError
            end
          else if (c =? 91)%N then
            match skip_ws r with
            | d :: r' =>
                if (d =? 93)%N then POk (JArray []) r'
                else
                  match parse_elements (parse_value n) n r with
                  | POk vs r'' => POk (JArray vs) r''
                  | PSyntaxError => PSyntaxError
                  | POutOfFuel => POutOfFuel
                  end
            | [] => PSyntaxError
            end
          else if (c =? 34)%N then
            match parse_chars r with
            | Some (cs, r') => POk (JString cs) r'
            | None => PSyntaxError
            end
          else if (c =? 45)%N || isDigit c then
            match parse_number (c :: r) with
            | Some (lit, r') => POk (JNumber lit) r'
            | None => PSyntaxError
            end
          else parse_literal (c :: r)
      end
  end.

(** [JSON.parse(text)]: one value and nothing but white space after it;
    [None] is the SyntaxError it throws otherwise.  The budget is more than
    the text can use (lemma [parse_value_fuel]). *)
Definition parse (text : jsstring) : option value :=
  match parse_value (S (List.length text)) text with
  | POk v rest =>
      match skip_ws rest with
      | [] => Some v
      | _ :: _ => None
      end
  | PSyntaxError => None
  | POutOfFuel => None
  end.

(** A parsing result on the text [s] that is not the exhaustion of the
    budget and leaves less text than it was given. *)
Definition settles {A} (p : PR A) (s : jsstring) : Prop :=
  p <> POutOfFuel
  /\ forall a r, p = POk a r -> (List.length r < List.length s)%nat.

End JSON.

(* ================================================================== *)
(** ** src/stateManager.js                                             *)
(* ================================================================== *)

Module StateManager.
Import JS.

(** What [fs.readFile(statePath, 'utf8')] settles to: a rejection (the file
    is missing or cannot be read) or the text of the file. *)
Inductive ReadResult :=
| ReadError (message : jsstring)
| ReadOk (fileContent : jsstring).

(** [this.defaultState], as the object it is. *)
Definition defaultStateObject : JSON.value :=
  JSON.JObject
    [ (str "chatId", JSON.JNull);
      (str "chatName", JSON.JNull);
      (str "lastProcessedTimestamp", JSON.JNull);
      (str "lastRunDate", JSON.JNull);
      (str "totalMessagesProcessed", JSON.JNumber (str "0")) ].

(** [loadState]: whatever [JSON.parse] makes of the file, and a copy of the
    default state when reading or parsing throws. *)
Definition loadState (read : ReadResult) : JSON.value :=
  match read with
  | ReadOk fileContent =>
      match JSON.parse fileContent with
      | Some state => state
      | None => defaultStateObject
      end
  | ReadError _ => defaultStateObject
  end.

(** A state document with the five fields of the watermark, each of its
    declared type ([None] is [null]).  The integers are those a Number
    holds exactly, below 2^53 in magnitude. *)
Record State := {
  chatId : option jsstring;
  chatName : option jsstring;
  lastProcessedTimestamp : option Z;
  lastRunDate : option jsstring;
  totalMessagesProcessed : Z
}.

Definition defaultState : State :=
  {| chatId := None;
     chatName := None;
     lastProcessedTimestamp := None;
     lastRunDate := None;
     totalMessagesProcessed := 0 |}.

Definition nullable {A} (f : A -> JSON.value) (x : option A) : JSON.value :=
  match x with
  | Some a => f a
  | None => JSON.JNull
  end.

Definition numberValue (z : Z) : JSON.value := JSON.JNumber (String_of_Z z).

(** The object a well-typed state is. *)
Definition State_object (s : State) : JSON.value :=
  JSON.JObject
    [ (str "chatId", nullable JSON.JString (chatId s));
      (str "chatName", nullable JSON.JString (chatName s));
      (str "lastProcessedTimestamp", nullable numberValue (lastProcessedTimestamp s));
      (str "lastRunDate", nullable JSON.JString (lastRunDate s));
      (str "totalMessagesProcessed", numberValue (totalMessagesProcessed s)) ].

(** The argument of [updateState]: the properties present in [updates]. *)
Record Updates := {
  u_chatId : option (option jsstring);
  u_chatName : option (option jsstring);
  u_lastProcessedTimestamp : option (option Z);
  u_lastRunDate : option (option jsstring);
  u_totalMessagesProcessed : option Z
}.

Definition override {A} (current : A) (update : option A) : A :=
  match update with
  | Some a => a
  | None => current
  end.

(** [{ ...currentState, ...updates }] *)
Definition merge (currentState : State) (updates : Updates) : State :=
  {| chatId := override (chatId currentState) (u_chatId updates);
     chatName := override (chatName currentState) (u_chatName updates);
     lastProcessedTimestamp :=
       override (lastProcessedTimestamp currentState)
                (u_lastProcessedTimestamp updates);
     lastRunDate := override (lastRunDate currentState) (u_lastRunDate updates);
     totalMessagesProcessed :=
       override (totalMessagesProcessed currentState)
                (u_totalMessagesProcessed updates) |}.

End StateManager.

(* ================================================================== *)
(** ** The files of a run, and computations that may throw             *)
(* ================================================================== *)

Module Effects.
Import JS StateManager.

(** One record of the CSV file, in the column order of the header. *)
Record CsvRecord := {
  csv_date : jsstring;
  csv_time : jsstring;
  csv_sender : jsstring;
  csv_reporter : jsstring;
  csv_content : jsstring;
  csv_hasMedia : bool;
  csv_links : jsstring
}.

(** The output file is the sequence of the pieces of text written into
    it: the header line, the line of a record, an empty line (a record
    delimiter on its own), and the beginning of a line that a failed write
    left without its end.  The first three end with the record delimiter;
    what is written after a [Fragment] continues its line. *)
Inductive Row :=
| HeaderRow (titles : list jsstring)
| DataRow (record : CsvRecord)
| BlankRow
| Fragment.

(** How far a write of the output file got when it was rejected:
    [NotOpened] when the file could not be opened and is as it was (no
    directory, no permission); [Stopped n fragment] when it was opened,
    took the first [n] lines of the text and then, if [fragment], a part of
    the next one (a full disk). *)
Inductive Progress :=
| NotOpened
| Stopped (lines : nat) (fragment : bool).

Record WriteFailure := {
  failureMessage : jsstring;
  progress : Progress
}.

(** The environment of a run.  [stateDoc] is the state file as [loadState]
    sees it: [None] when it is missing or is not JSON, [Some s] when it
    holds a state document [s].  [csvFile] is the output file, [None] while
    it does not exist.  A file that is not writable stands for every way a
    write can fail: [stateError] is the message the write of the state file
    is rejected with, the file staying as it was; [csvFailure] tells how a
    write of the output file fails.  [argumentsLimit] is the number of
    arguments a call can take in this engine. *)
Record World := {
  stateDoc : option State;
  stateWritable : bool;
  stateError : jsstring;
  csvFile : option (list Row);
  csvWritable : bool;
  csvFailure : WriteFailure;
  argumentsLimit : Z
}.

(** The world with another state file, and with another output file. *)
Definition setStateDoc (w : World) (doc : option State) : World :=
  {| stateDoc := doc;
     stateWritable := stateWritable w;
     stateError := stateError w;
     csvFile := csvFile w;
     csvWritable := csvWritable w;
     csvFailure := csvFailure w;
     argumentsLimit := argumentsLimit w |}.

Definition setCsvFile (w : World) (file : option (list Row)) : World :=
  {| stateDoc := stateDoc w;
     stateWritable := stateWritable w;
     stateError := stateError w;
     csvFile := file;
     csvWritable := csvWritable w;
     csvFailure := csvFailure w;
     argumentsLimit := argumentsLimit w |}.

(** A computation ends with a value or throws an [Error] with a message. *)
Inductive Result (A : Type) :=
| Ok (a : A)
| Throw (message : jsstring).
Arguments Ok {A} a.
Arguments Throw {A} message.

(** An async function: it reads and writes the files and then settles. *)
Definition M (A : Type) : Type := World -> World * Result A.

Definition ret {A} (a : A) : M A := fun w => (w, Ok a).

Definition throw {A} (message : jsstring) : M A := fun w => (w, Throw message).

Definition bind {A B} (c : M A) (k : A -> M B) : M B :=
  fun w =>
    match c w with
    | (w', Ok a) => k a w'
    | (w', Throw e) => (w', Throw e)
    end.

(** [try { c } catch (error) { handler(error.message) }] *)
Definition tryCatch {A} (c : M A) (handler : jsstring -> M A) : M A :=
  fun w =>
    match c w with
    | (w', Ok a) => (w', Ok a)
    | (w', Throw e) => handler e w'
    end.

(** A result obtained without touching the files. *)
Definition lift {A} (r : Result A) : M A := fun w => (w, r).

Notation "x <- c ;; k" := (bind c (fun x => k))
  (at level 61, c at next level, right associativity).
Notation "c ;;; k" := (bind c (fun _ => k))
  (at level 61, right associativity).

(** *** The state manager over the files *)

(** [loadState] on a state file that is missing, is not JSON or holds a
    state document.  (On any JSON value the function returns the value as
    it is: [StateManager.loadState].) *)
Definition loadState : M State :=
  fun w =>
    (w, Ok match stateDoc w with
           | Some state => state
           | None => defaultState
           end).

(** [fs.mkdir] and [fs.writeFile] of the state file: the document is
    written whole or the call is rejected. *)
Definition writeStateFile (state : State) : M unit :=
  fun w =>
    if stateWritable w then (setStateDoc w (Some state), Ok tt)
    else (w, Throw (stateError w)).

Definition saveState (state : State) : M unit :=
  tryCatch
    (writeStateFile state)
    (fun error => throw (str "Failed to save state: " ++ error)).

Definition updateState (updates : Updates) : M unit :=
  tryCatch
    (currentState <- loadState ;;
     let newState := merge currentState updates in
     saveState newState)
    (fun error => throw (str "Failed to update state: " ++ error)).

End Effects.

(* ================================================================== *)
(** ** src/exporter.js                                                 *)
(* ================================================================== *)

Module Exporter.
Import JS Parser Effects.

(** The titles of [headers], in order. *)
Definition headerTitles : list jsstring :=
  [ str "Date"; str "Time"; str "Sender"; str "Reporter"; str "Message";
    str "Has_Media"; str "Links" ].

(** [msg.sender || ''] *)
Definition orEmpty (x : option jsstring) : jsstring :=
  match x with
  | Some s => s
  | None => []
  end.

(** The object [messages.map] builds from one message.  On a string,
    [s || ''] is [s]. *)
Definition toRecord (msg : ParsedMessage) : CsvRecord :=
  {| csv_date := date msg;
     csv_time := time msg;
     csv_sender := orEmpty (sender msg);
     csv_reporter := reporter msg;
     csv_content := content msg;
     csv_hasMedia := hasMedia msg;
     csv_links := join (str ", ") (links msg) |}.

(** The text of the records: their lines joined by the record delimiter,
    and one more delimiter at the end.  For no record that is the
    delimiter alone, an empty line. *)
Definition recordLines (records : list CsvRecord) : list Row :=
  match records with
  | [] => [BlankRow]
  | _ :: _ => map DataRow records
  end.

(** What a write that stops leaves of the text it was to write. *)
Definition writtenPart (lines : nat) (fragment : bool) (text : list Row)
    : list Row :=
  firstn lines text
  ++ (if fragment && (lines <? List.length text)%nat then [Fragment] else []).

(** [csvWriter.writeRecords(records)] of the csv-writer package, on a writer
    created with the given [append]: one [fs.writeFile] of the header line
    (unless appending) and the text of the records, with the flag [a] when
    appending and [w] otherwise.  Without [append] the file is replaced;
    with it the text is added after what the file holds.  A write that is
    rejected leaves what it had written. *)
Definition writeRecords (append : bool) (records : list CsvRecord) : M unit :=
  fun w =>
    let before :=
      if append then
        match csvFile w with
        | Some rows => rows
        | None => []
        end
      else [] in
    let text :=
      (if append then [] else [HeaderRow headerTitles]) ++ recordLines records in
    if csvWritable w then (setCsvFile w (Some (before ++ text)), Ok tt)
    else
      match progress (csvFailure w) with
      | NotOpened => (w, Throw (failureMessage (csvFailure w)))
      | Stopped lines fragment =>
          (setCsvFile w (Some (before ++ writtenPart lines fragment text)),
           Throw (failureMessage (csvFailure w)))
      end.

(** [fs.existsSync(filePath)] *)
Definition existsSync (w : World) : bool :=
  match csvFile w with
  | Some _ => true
  | None => false
  end.

Definition exportToCSV (messages : list ParsedMessage) (append : bool) : M unit :=
  fun w =>
    let fileExists := existsSync w in
    let shouldAppend := append && fileExists in
    let records := map toRecord messages in
    writeRecords shouldAppend records w.

End Exporter.

(* ================================================================== *)
(** ** src/scraper.js                                                  *)
(* ================================================================== *)

Module Scraper.
Import JS Parser StateManager Effects Exporter.

(** A message as the chat hands it over. *)
Record RawMessage := {
  id : jsstring;
  body : JSValue;
  timestamp : Z;
  msg_hasMedia : bool;
  author : option jsstring;
  from : option jsstring
}.

(** The [limit] option of [chat.fetchMessages]. *)
Inductive Limit :=
| Infinity
| Limit_ (n : nat).

(** The chat object: its identity and what a call of [fetchMessages]
    settles to. *)
Record Chat := {
  chat_id_serialized : jsstring;
  chat_name : jsstring;
  fetchMessages : Limit -> Result (list RawMessage)
}.

(** [config.paths.output] *)
Definition config_paths_output : jsstring := str "./data/output/news_chat_data.csv".

(** [state.lastProcessedTimestamp === 0] *)
Definition isZero (lastProcessed : option Z) : bool :=
  match lastProcessed with
  | Some z => z =? 0
  | None => false
  end.

(** ToNumber of the stored timestamp: [null] is 0. *)
Definition toNumber (lastProcessed : option Z) : Z :=
  match lastProcessed with
  | Some z => z
  | None => 0
  end.

(** [msg.timestamp > state.lastProcessedTimestamp] *)
Definition isNewer (lastProcessed : option Z) (msg : RawMessage) : bool :=
  toNumber lastProcessed <? timestamp msg.

(** [!msg.body || typeof msg.body !== 'string' || !msg.body.trim()] *)
Definition skipped (msg : RawMessage) : bool :=
  negb (truthy (body msg))
  || negb (typeof_string (body msg))
  || match body msg with
     | VString s => negb (truthy (VString (trim s)))
     | _ => true
     end.

(** [msg.author || msg.from || ''] *)
Definition senderOf (msg : RawMessage) : jsstring :=
  match author msg with
  | Some (c :: a) => c :: a
  | _ =>
      match from msg with
      | Some (c :: f) => c :: f
      | _ => []
      end
  end.

Definition withSender (parsed : ParsedMessage) (s : jsstring) : ParsedMessage :=
  {| reporter := reporter parsed;
     content := content parsed;
     date := date parsed;
     time := time parsed;
     links := links parsed;
     hasMedia := hasMedia parsed;
     sender := Some s |}.

(** The three counters of the parsing loop. *)
Record Parsing := {
  parsedMessages : list ParsedMessage;
  skippedCount : nat;
  errorCount : nat
}.

(** One turn of the loop.  [parseMessage] cannot throw, so the [catch] of
    the loop body is never entered and [errorCount] stays as it is. *)
Definition parseStep (acc : Parsing) (msg : RawMessage) : Parsing :=
  if skipped msg then
    {| parsedMessages := parsedMessages acc;
       skippedCount := S (skippedCount acc);
       errorCount := errorCount acc |}
  else
    let hasMedia := msg_hasMedia msg || false in
    let parsed := parseMessage (body msg) (timestamp msg) hasMedia in
    {| parsedMessages := parsedMessages acc ++ [withSender parsed (senderOf msg)];
       skippedCount := skippedCount acc;
       errorCount := errorCount acc |}.

Definition parseEach (fetchedMessages : list RawMessage) : Parsing :=
  fold_left parseStep fetchedMessages
    {| parsedMessages := []; skippedCount := 0; errorCount := 0 |}.

(** [Math.max] of the arguments it is called with: [None] is the
    -Infinity of no argument, which the state file holds as [null]. *)
Definition Math_max (xs : list Z) : option Z :=
  match xs with
  | [] => None
  | x :: xs' => Some (fold_left Z.max xs' x)
  end.

(** [Math.max(...xs)]: the call takes one argument for each element of the
    array, and the engine throws a RangeError when there are more than it
    takes. *)
Definition Math_max_spread (xs : list Z) : M (option Z) :=
  fun w =>
    if Z.of_nat (List.length xs) <=? argumentsLimit w then (w, Ok (Math_max xs))
    else (w, Throw (str "Maximum call stack size exceeded")).

(** [scrapeMessages] as it runs when every write of the log succeeds: the
    calls of the logger are left out here and put back in
    [Logged.scrapeMessages]. *)
Definition scrapeMessages (chat : Chat) (isFirstRun : bool)
    : M (list ParsedMessage) :=
  state <- loadState ;;
  tryCatch
    (fetchedMessages <-
       (if isFirstRun || isZero (lastProcessedTimestamp state) then
          lift (fetchMessages chat Infinity)
        else
          fetched <- lift (fetchMessages chat (Limit_ 100)) ;;
          ret (filter (isNewer (lastProcessedTimestamp state)) fetched)) ;;
     let parsedMessages := parsedMessages (parseEach fetchedMessages) in
     (if (0 <? List.length parsedMessages)%nat then
        latestTimestamp <- Math_max_spread (map timestamp fetchedMessages) ;;
        let newTotalCount :=
          totalMessagesProcessed state + Z.of_nat (List.length parsedMessages) in
        updateState
          {| u_chatId := Some (Some (chat_id_serialized chat));
             u_chatName := Some (Some (chat_name chat));
             u_lastProcessedTimestamp := Some latestTimestamp;
             u_lastRunDate := None;
             u_totalMessagesProcessed := Some newTotalCount |}
      else ret tt) ;;;
     ret parsedMessages)
    (fun error => throw error).

(** The object [scrape] returns. *)
Record Summary := {
  success : bool;
  messagesProcessed : nat;
  isFirstRun : option bool;
  outputFile : option jsstring;
  error : option jsstring;
  message : jsstring
}.

Definition countText (n : nat) : jsstring := String_of_Z (Z.of_nat n).

(** [scrape] as it runs when every write of the log succeeds; with the
    calls of the logger, each of which can throw, it is [Logged.scrape]. *)
Definition scrape (chat : Chat) : M Summary :=
  tryCatch
    (state <- loadState ;;
     let isFirstRun := isZero (lastProcessedTimestamp state) in
     messages <- scrapeMessages chat isFirstRun ;;
     if (List.length messages =? 0)%nat then
       ret {| success := true;
              messagesProcessed := 0;
              isFirstRun := Some isFirstRun;
              outputFile := Some config_paths_output;
              error := None;
              message := str "No new messages found" |}
     else
       exportToCSV messages (negb isFirstRun) ;;;
       ret {| success := true;
              messagesProcessed := List.length messages;
              isFirstRun := Some isFirstRun;
              outputFile := Some config_paths_output;
              error := None;
              message := str "Successfully processed "
                           ++ countText (List.length messages)
                           ++ str " messages" |})
    (fun error =>
       ret {| success := false;
              messagesProcessed := 0;
              isFirstRun := None;
              outputFile := None;
              error := Some error;
              message := str "Scrape workflow failed" |}).

End Scraper.

(* ================================================================== *)
(** ** src/parser.js, with the exceptions of the language              *)
(* ================================================================== *)

Module ParserSteps.
Import JS JSDate Parser Effects.

(** [v.trim()].  Only a string has the method for certain: [undefined] and
    [null] have no properties, a number or a boolean has no [trim], and
    for an object the call depends on the object and is taken to throw,
    its worst case. *)
Definition call_trim (v : JSValue) : Result jsstring :=
  match v with
  | VString s => Ok (trim s)
  | VUndefined =>
      Throw (str "Cannot read properties of undefined (reading 'trim')")
  | VNull => Throw (str "Cannot read properties of null (reading 'trim')")
  | _ => Throw (str "trim is not a function")
  end.

(** [lines[i]]: [undefined] beyond the end of the array. *)
Definition element (i : nat) (lines : list jsstring) : JSValue :=
  match nth_error lines i with
  | Some line => VString line
  | None => VUndefined
  end.

(** [parseMessage], statement by statement: each call of a method on a
    value that may not have it can throw a TypeError. *)
Definition parseMessage (messageText : JSValue) (timestamp : Z)
    (hasMedia : bool) : Result ParsedMessage :=
  if negb (truthy messageText) || negb (typeof_string messageText) then
    Ok {| reporter := [];
          content := [];
          date := formatDate timestamp;
          time := formatTime timestamp;
          links := [];
          hasMedia := hasMedia;
          sender := None |}
  else
    match call_trim messageText with
    | Throw e => Throw e
    | Ok trimmed =>
        let lines :=
          filter (fun line => truthy (VString (trim line))) (split LF trimmed) in
        if (List.length lines =? 0)%nat then
          Ok {| reporter := [];
                content := [];
                date := formatDate timestamp;
                time := formatTime timestamp;
                links := [];
                hasMedia := hasMedia;
                sender := None |}
        else
          match call_trim (element 0 lines) with
          | Throw e => Throw e
          | Ok reporter =>
              let contentLines :=
                filter (fun line => negb (sourceTagPattern_test line))
                       (skipn 1 lines) in
              let content := trim (join [LF] contentLines) in
              let links := matchLinks content in
              Ok {| reporter := reporter;
                    content := content;
                    date := formatDate timestamp;
                    time := formatTime timestamp;
                    links := links;
                    hasMedia := hasMedia;
                    sender := None |}
          end
    end.

End ParserSteps.

(* ================================================================== *)
(** ** src/scraper.js, with the calls of the logger                    *)
(* ================================================================== *)

Module Logged.
Import JS Parser StateManager Effects Exporter Scraper.

(** The log: the number of calls of [logger.write] made so far, and the
    calls whose [fs.appendFileSync] throws, each with the message of its
    error. *)
Record Log := {
  calls : nat;
  failing : nat -> option jsstring
}.

(** A computation that also writes the log. *)
Definition L (A : Type) : Type := Log -> World -> (Log * World) * Result A.

Definition retL {A} (a : A) : L A := fun l w => ((l, w), Ok a).

Definition throwL {A} (message : jsstring) : L A :=
  fun l w => ((l, w), Throw message).

Definition bindL {A B} (c : L A) (k : A -> L B) : L B :=
  fun l w =>
    match c l w with
    | ((l', w'), Ok a) => k a l' w'
    | ((l', w'), Throw e) => ((l', w'), Throw e)
    end.

Definition tryCatchL {A} (c : L A) (handler : jsstring -> L A) : L A :=
  fun l w =>
    match c l w with
    | ((l', w'), Ok a) => ((l', w'), Ok a)
    | ((l', w'), Throw e) => handler e l' w'
    end.

(** A computation that does not write the log. *)
Definition quietly {A} (c : M A) : L A :=
  fun l w => let (w', r) := c w in ((l, w'), r).

Notation "x <~ c ;; k" := (bindL c (fun x => k))
  (at level 61, c at next level, right associativity).
Notation "c ;;~ k" := (bindL c (fun _ => k))
  (at level 61, right associativity).

(** [logger.write(level, message, color)]: the line goes to the console
    and is then appended to the log file of the day by an
    [fs.appendFileSync] that nothing guards.  The text of the line has no
    part in what follows and is left out. *)
Definition logger_write : L unit :=
  fun l w =>
    let l' := {| calls := S (calls l); failing := failing l |} in
    match failing l (calls l) with
    | Some e => ((l', w), Throw e)
    | None => ((l', w), Ok tt)
    end.

Definition logger_info : L unit := logger_write.
Definition logger_success : L unit := logger_write.
Definition logger_error : L unit := logger_write.

(** [scrapeMessages] with its calls of the logger.  The [logger.warn] of
    the parsing loop is in a [catch] that is never entered. *)
Definition scrapeMessages (chat : Chat) (isFirstRun : bool)
    : L (list ParsedMessage) :=
  state <~ quietly loadState ;;
  tryCatchL
    (fetchedMessages <~
       (if isFirstRun || isZero (lastProcessedTimestamp state) then
          logger_info ;;~
          fetched <~ quietly (lift (fetchMessages chat Infinity)) ;;
          logger_info ;;~
          retL fetched
        else
          logger_info ;;~
          fetched <~ quietly (lift (fetchMessages chat (Limit_ 100))) ;;
          let newer := filter (isNewer (lastProcessedTimestamp state)) fetched in
          logger_info ;;~
          retL newer) ;;
     let parsedMessages := parsedMessages (parseEach fetchedMessages) in
     logger_info ;;~
     (if (0 <? List.length parsedMessages)%nat then
        latestTimestamp <~
          quietly (Math_max_spread (map timestamp fetchedMessages)) ;;
        let newTotalCount :=
          totalMessagesProcessed state + Z.of_nat (List.length parsedMessages) in
        quietly
          (updateState
             {| u_chatId := Some (Some (chat_id_serialized chat));
                u_chatName := Some (Some (chat_name chat));
                u_lastProcessedTimestamp := Some latestTimestamp;
                u_lastRunDate := None;
                u_totalMessagesProcessed := Some newTotalCount |}) ;;~
        logger_success
      else retL tt) ;;~
     retL parsedMessages)
    (fun error => logger_error ;;~ throwL error).

(** [scrape] with its calls of the logger. *)
Definition scrape (chat : Chat) : L Summary :=
  tryCatchL
    (logger_info ;;~
     state <~ quietly loadState ;;
     let isFirstRun := isZero (lastProcessedTimestamp state) in
     messages <~ scrapeMessages chat isFirstRun ;;
     if (List.length messages =? 0)%nat then
       logger_info ;;~
       retL {| success := true;
               messagesProcessed := 0;
               isFirstRun := Some isFirstRun;
               outputFile := Some config_paths_output;
               error := None;
               message := str "No new messages found" |}
     else
       logger_info ;;~
       quietly (exportToCSV messages (negb isFirstRun)) ;;~
       logger_success ;;~
       retL {| success := true;
               messagesProcessed := List.length messages;
               isFirstRun := Some isFirstRun;
               outputFile := Some config_paths_output;
               error := None;
               message := str "Successfully processed "
                            ++ countText (List.length messages)
                            ++ str " messages" |})
    (fun error =>
       logger_error ;;~
       retL {| success := false;
               messagesProcessed := 0;
               isFirstRun := None;
               outputFile := None;
               error := Some error;
               message := str "Scrape workflow failed" |}).

(** A log every write of which succeeds, and the log after [n] more
    calls. *)
Definition quiet (l : Log) : Prop := forall n, failing l n = None.

Definition after (n : nat) (l : Log) : Log :=
  {| calls := (n + calls l)%nat; failing := failing l |}.

(** A computation that leaves the failures of the log as they are. *)
Definition keeps {A} (c : L A) : Prop :=
  forall l w, failing (fst (fst (c l w))) = failing l.

(** A log of which, from now on, the write [k] calls ahead throws [e] and
    every other write succeeds. *)
Definition failsOnlyAt (k : nat) (e : jsstring) (l : Log) : Prop :=
  forall i,
    failing l (calls l + i) = if (i =? k)%nat then Some e else None.

End Logged.

(* ================================================================== *)
(** ** Vocabulary of the properties                                    *)
(* ================================================================== *)

Module Props.
Import JS Parser StateManager Effects Exporter Scraper.

(** [u] occurs in [s] as a run of consecutive code units. *)
Definition isSubstring (u s : jsstring) : Prop :=
  exists pre post, s = pre ++ u ++ post.

(** A pattern character and a text character that differ at most by the
    case of a Latin letter. *)
Definition sameLetter (p c : N) : Prop :=
  c = p
  \/ ((97 <= p <= 122)%N /\ c = (p - 32)%N)
  \/ ((65 <= p <= 90)%N /\ c = (p + 32)%N).

(** [line] contains [word], ignoring the case of Latin letters. *)
Definition containsIgnoringCase (word line : jsstring) : Prop :=
  exists pre w post, line = pre ++ w ++ post /\ Forall2 sameLetter word w.

(** A text argument from which no line can be read: not a string, or a
    string that is empty once trimmed. *)
Definition noText (messageText : JSValue) : Prop :=
  match messageText with
  | VString s => trim s = []
  | _ => True
  end.

(** The state [loadState] returns in world [w]. *)
Definition currentState (w : World) : State :=
  match stateDoc w with
  | Some state => state
  | None => defaultState
  end.

(** The persisted watermark as a number ([null] counts as 0, as it does in
    the comparison of the incremental filter). *)
Definition watermark (w : World) : Z :=
  toNumber (lastProcessedTimestamp (currentState w)).

(** The messages a cycle works on ([fetchedMessages] after the fetch
    strategy has run), or the error of the fetch. *)
Definition fetchedFor (chat : Chat) (isFirstRun : bool) (state : State)
    : Result (list RawMessage) :=
  if isFirstRun || isZero (lastProcessedTimestamp state) then
    fetchMessages chat Infinity
  else
    match fetchMessages chat (Limit_ 100) with
    | Ok fetched => Ok (filter (isNewer (lastProcessedTimestamp state)) fetched)
    | Throw e => Throw e
    end.

(** The argument the scraper passes to [updateState]. *)
Definition updatesOf (chat : Chat) (state : State)
    (fetchedMessages : list RawMessage) (parsed : list ParsedMessage) : Updates :=
  {| u_chatId := Some (Some (chat_id_serialized chat));
     u_chatName := Some (Some (chat_name chat));
     u_lastProcessedTimestamp := Some (Math_max (map timestamp fetchedMessages));
     u_lastRunDate := None;
     u_totalMessagesProcessed :=
       Some (totalMessagesProcessed state + Z.of_nat (List.length parsed)) |}.

Definition withState (w : World) (state : State) : World :=
  setStateDoc w (Some state).

(** The world after one cycle, and the worlds a sequence of cycles goes
    through (one chat object per cycle: the source may answer differently
    each time). *)
Definition cycle (chat : Chat) (w : World) : World := fst (scrape chat w).

Fixpoint trajectory (chats : list Chat) (w : World) : list World :=
  w :: match chats with
       | [] => []
       | chat :: chats' => trajectory chats' (cycle chat w)
       end.

(** A source whose messages carry Unix times at or after the epoch. *)
Definition unixTimes (chat : Chat) : Prop :=
  forall limit msgs,
    fetchMessages chat limit = Ok msgs ->
    Forall (fun msg => 0 <= timestamp msg) msgs.

Definition isHeader (row : Row) : bool :=
  match row with
  | HeaderRow _ => true
  | _ => false
  end.

(** The number of header rows in the output file (none while it does not
    exist). *)
Definition headerCount (w : World) : nat :=
  match csvFile w with
  | Some rows => List.length (filter isHeader rows)
  | None => 0%nat
  end.

(** The export is reached in the cycle and throws. *)
Definition sinkRaises (chat : Chat) (w : World) : Prop :=
  exists w1 m ms e,
    scrapeMessages chat (isZero (lastProcessedTimestamp (currentState w))) w
      = (w1, Ok (m :: ms))
    /\ snd (exportToCSV (m :: ms)
              (negb (isZero (lastProcessedTimestamp (currentState w)))) w1)
       = Throw e.

(** Repeated [exportToCSV(batch, path, { append: true })]; after a call
    that throws the next one is made all the same. *)
Definition appendAll (batches : list (list ParsedMessage)) (w : World) : World :=
  fold_left (fun w' batch => fst (exportToCSV batch true w')) batches w.

(** The value of property [k] of an object. *)
Fixpoint lookup (k : jsstring) (props : list (jsstring * JSON.value))
    : option JSON.value :=
  match props with
  | [] => None
  | (k', v) :: ps => if jsstring_eqb k k' then Some v else lookup k ps
  end.

Definition isTextOrNull (v : option JSON.value) : bool :=
  match v with
  | Some (JSON.JString _) | Some JSON.JNull => true
  | _ => false
  end.

Definition allDigits (ds : jsstring) : bool :=
  match ds with
  | [] => false
  | _ :: _ => forallb JSON.isDigit ds
  end.

Definition isIntegerLiteral (lit : jsstring) : bool :=
  match lit with
  | c :: ds => if (c =? 45)%N then allDigits ds else allDigits lit
  | [] => false
  end.

Definition isInteger (v : option JSON.value) : bool :=
  match v with
  | Some (JSON.JNumber lit) => isIntegerLiteral lit
  | _ => false
  end.

Definition isIntegerOrNull (v : option JSON.value) : bool :=
  match v with
  | Some JSON.JNull => true
  | _ => isInteger v
  end.

(** Follows the spec's words (section 3, Watermark): a valid watermark is
    an object whose five fields are present, with a text or null source id
    and name, an integer or null timestamp, a text or null run date and an
    integer total. *)
Definition isValidWatermark (v : JSON.value) : bool :=
  match v with
  | JSON.JObject props =>
      isTextOrNull (lookup (str "chatId") props)
      && isTextOrNull (lookup (str "chatName") props)
      && isIntegerOrNull (lookup (str "lastProcessedTimestamp") props)
      && isTextOrNull (lookup (str "lastRunDate") props)
      && isInteger (lookup (str "totalMessagesProcessed") props)
  | _ => false
  end.

End Props.

(* ================================================================== *)
(** ** Concrete inputs                                                 *)
(* ================================================================== *)

Module Examples.
Import JS Parser StateManager Effects Exporter Scraper Props.

(** Three lines: a reporter, a line of text, a line with a link. *)
Definition scenario1 : jsstring :=
  str "Reporter Name" ++ [LF] ++ str "line one" ++ [LF]
  ++ str "https://a.test/x line two".

(** A first line that itself matches the source-tag pattern, a tagged line
    that carries a link, and a line of content. *)
Definition taggedText : jsstring :=
  str "Chat desk" ++ [LF] ++ str "see https://a.test/x in the CHAT" ++ [LF]
  ++ str "real news https://b.test/y".

(** The texts of the parser test on source-tag variations and of its first
    test, by code unit: a reporter line, a content line and a source-tag
    line, in Hebrew. *)
Definition reporter1 : jsstring := [1499; 1514; 1489; 32; 49]%N.
Definition contentLine : jsstring :=
  [1514; 1493; 1499; 1503; 32; 1492; 1493; 1491; 1506; 1492]%N.
Definition groupTag : jsstring :=
  [1511; 1489; 1493; 1510; 1514; 32; 1499; 1514; 1489; 1497; 1501]%N.
Definition chatTag : jsstring :=
  [1510; 39; 1488; 1496; 32; 1492; 1499; 1514; 1489; 1497; 1501; 32; 78; 49; 50]%N.

(** A message with the given timestamp and body text. *)
Definition textMessage (t : Z) (text : jsstring) : RawMessage :=
  {| id := str "msg-" ++ String_of_Z t;
     body := VString text;
     timestamp := t;
     msg_hasMedia := false;
     author := Some (str "972500000000@c.us");
     from := Some (str "120363401113878063@g.us") |}.

(** The [n] most recent messages of a history. *)
Definition recent {A} (n : nat) (history : list A) : list A :=
  skipn (List.length history - n) history.

(** A chat that answers from a fixed history, oldest message first. *)
Definition chatOf (history : list RawMessage) : Chat :=
  {| chat_id_serialized := str "120363401113878063@g.us";
     chat_name := str "N12";
     fetchMessages := fun limit =>
       Ok match limit with
          | Infinity => history
          | Limit_ n => recent n history
          end |}.

Definition report : jsstring := str "Reporter" ++ [LF] ++ str "news".

(** The state file of a run that stopped at timestamp [t]. *)
Definition stateAt (t : Z) : State :=
  {| chatId := Some (str "120363401113878063@g.us");
     chatName := Some (str "N12");
     lastProcessedTimestamp := Some t;
     lastRunDate := None;
     totalMessagesProcessed := 5 |}.

(** A write of the output file that is rejected before the file is
    opened, and a limit of arguments of the order of Node's. *)
Definition noPermission : WriteFailure :=
  {| failureMessage := str "EACCES: permission denied"; progress := NotOpened |}.

Definition nodeArguments : Z := 120000.

(** A first start: no state file, no output file. *)
Definition freshWorld : World :=
  {| stateDoc := None; stateWritable := true;
     stateError := str "EACCES: permission denied";
     csvFile := None; csvWritable := true;
     csvFailure := noPermission; argumentsLimit := nodeArguments |}.

(** An output file left by an earlier installation. *)
Definition oldRows : list Row :=
  [ HeaderRow headerTitles;
    DataRow {| csv_date := str "01/01/2024"; csv_time := str "08:00";
               csv_sender := str "972500000000@c.us";
               csv_reporter := str "Reporter"; csv_content := str "old news";
               csv_hasMedia := false; csv_links := [] |} ].

(** No state file, but an output file. *)
Definition restartedWorld : World :=
  {| stateDoc := None; stateWritable := true;
     stateError := str "EACCES: permission denied";
     csvFile := Some oldRows; csvWritable := true;
     csvFailure := noPermission; argumentsLimit := nodeArguments |}.

(** A history of 150 messages, one per minute. *)
Definition history150 : list RawMessage :=
  map (fun n => textMessage (1707580800 + 60 * Z.of_nat n) report) (seq 1 150).

(** The fetch of the spec's third scenario: timestamps 900, 1500 and 1200,
    the newest message without text. *)
Definition scenario3 : list RawMessage :=
  [ textMessage 900 report; textMessage 1500 (str "   "); textMessage 1200 report ].

(** The text of a state file: the document of [stateAt 1000] with its
    fields in another order. *)
Definition quoted (s : string) : jsstring := [34%N] ++ str s ++ [34%N].

Definition stateText : jsstring :=
  str "{" ++ [LF] ++ str "  "
  ++ quoted "lastProcessedTimestamp" ++ str ": 1000," ++ [LF] ++ str "  "
  ++ quoted "totalMessagesProcessed" ++ str ": 5," ++ [LF] ++ str "  "
  ++ quoted "chatId" ++ str ": " ++ quoted "120363401113878063@g.us"
  ++ str "," ++ [LF] ++ str "  "
  ++ quoted "chatName" ++ str ": " ++ quoted "N12" ++ str "," ++ [LF]
  ++ str "  " ++ quoted "lastRunDate" ++ str ": null" ++ [LF] ++ str "}".

Definition worldAt (t : Z) (csvWritable : bool) : World :=
  {| stateDoc := Some (stateAt t); stateWritable := true;
     stateError := str "EACCES: permission denied";
     csvFile := Some oldRows; csvWritable := csvWritable;
     csvFailure := noPermission; argumentsLimit := nodeArguments |}.

End Examples.

(* ================================================================== *)
(** ** Further vocabulary                                              *)
(* ================================================================== *)

Module MoreProps.
Import JS Parser StateManager Effects Exporter Scraper Props.

(** A text without white space. *)
Definition noSpace (u : jsstring) : Prop :=
  Forall (fun c => isWhiteSpace c = false) u.



(** The two decimal digits of a number below 100. *)
Definition twoDigits (n : Z) : jsstring :=
  [Z.to_N (48 + n / 10); Z.to_N (48 + n mod 10)].

(** The timestamps [new Date(timestamp * 1000)] accepts: 100,000,000 days
    on either side of the epoch, in seconds. *)
Definition validTimestamp (t : Z) : Prop := Z.abs t <= 8640000000000.

(** The day of the year on which a month starts ([leap] is 1 in a leap
    year): the bounds of MonthFromTime (ECMA-262, 21.4.1.11). *)
Definition monthStart (month leap : Z) : Z :=
  match month with
  | 0 => 0
  | 1 => 31
  | 2 => 59 + leap
  | 3 => 90 + leap
  | 4 => 120 + leap
  | 5 => 151 + leap
  | 6 => 181 + leap
  | 7 => 212 + leap
  | 8 => 243 + leap
  | 9 => 273 + leap
  | 10 => 304 + leap
  | _ => 334 + leap
  end.

(** The Gregorian calendar by its rules: the leap years, the lengths of
    the years and of the months, and the days counted from 1 January 1970
    to a date (backwards before 1970). *)
Definition leapYear (y : Z) : bool :=
  ((y mod 4 =? 0) && negb (y mod 100 =? 0)) || (y mod 400 =? 0).

Definition daysInYear (y : Z) : Z := if leapYear y then 366 else 365.

Definition daysInMonth (y m : Z) : Z :=
  match m with
  | 2 => if leapYear y then 29 else 28
  | 4 | 6 | 9 | 11 => 30
  | _ => 31
  end.

(** The numbers [first], [first + 1], ..., [count] of them. *)
Definition countFrom (first : Z) (count : nat) : list Z :=
  map (fun k => first + Z.of_nat k) (seq 0 count).

Definition sumZ (l : list Z) : Z := fold_right Z.add 0 l.

Definition daysBeforeYear (y : Z) : Z :=
  if 1970 <=? y then
    sumZ (map daysInYear (countFrom 1970 (Z.to_nat (y - 1970))))
  else - sumZ (map daysInYear (countFrom y (Z.to_nat (1970 - y)))).

Definition daysBeforeMonth (y m : Z) : Z :=
  sumZ (map (daysInMonth y) (countFrom 1 (Z.to_nat (m - 1)))).

Definition daysFromCivil (y m d : Z) : Z :=
  daysBeforeYear y + daysBeforeMonth y m + (d - 1).

(** A date of the calendar: a month from 1 to 12 and a day of that
    month. *)
Definition civilDate (y m d : Z) : Prop :=
  1 <= m <= 12 /\ 1 <= d <= daysInMonth y m.

(** The record the loop of [scrapeMessages] pushes for a message it does
    not skip. *)
Definition recordOf (msg : RawMessage) : ParsedMessage :=
  withSender (parseMessage (body msg) (timestamp msg) (msg_hasMedia msg || false))
             (senderOf msg).

(** The limit of the one fetch a cycle makes in world [w]. *)
Definition limitOf (w : World) : Limit :=
  if isZero (lastProcessedTimestamp (currentState w)) then Infinity
  else Limit_ 100.

(** The messages of a fetch that the cycle in world [w] goes on with: all
    of them in a backfill, the newer ones otherwise. *)
Definition selected (w : World) (raw : list RawMessage) : list RawMessage :=
  if isZero (lastProcessedTimestamp (currentState w)) then raw
  else filter (isNewer (lastProcessedTimestamp (currentState w))) raw.

(** A source as the scraper expects it: messages dated after the epoch,
    and a bounded fetch that returns part of what the full fetch returns. *)
Definition steadySource (chat : Chat) : Prop :=
  (forall limit msgs,
     fetchMessages chat limit = Ok msgs ->
     Forall (fun msg => 0 < timestamp msg) msgs)
  /\ (forall recent history,
        fetchMessages chat (Limit_ 100) = Ok recent ->
        fetchMessages chat Infinity = Ok history ->
        incl recent history).

(** The summary of a failed cycle. *)
Definition failed (e : jsstring) : Summary :=
  {| success := false;
     messagesProcessed := 0;
     isFirstRun := None;
     outputFile := None;
     error := Some e;
     message := str "Scrape workflow failed" |}.

(** The rows a world's output file holds (none while it does not exist). *)
Definition rowsOf (w : World) : list Row :=
  match csvFile w with
  | Some rows => rows
  | None => []
  end.

(** [{ ...u1, ...u2 }]: the later update wins where both are present. *)
Definition later {A} (u1 u2 : option A) : option A :=
  match u2 with
  | Some a => Some a
  | None => u1
  end.

Definition bothUpdates (u1 u2 : Updates) : Updates :=
  {| u_chatId := later (u_chatId u1) (u_chatId u2);
     u_chatName := later (u_chatName u1) (u_chatName u2);
     u_lastProcessedTimestamp :=
       later (u_lastProcessedTimestamp u1) (u_lastProcessedTimestamp u2);
     u_lastRunDate := later (u_lastRunDate u1) (u_lastRunDate u2);
     u_totalMessagesProcessed :=
       later (u_totalMessagesProcessed u1) (u_totalMessagesProcessed u2) |}.

End MoreProps.

(* ================================================================== *)
(** ** [JSON.stringify] with an indentation of two spaces              *)
(* ================================================================== *)

Module JSONText.
Import JS JSON StateManager.

(** Leading and trailing surrogates of UTF-16. *)
Definition isHighSurrogate (c : N) : bool := ((55296 <=? c) && (c <=? 56319))%N.
Definition isLowSurrogate (c : N) : bool := ((56320 <=? c) && (c <=? 57343))%N.

(** A lower-case hexadecimal digit. *)
Definition hexDigit (n : N) : N :=
  if (n <? 10)%N then (48 + n)%N else (87 + n)%N.

(** UnicodeEscape: a reverse solidus, [u] and four hexadecimal digits. *)
Definition unicodeEscape (c : N) : jsstring :=
  [92; 117; hexDigit (c / 4096); hexDigit ((c / 256) mod 16);
   hexDigit ((c / 16) mod 16); hexDigit (c mod 16)]%N.

(** The text of one code unit that is not a surrogate, inside a string
    literal (the table of QuoteJSONString). *)
Definition quoteUnit (c : N) : jsstring :=
  if (c =? 8)%N then [92; 98]%N
  else if (c =? 9)%N then [92; 116]%N
  else if (c =? 10)%N then [92; 110]%N
  else if (c =? 12)%N then [92; 102]%N
  else if (c =? 13)%N then [92; 114]%N
  else if (c =? 34)%N then [92; 34]%N
  else if (c =? 92)%N then [92; 92]%N
  else if (c <? 32)%N then unicodeEscape c
  else [c].

(** The characters of a string literal: a surrogate pair is written as it
    is, a surrogate on its own is escaped. *)
Fixpoint quoteChars (s : jsstring) : jsstring :=
  match s with
  | [] => []
  | c :: s' =>
      if isHighSurrogate c then
        match s' with
        | d :: s'' =>
            if isLowSurrogate d then c :: d :: quoteChars s''
            else unicodeEscape c ++ quoteChars s'
        | [] => unicodeEscape c
        end
      else if isLowSurrogate c then unicodeEscape c ++ quoteChars s'
      else quoteUnit c ++ quoteChars s'
  end.

(** QuoteJSONString *)
Definition quote (s : jsstring) : jsstring := [34%N] ++ quoteChars s ++ [34%N].

(** The indentation at a nesting depth, for the gap of two spaces. *)
Definition indentOf (depth : nat) : jsstring := repeat 32%N (2 * depth).

(** The separator between the members of a container at that depth. *)
Definition separator (depth : nat) : jsstring := [44%N; LF] ++ indentOf depth.

(** SerializeJSONProperty with the gap of two spaces.  A Number is written
    as its literal: the values of this development hold Numbers by their
    canonical text.  The properties are written in the order of the list,
    which is the order of enumeration when no key is an array index. *)
Fixpoint stringifyAt (depth : nat) (v : value) : jsstring :=
  match v with
  | JNull => str "null"
  | JBool true => str "true"
  | JBool false => str "false"
  | JNumber literal => literal
  | JString s => quote s
  | JArray [] => str "[]"
  | JArray elements =>
      [91%N; LF] ++ indentOf (S depth)
      ++ join (separator (S depth)) (map (stringifyAt (S depth)) elements)
      ++ [LF] ++ indentOf depth ++ [93%N]
  | JObject [] => str "{}"
  | JObject properties =>
      [123%N; LF] ++ indentOf (S depth)
      ++ join (separator (S depth))
              (map (fun kv => quote (fst kv) ++ [58%N; 32%N]
                              ++ stringifyAt (S depth) (snd kv))
                   properties)
      ++ [LF] ++ indentOf depth ++ [125%N]
  end.

(** [JSON.stringify(value, null, 2)] *)
Definition stringify (v : value) : jsstring := stringifyAt 0 v.

(** What [saveState(state)] writes into the state file. *)
Definition stateFileText (state : State) : jsstring :=
  stringify (State_object state).

(** An integer that a Number holds exactly and prints in decimal digits. *)
Definition safeInteger (z : Z) : Prop := Z.abs z <= 9007199254740991.

(** A state whose two counters are such integers. *)
Definition safeState (state : State) : Prop :=
  safeInteger (totalMessagesProcessed state)
  /\ match lastProcessedTimestamp state with
     | Some t => safeInteger t
     | None => True
     end.

(** The number of values in a value. *)
Fixpoint size (v : value) : nat :=
  match v with
  | JArray elements => S (list_sum (map size elements))
  | JObject properties => S (list_sum (map (fun kv => size (snd kv)) properties))
  | _ => 1
  end.

(** A value as [JSON.parse] builds them and [stringify] can write them
    back: integer Numbers held by their decimal text, and no key twice in
    an object. *)
Fixpoint wellFormed (v : value) : Prop :=
  match v with
  | JNumber literal => exists z : Z, literal = String_of_Z z
  | JArray elements =>
      fold_right (fun x rest => wellFormed x /\ rest) True elements
  | JObject properties =>
      NoDup (map fst properties)
      /\ fold_right (fun kv rest => wellFormed (snd kv) /\ rest) True properties
  | _ => True
  end.

(** What may stand behind a value in a JSON text: nothing, a comma or a
    line feed. *)
Definition delimited (rest : jsstring) : Prop :=
  match rest with
  | [] => True
  | c :: _ => c = 44%N \/ c = LF
  end.

(** The code units of the digits of a decimal number. *)
Fixpoint digitsOf (d : Decimal.uint) : jsstring :=
  match d with
  | Decimal.Nil => []
  | Decimal.D0 d' => 48%N :: digitsOf d'
  | Decimal.D1 d' => 49%N :: digitsOf d'
  | Decimal.D2 d' => 50%N :: digitsOf d'
  | Decimal.D3 d' => 51%N :: digitsOf d'
  | Decimal.D4 d' => 52%N :: digitsOf d'
  | Decimal.D5 d' => 53%N :: digitsOf d'
  | Decimal.D6 d' => 54%N :: digitsOf d'
  | Decimal.D7 d' => 55%N :: digitsOf d'
  | Decimal.D8 d' => 56%N :: digitsOf d'
  | Decimal.D9 d' => 57%N :: digitsOf d'
  end.

End JSONText.

(* ================================================================== *)
(** ** Further concrete inputs                                         *)
(* ================================================================== *)

Module MoreExamples.
Import JS Parser StateManager Effects Exporter Scraper Props MoreProps Examples.

(** A chat whose fetch is rejected. *)
Definition brokenChat : Chat :=
  {| chat_id_serialized := str "120363401113878063@g.us";
     chat_name := str "N12";
     fetchMessages := fun _ => Throw (str "Evaluation failed: chat not loaded") |}.

(** A state file that cannot be written, beside a writable output file. *)
Definition readOnlyState (t : Z) : World :=
  {| stateDoc := Some (stateAt t); stateWritable := false;
     stateError := str "ENOENT: no such file or directory, mkdir";
     csvFile := Some oldRows; csvWritable := true;
     csvFailure := noPermission; argumentsLimit := nodeArguments |}.

(** A disk that fills up while the output file is written: the write is
    rejected after a part of the first line. *)
Definition fullDisk (t : Z) : World :=
  {| stateDoc := Some (stateAt t); stateWritable := true;
     stateError := str "ENOSPC: no space left on device, write";
     csvFile := Some oldRows; csvWritable := false;
     csvFailure :=
       {| failureMessage := str "ENOSPC: no space left on device, write";
          progress := Stopped 0 true |};
     argumentsLimit := nodeArguments |}.

(** A log that takes every line. *)
Definition silentLog : Logged.Log :=
  {| Logged.calls := 0; Logged.failing := fun _ => None |}.

(** A log file that cannot be written. *)
Definition brokenLog : Logged.Log :=
  {| Logged.calls := 0;
     Logged.failing := fun _ => Some (str "EACCES: permission denied, open") |}.

(** A log file that takes every line but the one of call [k], for which
    the disk has no room. *)
Definition failingAt (k : nat) : Logged.Log :=
  {| Logged.calls := 0;
     Logged.failing :=
       fun n =>
         if (n =? k)%nat then Some (str "ENOSPC: no space left on device, write")
         else None |}.

(** An engine that takes at most two arguments in a call. *)
Definition smallEngine (t : Z) : World :=
  {| stateDoc := Some (stateAt t); stateWritable := true;
     stateError := str "EACCES: permission denied";
     csvFile := Some oldRows; csvWritable := true;
     csvFailure := noPermission; argumentsLimit := 2 |}.

(** Calls of [fetchMessages] that settle to two full batches and then to a
    short one. *)
Definition twoFullBatches (call : nat) : Result (list RawMessage) :=
  Ok (if (call <? 2)%nat then recent 100 history150 else scenario3).

End MoreExamples.

(* ================================================================== *)
(** ** The batched first run of the second [scrapeMessages]            *)
(* ================================================================== *)

Module Backfill.
Import JS Effects Scraper.

(** [batchSize] *)
Definition batchSize : nat := 100.

(** The loop [while (hasMore)] of the first run.  [fetch k] is what the
    call number [k] of [chat.fetchMessages({ limit: batchSize })] settles
    to; the loop holds [allMessages] and [batchCount].  It ends with the
    messages gathered and the number of calls made, or with the rejection
    of a call; [None] is a budget of iterations used up. *)
Fixpoint fetchAllBatches (fuel : nat) (fetch : nat -> Result (list RawMessage))
    (batchCount : nat) (allMessages : list RawMessage)
    : option (Result (list RawMessage * nat)) :=
  match fuel with
  | O => None
  | S fuel' =>
      match fetch batchCount with
      | Throw e => Some (Throw e)
      | Ok batch =>
          if (List.length batch =? 0)%nat then
            Some (Ok (allMessages, S batchCount))
          else if (List.length batch <? batchSize)%nat then
            Some (Ok (allMessages ++ batch, S batchCount))
          else fetchAllBatches fuel' fetch (S batchCount) (allMessages ++ batch)
      end
  end.

(** The messages of the calls [0 .. k-1], in the order they were fetched. *)
Definition gathered (fetch : nat -> Result (list RawMessage)) (k : nat)
    : list RawMessage :=
  flat_map (fun i => match fetch i with
                     | Ok batch => batch
                     | Throw _ => []
                     end) (seq 0 k).

(** A call that settles to a full batch: the loop goes on after it. *)
Definition fullBatch (r : Result (list RawMessage)) : Prop :=
  match r with
  | Ok batch => (batchSize <= List.length batch)%nat
  | Throw _ => False
  end.

(** A call that settles to an empty or a short batch: the loop ends. *)
Definition lastBatch (r : Result (list RawMessage)) : Prop :=
  match r with
  | Ok batch => (List.length batch < batchSize)%nat
  | Throw _ => False
  end.

(** The calls of a chat that answers the same way every time. *)
Definition callsOf (chat : Chat) : nat -> Result (list RawMessage) :=
  fun _ => fetchMessages chat (Limit_ batchSize).

End Backfill.

(* ================================================================== *)
(** ** The client: [connectWithRetry] and its configuration            *)
(* ================================================================== *)

Module Client.
Import JS Effects.

(** What [parseInt] returns. *)
Inductive ParsedInt :=
| PNaN
| PInt (z : Z).

(** [parseInt(process.env.MAX_RETRIES) || 3]: NaN and 0 are falsy. *)
Definition maxRetriesOf (parsed : ParsedInt) : Z :=
  match parsed with
  | PNaN => 3
  | PInt z => if z =? 0 then 3 else z
  end.

(** What [connectWithRetry] does that can be seen from outside. *)
Inductive Event :=
| Attempt (attempt : Z)
| Sleep (ms : Z).

(** The loop [for (let attempt = 1; attempt <= maxRetries; attempt++)].
    [initialize k] is what the promise of attempt [k] settles to, a
    rejection with its [error.message]. *)
Fixpoint connectLoop (fuel : nat) (maxRetries retryDelay : Z)
    (initialize : Z -> Result unit) (attempt : Z)
    : option (list Event * Result unit) :=
  match fuel with
  | O => None
  | S fuel' =>
      if attempt <=? maxRetries then
        match initialize attempt with
        | Ok _ => Some ([Attempt attempt], Ok tt)
        | Throw message =>
            if attempt <? maxRetries then
              match connectLoop fuel' maxRetries retryDelay initialize (attempt + 1) with
              | Some (events, r) =>
                  Some (Attempt attempt :: Sleep retryDelay :: events, r)
              | None => None
              end
            else
              Some ([Attempt attempt],
                    Throw (str "Failed to connect after " ++ String_of_Z maxRetries
                           ++ str " attempts: " ++ message))
        end
      else Some ([], Ok tt)
  end.

(** [connectWithRetry(client)]: the loop from attempt 1, with one
    iteration more than it can use. *)
Definition connectWithRetry (maxRetries retryDelay : Z)
    (initialize : Z -> Result unit) : option (list Event * Result unit) :=
  connectLoop (S (Z.to_nat maxRetries)) maxRetries retryDelay initialize 1.

(** [count] failed attempts from attempt [first] on, each followed by its
    pause. *)
Fixpoint failedAttempts (retryDelay : Z) (first : Z) (count : nat) : list Event :=
  match count with
  | O => []
  | S count' =>
      Attempt first :: Sleep retryDelay :: failedAttempts retryDelay (first + 1) count'
  end.

Definition isAttempt (e : Event) : bool :=
  match e with
  | Attempt _ => true
  | Sleep _ => false
  end.

(** The attempts and the pauses among the events. *)
Definition attemptsIn (events : list Event) : nat :=
  List.length (filter isAttempt events).
Definition sleepsIn (events : list Event) : nat :=
  List.length (filter (fun e => negb (isAttempt e)) events).

(** Attempt [k] fails. *)
Definition fails (initialize : Z -> Result unit) (k : Z) : Prop :=
  match initialize k with
  | Ok _ => False
  | Throw _ => True
  end.

(** The message of the rejection of attempt [k]. *)
Definition messageOf (initialize : Z -> Result unit) (k : Z) : jsstring :=
  match initialize k with
  | Ok _ => []
  | Throw message => message
  end.

End Client.

(* ================================================================== *)
(** ** The calendar of [Date]                                          *)
(* ================================================================== *)

Module JSDateFacts.
Import JSDate.

Lemma DayFromYear_step y : DayFromYear (y + 1) = DayFromYear y + DaysInYear y.
Proof.
  unfold DayFromYear, DaysInYear.
  destruct (Z.eqb_spec (y mod 4) 0) as [H4|H4];
  destruct (Z.eqb_spec (y mod 100) 0) as [H100|H100];
  destruct (Z.eqb_spec (y mod 400) 0) as [H400|H400];
  simpl negb; cbv iota; Z.div_mod_to_equations; lia.
Qed.

Lemma DaysInYear_bounds y : 365 <= DaysInYear y <= 366.
Proof.
  unfold DaysInYear.
  destruct (negb (y mod 4 =? 0)), (negb (y mod 100 =? 0)),
           (negb (y mod 400 =? 0)); lia.
Qed.

Lemma DayFromYear_increasing y y' : y < y' -> DayFromYear y < DayFromYear y'.
Proof.
  intros H. unfold DayFromYear. Z.div_mod_to_equations. lia.
Qed.

(** [YearFromDay] is the YearFromTime of the standard: the year that
    starts on or before day [d] while the next one starts after it. *)
Lemma YearFromDay_spec d :
  DayFromYear (YearFromDay d) <= d < DayFromYear (YearFromDay d + 1).
Proof.
  unfold YearFromDay. cbv zeta.
  destruct (Z.ltb_spec d (DayFromYear (1970 + 400 * d / 146097))) as [H1|H1].
  - split; [|replace (1970 + 400 * d / 146097 - 1 + 1)
               with (1970 + 400 * d / 146097) by lia; exact H1].
    unfold DayFromYear in *. Z.div_mod_to_equations. lia.
  - destruct (Z.leb_spec (DayFromYear (1970 + 400 * d / 146097 + 1)) d) as [H2|H2].
    + split; [exact H2|].
      unfold DayFromYear in *. Z.div_mod_to_equations. lia.
    + split; assumption.
Qed.

Lemma YearFromDay_largest d y : DayFromYear y <= d -> y <= YearFromDay d.
Proof.
  intros H. destruct (Z.le_gt_cases y (YearFromDay d)) as [K|K]; [exact K|].
  pose proof (YearFromDay_spec d) as [_ S].
  assert (DayFromYear (YearFromDay d + 1) <= DayFromYear y).
  { destruct (Z.eq_dec (YearFromDay d + 1) y) as [->|N]; [lia|].
    apply Z.lt_le_incl, DayFromYear_increasing. lia. }
  lia.
Qed.

(** The day of the month is between 1 and 31 and the month between 0 and
    11. *)
Lemma MonthFromTime_range t : 0 <= MonthFromTime t <= 11.
Proof.
  unfold MonthFromTime. cbv zeta.
  repeat match goal with
         | |- context [if ?b then _ else _] => destruct b
         end; lia.
Qed.

Lemma DayWithinYear_range t :
  0 <= DayWithinYear t < DaysInYear (YearFromTime t).
Proof.
  unfold DayWithinYear, YearFromTime.
  pose proof (YearFromDay_spec (Day t)) as [H1 H2].
  rewrite DayFromYear_step in H2. lia.
Qed.

Lemma DateFromTime_range t : 1 <= DateFromTime t <= 31.
Proof.
  pose proof (DayWithinYear_range t) as Hd.
  unfold DateFromTime, MonthFromTime, InLeapYear. cbv zeta.
  destruct (Z.eqb_spec (DaysInYear (YearFromTime t)) 366) as [E|E].
  - rewrite E in Hd.
    repeat match goal with
           | |- context [if ?a <? ?b then _ else _] =>
               destruct (Z.ltb_spec a b)
           end; lia.
  - pose proof (DaysInYear_bounds (YearFromTime t)).
    repeat match goal with
           | |- context [if ?a <? ?b then _ else _] =>
               destruct (Z.ltb_spec a b)
           end; lia.
Qed.

End JSDateFacts.

(* ================================================================== *)
(** ** Properties of the string built-ins                              *)
(* ================================================================== *)

Module JSFacts.
Import JS Props.

Lemma stripPrefix_app pat : forall s r,
  stripPrefix pat s = Some r -> s = pat ++ r.
Proof.
  induction pat as [|p pat IH]; intros s r H; simpl in H.
  - now inversion H.
  - destruct s as [|c s]; [discriminate|].
    destruct (N.eqb_spec p c) as [->|]; [|discriminate].
    simpl. f_equal. now apply IH.
Qed.

Lemma takeNonSpace_app s :
  exists rest, s = takeNonSpace s ++ rest.
Proof.
  induction s as [|c s [rest IH]]; simpl.
  - now exists [].
  - destruct (isWhiteSpace c).
    + now exists (c :: s).
    + exists rest. simpl. now f_equal.
Qed.

Lemma takeNonSpace_noSpace s :
  Forall (fun c => isWhiteSpace c = false) (takeNonSpace s).
Proof.
  induction s as [|c s IH]; simpl; [constructor|].
  destruct (isWhiteSpace c) eqn:E; constructor; assumption.
Qed.

(** A match of the link pattern is a non-empty prefix of the text it is
    anchored at and holds no white space. *)
Lemma linkAt_prefix s u :
  linkAt s = Some u ->
  u <> [] /\ (exists rest, s = u ++ rest)
  /\ Forall (fun c => isWhiteSpace c = false) u.
Proof.
  unfold linkAt.
  assert (attempt : forall scheme rest v,
    Forall (fun c => isWhiteSpace c = false) scheme ->
    match stripPrefix (str "://") rest with
    | Some body =>
        match takeNonSpace body with
        | [] => None
        | c :: run => Some (scheme ++ str "://" ++ c :: run)
        end
    | None => None
    end = Some v ->
    v <> [] /\ (exists rest', scheme ++ rest = v ++ rest')
    /\ Forall (fun c => isWhiteSpace c = false) v).
  { intros scheme rest v Hs H.
    destruct (stripPrefix (str "://") rest) as [body|] eqn:E; [|discriminate].
    apply stripPrefix_app in E. subst rest.
    pose proof (takeNonSpace_noSpace body) as Hns.
    destruct (takeNonSpace_app body) as [rest' Hb].
    destruct (takeNonSpace body) as [|c run]; [discriminate|].
    inversion H; subst v; clear H. split; [|split].
    - intro K. apply app_eq_nil in K. destruct K as [_ K]. discriminate.
    - exists rest'. rewrite Hb at 1. now rewrite <- !app_assoc.
    - apply Forall_app. split; [assumption|].
      simpl. repeat (constructor; [reflexivity|]). assumption. }
  destruct (stripPrefix (str "http") s) as [r|] eqn:E; [|discriminate].
  apply stripPrefix_app in E. subst s.
  assert (Hhttp : Forall (fun c => isWhiteSpace c = false) (str "http"))
    by (repeat constructor).
  assert (Hhttps : Forall (fun c => isWhiteSpace c = false) (str "https"))
    by (repeat constructor).
  destruct r as [|c r'].
  - intro H. now apply (attempt (str "http") [] u Hhttp) in H.
  - destruct (N.eqb_spec c 115) as [->|_].
    + destruct (stripPrefix (str "://") r') as [body|] eqn:E1.
      * destruct (takeNonSpace body) as [|c run] eqn:E2.
        -- intro H. now apply (attempt (str "http") (115%N :: r') u Hhttp) in H.
        -- intro H.
           assert (K := attempt (str "https") r' u Hhttps).
           rewrite E1, E2 in K. specialize (K H).
           destruct K as (K1 & [rest' K2] & K3). split; [exact K1|].
           split; [|exact K3]. exists rest'. exact K2.
      * intro H. now apply (attempt (str "http") (115%N :: r') u Hhttp) in H.
    + intro H. now apply (attempt (str "http") (c :: r') u Hhttp) in H.
Qed.

Lemma isSubstring_cons u c s : isSubstring u s -> isSubstring u (c :: s).
Proof. intros (pre & post & ->). now exists (c :: pre), post. Qed.

Lemma matchLinks_from_substring s : forall skip u,
  In u (matchLinks_from skip s) ->
  u <> [] /\ isSubstring u s /\ Forall (fun c => isWhiteSpace c = false) u.
Proof.
  induction s as [|c s IH]; intros skip u H; simpl in H; [contradiction|].
  destruct skip as [|k].
  - destruct (linkAt (c :: s)) as [v|] eqn:E.
    + destruct H as [->|H].
      * apply linkAt_prefix in E. destruct E as (E1 & [rest E2] & E3).
        split; [exact E1|]. split; [|exact E3].
        exists [], rest. exact E2.
      * apply IH in H. destruct H as (H1 & H2 & H3).
        auto using isSubstring_cons.
    + apply IH in H. destruct H as (H1 & H2 & H3).
      auto using isSubstring_cons.
  - apply IH in H. destruct H as (H1 & H2 & H3).
    auto using isSubstring_cons.
Qed.

Lemma trimStart_suffix s : exists pre, s = pre ++ trimStart s.
Proof.
  induction s as [|c s [pre IH]]; simpl.
  - now exists [].
  - destruct (isWhiteSpace c).
    + exists (c :: pre). simpl. now f_equal.
    + now exists [].
Qed.

Lemma trimEnd_prefix s : exists post, s = trimEnd s ++ post.
Proof.
  unfold trimEnd. destruct (trimStart_suffix (rev s)) as [pre H].
  exists (rev pre). rewrite <- rev_app_distr, <- H. now rewrite rev_involutive.
Qed.

Lemma isSubstring_trim u s : isSubstring u (trim s) -> isSubstring u s.
Proof.
  unfold trim. intros (pre & post & H).
  destruct (trimStart_suffix s) as [a Ha].
  destruct (trimEnd_prefix (trimStart s)) as [b Hb].
  exists (a ++ pre), (post ++ b).
  rewrite Ha at 1. rewrite Hb, H. now rewrite <- !app_assoc.
Qed.

(** A run without the separator that lies in [a ++ c :: b] lies in [a] or
    in [b]. *)
Lemma isSubstring_split u a c b :
  ~ In c u -> isSubstring u (a ++ c :: b) ->
  isSubstring u a \/ isSubstring u b.
Proof.
  intros Hc (pre & post & H).
  apply app_eq_app in H. destruct H as [l [[H1 H2]|[H1 H2]]].
  - (* a = pre ++ l, u ++ post = l ++ c :: b *)
    symmetry in H2. apply app_eq_app in H2.
    destruct H2 as [m [[H3 H4]|[H3 H4]]].
    + (* l = u ++ m *) left. exists pre, m. now rewrite H1, H3.
    + (* u = l ++ m, c :: b = m ++ post *)
      destruct m as [|x m].
      * left. exists pre, []. rewrite H1, H3. now rewrite !app_nil_r.
      * simpl in H4. inversion H4; subst x. exfalso. apply Hc.
        rewrite H3. apply in_or_app. right. now left.
  - (* pre = a ++ l, c :: b = l ++ u ++ post *)
    destruct l as [|x l].
    + simpl in H2. destruct u as [|y u].
      * left. exists a, []. now rewrite app_nil_r.
      * inversion H2; subst y. exfalso. apply Hc. now left.
    + simpl in H2. inversion H2; subst x. right. now exists l, post.
Qed.

Lemma isSubstring_join u : forall ls,
  u <> [] -> ~ In LF u -> isSubstring u (join [LF] ls) ->
  exists l, In l ls /\ isSubstring u l.
Proof.
  induction ls as [|l ls IH]; intros Hne Hlf H.
  - destruct H as (pre & post & H). simpl in H.
    symmetry in H. apply app_eq_nil in H. destruct H as [_ H].
    apply app_eq_nil in H. destruct H as [H _]. contradiction.
  - destruct ls as [|l' ls'].
    + simpl in H. exists l. split; [now left|assumption].
    + change (join [LF] (l :: l' :: ls')) with (l ++ LF :: join [LF] (l' :: ls')) in H.
      apply isSubstring_split in H; [|assumption].
      destruct H as [H|H].
      * exists l. split; [now left|assumption].
      * destruct (IH Hne Hlf H) as (x & Hx1 & Hx2).
        exists x. split; [now right|assumption].
Qed.

Lemma canonicalize_sameLetter p c :
  (canonicalize p =? canonicalize c)%N = true <-> sameLetter p c.
Proof.
  unfold canonicalize, sameLetter. rewrite N.eqb_eq.
  destruct (N.leb_spec 97 p), (N.leb_spec p 122),
           (N.leb_spec 97 c), (N.leb_spec c 122); simpl; lia.
Qed.

Lemma startsWith_ci_spec pat : forall s,
  startsWith_ci pat s = true <->
  exists w rest, s = w ++ rest /\ Forall2 sameLetter pat w.
Proof.
  induction pat as [|p pat IH]; intros s; simpl.
  - split; [|reflexivity]. intros _. exists [], s. split; [reflexivity|constructor].
  - destruct s as [|c s].
    + split; [discriminate|]. intros (w & rest & H & F).
      inversion F; subst. discriminate.
    + rewrite andb_true_iff, canonicalize_sameLetter, IH. split.
      * intros (H & w & rest & -> & F). exists (c :: w), rest.
        split; [reflexivity|now constructor].
      * intros (w & rest & H & F). inversion F as [|p' c' pat' w' Hpc F']; subst.
        simpl in H. inversion H; subst. split; [assumption|].
        now exists w', rest.
Qed.

Lemma test_alternatives_ci_spec alts : forall s,
  test_alternatives_ci alts s = true <->
  exists word, In word alts /\ containsIgnoringCase word s.
Proof.
  induction s as [|c s IH].
  - simpl. rewrite orb_false_r, existsb_exists. split.
    + intros (word & Hin & H). apply startsWith_ci_spec in H.
      destruct H as (w & rest & H & F).
      exists word. split; [assumption|]. now exists [], w, rest.
    + intros (word & Hin & pre & w & post & H & F).
      exists word. split; [assumption|]. apply startsWith_ci_spec.
      destruct pre; [|discriminate]. now exists w, post.
  - simpl. rewrite orb_true_iff, existsb_exists, IH. split.
    + intros [(word & Hin & H)|(word & Hin & pre & w & post & H & F)].
      * apply startsWith_ci_spec in H. destruct H as (w & rest & H & F).
        exists word. split; [assumption|]. now exists [], w, rest.
      * exists word. split; [assumption|].
        exists (c :: pre), w, post. split; [now rewrite H|assumption].
    + intros (word & Hin & pre & w & post & H & F).
      destruct pre as [|x pre].
      * left. exists word. split; [assumption|].
        apply startsWith_ci_spec. now exists w, post.
      * right. exists word. split; [assumption|].
        simpl in H. inversion H; subst. now exists pre, w, post.
Qed.

End JSFacts.

(* ================================================================== *)
(** ** The parser                                                      *)
(* ================================================================== *)

Module ParserFacts.
Import JS Parser Props Examples JSFacts.

Lemma nonBlankLines_blank s : trim s = [] -> nonBlankLines s = [].
Proof. intros H. unfold nonBlankLines. rewrite H. reflexivity. Qed.


(** C7 as the spec words it: the expected time of day is 12:00, which the
    code does not produce. *)
Lemma C7_time_is_not_noon :
  ~ (let r := parseMessage (VString scenario1) 1707580800 false in
     reporter r = str "Reporter Name"
     /\ content r = str "line one" ++ [LF] ++ str "https://a.test/x line two"
     /\ date r = str "10/02/2024"
     /\ time r = str "12:00"
     /\ links r = [str "https://a.test/x"]).
Proof.
  intros (_ & _ & _ & H & _). vm_compute in H. discriminate.
Qed.

(** C7, amended: on the three-line text with timestamp 1707580800, which is
    2024-02-10T16:00:00Z, [parseMessage] returns the reporter, the two
    content lines joined by a newline, the date 10/02/2024, the time 16:00
    (UTC, zero-padded) and the one link. *)
Theorem C7_parseMessage_scenario :
  let r := parseMessage (VString scenario1) 1707580800 false in
  reporter r = str "Reporter Name"
  /\ content r = str "line one" ++ [LF] ++ str "https://a.test/x line two"
  /\ date r = str "10/02/2024"
  /\ time r = str "16:00"
  /\ links r = [str "https://a.test/x"]
  /\ hasMedia r = false.
Proof. vm_compute. repeat split; reflexivity. Qed.



(** The expectations of the repository's parser tests: each of the three
    source tags is removed, and dates and times are padded. *)
Example source_tags_filtered :
  content (parseMessage (VString (reporter1 ++ [LF] ++ contentLine ++ [LF] ++ groupTag))
             1707598800 false) = contentLine
  /\ content (parseMessage (VString (reporter1 ++ [LF] ++ contentLine ++ [LF]
                                     ++ str "chat reporters"))
                1707598800 false) = contentLine
  /\ content (parseMessage (VString (reporter1 ++ [LF] ++ contentLine ++ [LF] ++ chatTag))
                1707598800 false) = contentLine
  /\ reporter (parseMessage (VString (reporter1 ++ [LF] ++ contentLine ++ [LF] ++ chatTag))
                 1707598800 false) = reporter1.
Proof. vm_compute. repeat split; reflexivity. Qed.

Example dates_and_times_formatted :
  formatDate 1707575400 = str "10/02/2024"
  /\ formatDate 1735114530 = str "25/12/2024"
  /\ formatDate 1704442530 = str "05/01/2024"
  /\ formatTime 1707575400 = str "14:30"
  /\ formatTime 1707552300 = str "08:05"
  /\ formatTime 1707534420 = str "03:07".
Proof. vm_compute. repeat split; reflexivity. Qed.

(** On that text: the tagged first line is the reporter, the tagged second
    line and its link are gone. *)
Example taggedText_parsed :
  let r := parseMessage (VString taggedText) 0 false in
  reporter r = str "Chat desk"
  /\ content r = str "real news https://b.test/y"
  /\ links r = [str "https://b.test/y"].
Proof. vm_compute. repeat split; reflexivity. Qed.

End ParserFacts.

(* ================================================================== *)
(** ** The scraping cycle                                              *)
(* ================================================================== *)

Module ScraperFacts.
Import JS Parser StateManager Effects Exporter Scraper Props Examples.

Lemma parseStep_parsed acc msg :
  parsedMessages (parseStep acc msg) =
  parsedMessages acc
  ++ (if skipped msg then []
      else [withSender (parseMessage (body msg) (timestamp msg)
                          (msg_hasMedia msg || false)) (senderOf msg)]).
Proof.
  unfold parseStep. destruct (skipped msg); simpl.
  - now rewrite app_nil_r.
  - reflexivity.
Qed.

Lemma fold_parseStep_parsed msgs : forall acc,
  parsedMessages (fold_left parseStep msgs acc) =
  parsedMessages acc ++ parsedMessages (fold_left parseStep msgs
    {| parsedMessages := []; skippedCount := 0; errorCount := 0 |}).
Proof.
  induction msgs as [|msg msgs IH]; intros acc; simpl.
  - now rewrite app_nil_r.
  - rewrite IH. rewrite (IH (parseStep _ msg)).
    rewrite !parseStep_parsed. simpl. now rewrite app_assoc.
Qed.

Lemma parseEach_cons msg msgs :
  parsedMessages (parseEach (msg :: msgs)) =
  (if skipped msg then []
   else [withSender (parseMessage (body msg) (timestamp msg)
                       (msg_hasMedia msg || false)) (senderOf msg)])
  ++ parsedMessages (parseEach msgs).
Proof.
  unfold parseEach. simpl. rewrite fold_parseStep_parsed.
  now rewrite parseStep_parsed.
Qed.

(** A batch is empty exactly when every message of the cycle is skipped. *)
Lemma parseEach_nil_iff msgs :
  parsedMessages (parseEach msgs) = [] <->
  Forall (fun msg => skipped msg = true) msgs.
Proof.
  induction msgs as [|msg msgs IH].
  - split; [constructor|reflexivity].
  - rewrite parseEach_cons. split.
    + intros H. apply app_eq_nil in H. destruct H as [H1 H2].
      constructor; [|now apply IH].
      destruct (skipped msg); [reflexivity|discriminate].
    + intros H. inversion H as [|? ? Hs Hr]; subst.
      rewrite Hs. simpl. now apply IH.
Qed.

Lemma parseEach_length msgs :
  (List.length (parsedMessages (parseEach msgs)) <= List.length msgs)%nat.
Proof.
  induction msgs as [|msg msgs IH]; [apply Nat.le_refl|].
  rewrite parseEach_cons, length_app.
  destruct (skipped msg); simpl; lia.
Qed.

(** What [scrapeMessages] does, case by case. *)
Lemma scrapeMessages_spec chat isFirstRun w :
  scrapeMessages chat isFirstRun w =
  match fetchedFor chat isFirstRun (currentState w) with
  | Throw e => (w, Throw e)
  | Ok fetched =>
      match parsedMessages (parseEach fetched) with
      | [] => (w, Ok [])
      | p :: ps =>
          if Z.of_nat (List.length fetched) <=? argumentsLimit w then
            if stateWritable w then
              (withState w (merge (currentState w)
                              (updatesOf chat (currentState w) fetched (p :: ps))),
               Ok (p :: ps))
            else
              (w, Throw (str "Failed to update state: "
                         ++ str "Failed to save state: " ++ stateError w))
          else (w, Throw (str "Maximum call stack size exceeded"))
      end
  end.
Proof.
  unfold scrapeMessages, fetchedFor, bind, tryCatch, loadState, lift, ret, throw.
  fold (currentState w).
  destruct (isFirstRun || isZero (lastProcessedTimestamp (currentState w))).
  - destruct (fetchMessages chat Infinity) as [fetched|e]; [|reflexivity].
    destruct (parsedMessages (parseEach fetched)) as [|p ps] eqn:E; [reflexivity|].
    cbn [List.length Nat.ltb Nat.leb].
    unfold Math_max_spread. rewrite length_map.
    destruct (Z.of_nat (List.length fetched) <=? argumentsLimit w); [|reflexivity].
    unfold updateState, saveState, writeStateFile, bind, tryCatch, loadState, throw.
    fold (currentState w). unfold withState, updatesOf.
    destruct (stateWritable w); reflexivity.
  - destruct (fetchMessages chat (Limit_ 100)) as [fetched|e]; [|reflexivity].
    destruct (parsedMessages (parseEach (filter _ fetched))) as [|p ps] eqn:E;
      [reflexivity|].
    cbn [List.length Nat.ltb Nat.leb].
    unfold Math_max_spread. rewrite length_map.
    destruct (Z.of_nat (List.length (filter _ fetched)) <=? argumentsLimit w);
      [|reflexivity].
    unfold updateState, saveState, writeStateFile, bind, tryCatch, loadState, throw.
    fold (currentState w). unfold withState, updatesOf.
    destruct (stateWritable w); reflexivity.
Qed.

(** What [scrape] does after [scrapeMessages] has settled. *)
Lemma scrape_spec chat w :
  scrape chat w =
  let first := isZero (lastProcessedTimestamp (currentState w)) in
  match scrapeMessages chat first w with
  | (w1, Throw e) =>
      (w1, Ok {| success := false; messagesProcessed := 0; isFirstRun := None;
                 outputFile := None; error := Some e;
                 message := str "Scrape workflow failed" |})
  | (w1, Ok []) =>
      (w1, Ok {| success := true; messagesProcessed := 0;
                 isFirstRun := Some first;
                 outputFile := Some config_paths_output; error := None;
                 message := str "No new messages found" |})
  | (w1, Ok (m :: ms)) =>
      match exportToCSV (m :: ms) (negb first) w1 with
      | (w2, Ok _) =>
          (w2, Ok {| success := true;
                     messagesProcessed := List.length (m :: ms);
                     isFirstRun := Some first;
                     outputFile := Some config_paths_output; error := None;
                     message := str "Successfully processed "
                                  ++ countText (List.length (m :: ms))
                                  ++ str " messages" |})
      | (w2, Throw e) =>
          (w2, Ok {| success := false; messagesProcessed := 0;
                     isFirstRun := None; outputFile := None; error := Some e;
                     message := str "Scrape workflow failed" |})
      end
  end.
Proof.
  unfold scrape, bind, tryCatch, loadState, ret. fold (currentState w).
  cbv zeta.
  destruct (scrapeMessages chat _ w) as [w1 [msgs|e]]; [|reflexivity].
  destruct msgs as [|m ms]; [reflexivity|].
  cbn [List.length Nat.eqb].
  destruct (exportToCSV (m :: ms) _ w1) as [w2 [[]|e]]; reflexivity.
Qed.

(** The boundary: [scrape] settles with a summary, it never throws. *)
Lemma scrape_never_throws chat w : exists s, snd (scrape chat w) = Ok s.
Proof.
  rewrite scrape_spec. cbv zeta.
  destruct (scrapeMessages chat _ w) as [w1 [[|m ms]|e]]; simpl; eauto.
  destruct (exportToCSV (m :: ms) _ w1) as [w2 [[]|e]]; simpl; eauto.
Qed.

(** The text a call of [exportToCSV] is to write, and the rows it is
    written after. *)
Lemma exportToCSV_spec messages append w :
  exportToCSV messages append w =
  let before :=
    if append && existsSync w then
      match csvFile w with Some rows => rows | None => [] end
    else [] in
  let text :=
    (if append && existsSync w then [] else [HeaderRow headerTitles])
    ++ recordLines (map toRecord messages) in
  if csvWritable w then (setCsvFile w (Some (before ++ text)), Ok tt)
  else
    match progress (csvFailure w) with
    | NotOpened => (w, Throw (failureMessage (csvFailure w)))
    | Stopped lines fragment =>
        (setCsvFile w (Some (before ++ writtenPart lines fragment text)),
         Throw (failureMessage (csvFailure w)))
    end.
Proof. reflexivity. Qed.

(** Whatever the export does, it rejects with the message of the failure
    or not at all, and leaves the state file, the faults and the limit of
    the world alone. *)
Lemma exportToCSV_outcome messages append w :
  (csvWritable w = true /\ snd (exportToCSV messages append w) = Ok tt)
  \/ (csvWritable w = false
      /\ snd (exportToCSV messages append w) = Throw (failureMessage (csvFailure w))).
Proof.
  rewrite exportToCSV_spec. cbv zeta.
  destruct (csvWritable w); [left; split; reflexivity|right].
  destruct (progress (csvFailure w)); split; reflexivity.
Qed.

Lemma exportToCSV_frame messages append w :
  let w' := fst (exportToCSV messages append w) in
  stateDoc w' = stateDoc w
  /\ stateWritable w' = stateWritable w
  /\ stateError w' = stateError w
  /\ csvWritable w' = csvWritable w
  /\ csvFailure w' = csvFailure w
  /\ argumentsLimit w' = argumentsLimit w.
Proof.
  rewrite exportToCSV_spec. cbv zeta.
  destruct (csvWritable w) eqn:E; [cbn; rewrite ?E; repeat split|].
  destruct (progress (csvFailure w)); cbn; rewrite ?E; repeat split.
Qed.

(** What [updateState] does. *)
Lemma updateState_spec updates w :
  updateState updates w =
  if stateWritable w then (withState w (merge (currentState w) updates), Ok tt)
  else (w, Throw (str "Failed to update state: "
                  ++ str "Failed to save state: " ++ stateError w)).
Proof.
  unfold updateState, saveState, writeStateFile, bind, tryCatch, loadState,
    throw, withState.
  fold (currentState w). destruct (stateWritable w); reflexivity.
Qed.

End ScraperFacts.

(* ================================================================== *)
(** ** The scraper and its logger                                      *)
(* ================================================================== *)

Module LoggedFacts.
Import JS Parser StateManager Effects Exporter Scraper Props Examples ScraperFacts.

Lemma after_after n m l : Logged.after n (Logged.after m l) = Logged.after (n + m) l.
Proof. unfold Logged.after. cbn [Logged.calls Logged.failing]. f_equal. lia. Qed.

(** With a log that takes every line, [scrapeMessages] does what it does
    without its logger. *)
Lemma scrapeMessages_quiet chat first l w :
  Logged.quiet l ->
  exists n,
    Logged.scrapeMessages chat first l w
    = ((Logged.after n l, fst (scrapeMessages chat first w)),
       snd (scrapeMessages chat first w)).
Proof.
  intros Hq. rewrite scrapeMessages_spec. unfold fetchedFor.
  unfold Logged.scrapeMessages, Logged.bindL, Logged.tryCatchL, Logged.quietly,
    Logged.logger_info, Logged.logger_success, Logged.logger_error,
    Logged.logger_write, Logged.retL, Logged.throwL, loadState, lift.
  fold (currentState w).
  destruct (first || isZero (lastProcessedTimestamp (currentState w))).
  - rewrite Hq. destruct (fetchMessages chat Infinity) as [fetched|e].
    + repeat (cbn [Logged.calls Logged.failing]; rewrite Hq).
      destruct (parsedMessages (parseEach fetched)) as [|p ps] eqn:Ep.
      * exists 3%nat. reflexivity.
      * cbn [List.length Nat.ltb Nat.leb]. unfold Math_max_spread.
        rewrite length_map.
        destruct (Z.of_nat (List.length fetched) <=? argumentsLimit w).
        -- rewrite updateState_spec. unfold updatesOf.
           destruct (stateWritable w);
             repeat (cbn [Logged.calls Logged.failing]; rewrite Hq);
             exists 4%nat; reflexivity.
        -- repeat (cbn [Logged.calls Logged.failing]; rewrite Hq).
           exists 4%nat. reflexivity.
    + repeat (cbn [Logged.calls Logged.failing]; rewrite Hq).
      exists 2%nat. reflexivity.
  - rewrite Hq. destruct (fetchMessages chat (Limit_ 100)) as [fetched|e].
    + repeat (cbn [Logged.calls Logged.failing]; rewrite Hq).
      destruct (parsedMessages (parseEach (filter _ fetched))) as [|p ps] eqn:Ep.
      * exists 3%nat. reflexivity.
      * cbn [List.length Nat.ltb Nat.leb]. unfold Math_max_spread.
        rewrite length_map.
        destruct (Z.of_nat (List.length (filter _ fetched)) <=? argumentsLimit w).
        -- rewrite updateState_spec. unfold updatesOf.
           destruct (stateWritable w);
             repeat (cbn [Logged.calls Logged.failing]; rewrite Hq);
             exists 4%nat; reflexivity.
        -- repeat (cbn [Logged.calls Logged.failing]; rewrite Hq).
           exists 4%nat. reflexivity.
    + repeat (cbn [Logged.calls Logged.failing]; rewrite Hq).
      exists 2%nat. reflexivity.
Qed.

Lemma after_quiet n l : Logged.quiet l -> Logged.quiet (Logged.after n l).
Proof. intros H k. apply H. Qed.

(** With a log that takes every line, [scrape] leaves the files as it
    does without its logger, and settles in the same way. *)
Lemma scrape_quiet chat l w :
  Logged.quiet l ->
  exists n,
    Logged.scrape chat l w
    = ((Logged.after n l, fst (scrape chat w)), snd (scrape chat w)).
Proof.
  intros Hq. rewrite scrape_spec. cbv zeta.
  unfold Logged.scrape, Logged.tryCatchL, Logged.bindL at 1.
  unfold Logged.logger_info at 1, Logged.logger_write at 1. rewrite Hq.
  unfold Logged.bindL at 1, Logged.quietly at 1, loadState.
  fold (currentState w). unfold Logged.bindL at 1.
  destruct (scrapeMessages_quiet chat
              (isZero (lastProcessedTimestamp (currentState w)))
              {| Logged.calls := S (Logged.calls l);
                 Logged.failing := Logged.failing l |} w) as [n Hn].
  { intros k. apply Hq. }
  rewrite Hn. clear Hn. unfold Logged.after.
  assert (K : forall (c1 c2 : nat) (w' : World) (r : Result Summary),
             c1 = c2 ->
             ({| Logged.calls := c1; Logged.failing := Logged.failing l |}, w', r)
             = ({| Logged.calls := c2; Logged.failing := Logged.failing l |}, w', r))
    by (intros; subst; reflexivity).
  destruct (scrapeMessages chat _ w) as [w1 [messages|e]]; cbn [fst snd].
  - destruct messages as [|m ms]; cbn [List.length Nat.eqb].
    + unfold Logged.bindL, Logged.logger_info, Logged.logger_write, Logged.retL.
      repeat (cbn [Logged.calls Logged.failing]; rewrite Hq).
      exists (S (S n)). cbn [Logged.calls Logged.failing]. apply K. lia.
    + unfold Logged.bindL, Logged.logger_info, Logged.logger_success,
        Logged.logger_error, Logged.logger_write, Logged.retL, Logged.quietly.
      repeat (cbn [Logged.calls Logged.failing]; rewrite Hq).
      destruct (exportToCSV (m :: ms) _ w1) as [w2 [[]|e]];
        repeat (cbn [Logged.calls Logged.failing]; rewrite Hq);
        exists (S (S (S n))); cbn [Logged.calls Logged.failing fst snd];
        apply K; lia.
  - unfold Logged.bindL, Logged.logger_error, Logged.logger_write, Logged.retL.
    repeat (cbn [Logged.calls Logged.failing]; rewrite Hq).
    exists (S (S n)). cbn [Logged.calls Logged.failing]. apply K. lia.
Qed.

(** *** Any log *)

Lemma keeps_retL {A} (a : A) : Logged.keeps (Logged.retL a).
Proof. intros l w. reflexivity. Qed.

Lemma keeps_throwL {A} e : Logged.keeps (@Logged.throwL A e).
Proof. intros l w. reflexivity. Qed.

Lemma keeps_quietly {A} (c : M A) : Logged.keeps (Logged.quietly c).
Proof. intros l w. unfold Logged.quietly. destruct (c w). reflexivity. Qed.

Lemma keeps_write : Logged.keeps Logged.logger_write.
Proof.
  intros l w. unfold Logged.logger_write.
  destruct (Logged.failing l (Logged.calls l)); reflexivity.
Qed.

Lemma keeps_bindL {A B} (c : Logged.L A) (k : A -> Logged.L B) :
  Logged.keeps c -> (forall a, Logged.keeps (k a)) ->
  Logged.keeps (Logged.bindL c k).
Proof.
  intros Hc Hk l w. unfold Logged.bindL. specialize (Hc l w).
  destruct (c l w) as [[l' w'] [a|e]]; cbn [fst] in *; [|exact Hc].
  now rewrite (Hk a l' w').
Qed.

Lemma keeps_tryCatchL {A} (c : Logged.L A) (handler : jsstring -> Logged.L A) :
  Logged.keeps c -> (forall e, Logged.keeps (handler e)) ->
  Logged.keeps (Logged.tryCatchL c handler).
Proof.
  intros Hc Hh l w. unfold Logged.tryCatchL. specialize (Hc l w).
  destruct (c l w) as [[l' w'] [a|e]]; cbn [fst] in *; [exact Hc|].
  now rewrite (Hh e l' w').
Qed.

Lemma keeps_scrapeMessages chat first :
  Logged.keeps (Logged.scrapeMessages chat first).
Proof.
  unfold Logged.scrapeMessages, Logged.logger_info, Logged.logger_success,
    Logged.logger_error.
  apply keeps_bindL; [apply keeps_quietly|intros state].
  apply keeps_tryCatchL;
    [|intros e; apply keeps_bindL; [apply keeps_write|intros _; apply keeps_throwL]].
  apply keeps_bindL.
  - destruct (first || isZero (lastProcessedTimestamp state));
      repeat first [ apply keeps_bindL | apply keeps_write | apply keeps_quietly
                   | apply keeps_retL | intros ? ].
  - intros fetched. cbv zeta.
    apply keeps_bindL; [apply keeps_write|intros _].
    apply keeps_bindL; [|intros _; apply keeps_retL].
    destruct (0 <? _)%nat; [|apply keeps_retL].
    repeat first [ apply keeps_bindL | apply keeps_write | apply keeps_quietly
                 | apply keeps_retL | intros ? ].
Qed.

(** Whatever the log does, [scrape] settles with a summary of one of its
    two kinds, or rejects with the error of a write of the log. *)
Lemma scrape_outcomes chat l w :
  match snd (Logged.scrape chat l w) with
  | Ok s =>
      (success s = true
       /\ error s = None
       /\ isFirstRun s = Some (isZero (lastProcessedTimestamp (currentState w)))
       /\ outputFile s = Some config_paths_output)
      \/ (exists e, s = {| success := false; messagesProcessed := 0;
                           isFirstRun := None; outputFile := None;
                           error := Some e;
                           message := str "Scrape workflow failed" |})
  | Throw e => exists n, Logged.failing l n = Some e
  end.
Proof.
  assert (Hcatch : forall e0 l' w',
    Logged.failing l' = Logged.failing l ->
    match snd (Logged.bindL Logged.logger_error
                 (fun _ =>
                    Logged.retL {| success := false; messagesProcessed := 0;
                                   isFirstRun := None; outputFile := None;
                                   error := Some e0;
                                   message := str "Scrape workflow failed" |})
                 l' w') with
    | Ok s =>
        (success s = true
         /\ error s = None
         /\ isFirstRun s = Some (isZero (lastProcessedTimestamp (currentState w)))
         /\ outputFile s = Some config_paths_output)
        \/ (exists e, s = {| success := false; messagesProcessed := 0;
                             isFirstRun := None; outputFile := None;
                             error := Some e;
                             message := str "Scrape workflow failed" |})
    | Throw e => exists n, Logged.failing l n = Some e
    end).
  { intros e0 l' w' Hf.
    unfold Logged.bindL, Logged.logger_error, Logged.logger_write, Logged.retL.
    destruct (Logged.failing l' (Logged.calls l')) as [e|] eqn:E; cbn [snd].
    - exists (Logged.calls l'). now rewrite <- Hf.
    - right. eauto. }
  unfold Logged.scrape, Logged.tryCatchL.
  unfold Logged.bindL at 1. unfold Logged.logger_info at 1, Logged.logger_write at 1.
  destruct (Logged.failing l (Logged.calls l)) as [e|] eqn:E1.
  { apply Hcatch. reflexivity. }
  unfold Logged.bindL at 1, Logged.quietly at 1, loadState.
  fold (currentState w). unfold Logged.bindL at 1.
  pose proof (keeps_scrapeMessages chat
                (isZero (lastProcessedTimestamp (currentState w)))
                {| Logged.calls := S (Logged.calls l);
                   Logged.failing := Logged.failing l |} w) as Hk.
  destruct (Logged.scrapeMessages chat _ _ w) as [[l1 w1] [messages|e]];
    cbn [fst Logged.failing] in Hk; [|now apply Hcatch].
  destruct messages as [|m ms]; cbn [List.length Nat.eqb].
  - unfold Logged.bindL, Logged.logger_info, Logged.logger_write, Logged.retL.
    destruct (Logged.failing l1 (Logged.calls l1)) as [e|] eqn:E2.
    + apply Hcatch. exact Hk.
    + cbn [snd]. left. repeat split.
  - unfold Logged.bindL at 1. unfold Logged.logger_info at 1, Logged.logger_write at 1.
    destruct (Logged.failing l1 (Logged.calls l1)) as [e|] eqn:E2;
      [apply Hcatch; exact Hk|].
    unfold Logged.bindL at 1, Logged.quietly.
    destruct (exportToCSV (m :: ms) _ w1) as [w2 [[]|e]];
      [|apply Hcatch; exact Hk].
    unfold Logged.bindL, Logged.logger_success, Logged.logger_write, Logged.retL.
    cbn [Logged.calls Logged.failing].
    destruct (Logged.failing l1 (S (Logged.calls l1))) as [e|] eqn:E3.
    + apply Hcatch. exact Hk.
    + cbn [snd]. left. repeat split.
Qed.

(** With a log that takes no line, [scrape] rejects at its first
    statement and again in its [catch], and touches no file. *)
Lemma scrape_unwritable_log chat l w e :
  (forall n, Logged.failing l n = Some e) ->
  Logged.scrape chat l w = ((Logged.after 2 l, w), Throw e).
Proof.
  intros H.
  unfold Logged.scrape, Logged.tryCatchL, Logged.bindL,
    Logged.logger_info, Logged.logger_error, Logged.logger_write.
  rewrite H. cbn [Logged.calls Logged.failing]. rewrite H. reflexivity.
Qed.

(** *** A log that fails once *)

Lemma failsOnlyAt_steps k e l :
  Logged.failsOnlyAt k e l ->
  forall i, Logged.failing l (i + Logged.calls l)
            = if (i =? k)%nat then Some e else None.
Proof. intros H i. rewrite Nat.add_comm. apply H. Qed.

End LoggedFacts.

Module CycleFacts.
Import JS Parser StateManager Effects Exporter Scraper Props MoreProps Examples.
Import JSONText MoreExamples ScraperFacts LoggedFacts.

(** *** [Math.max] *)

Lemma fold_max_spec xs : forall x,
  In (fold_left Z.max xs x) (x :: xs)
  /\ Forall (fun y => y <= fold_left Z.max xs x) (x :: xs).
Proof.
  induction xs as [|a xs IH]; intros x; simpl.
  - split; [now left|]. constructor; [lia|constructor].
  - destruct (IH (Z.max x a)) as [Hin Hall]. split.
    + destruct (Z.max_spec x a) as [[_ E]|[_ E]]; rewrite E in Hin |- *;
        destruct Hin as [Hin|Hin];
        [right; left; exact Hin | right; right; exact Hin
        | left; exact Hin | right; right; exact Hin].
    + inversion Hall as [|? ? Hm Hr]; subst.
      constructor; [lia|]. constructor; [lia|assumption].
Qed.

(** The maximum of a non-empty list: a member that bounds the others. *)
Lemma Math_max_spec xs m :
  Math_max xs = Some m <-> In m xs /\ Forall (fun y => y <= m) xs.
Proof.
  destruct xs as [|x xs]; simpl.
  - split; [discriminate|]. intros [[] _].
  - destruct (fold_max_spec xs x) as [Hin Hall]. split.
    + intros H. inversion H; subst. now split.
    + intros [Hm Hb]. f_equal. rewrite Forall_forall in Hall, Hb.
      apply Z.le_antisymm; [apply Hb; exact Hin|apply Hall; exact Hm].
Qed.

Lemma Math_max_nonempty xs : xs <> [] -> exists m, Math_max xs = Some m.
Proof. destruct xs as [|x xs]; [contradiction|]. simpl. eauto. Qed.

(** Dropping the messages at or below the watermark does not change the
    maximum, as long as a message is left. *)
Lemma Math_max_filter_newer lastProcessed fetched :
  filter (isNewer lastProcessed) fetched <> [] ->
  Math_max (map timestamp (filter (isNewer lastProcessed) fetched))
  = Math_max (map timestamp fetched).
Proof.
  intros Hne.
  destruct (Math_max_nonempty (map timestamp (filter (isNewer lastProcessed) fetched)))
    as [m Hm].
  { intros K. apply map_eq_nil in K. contradiction. }
  rewrite Hm. symmetry. apply Math_max_spec.
  apply Math_max_spec in Hm. destruct Hm as [Hin Hb].
  apply in_map_iff in Hin. destruct Hin as (msg & Hts & Hin).
  apply filter_In in Hin. destruct Hin as [Hin Hnew].
  unfold isNewer in Hnew. apply Z.ltb_lt in Hnew.
  split.
  - apply in_map_iff. now exists msg.
  - rewrite Forall_forall in Hb |- *. intros y Hy.
    apply in_map_iff in Hy. destruct Hy as (msg' & <- & Hin').
    destruct (isNewer lastProcessed msg') eqn:E.
    + apply Hb. apply in_map_iff. exists msg'. split; [reflexivity|].
      apply filter_In. now split.
    + unfold isNewer in E. apply Z.ltb_ge in E. lia.
Qed.

Lemma parsed_nonempty_fetched fetched :
  parsedMessages (parseEach fetched) <> [] -> fetched <> [].
Proof. intros H ->. now apply H. Qed.

(** *** C1 *)

(** With a zero watermark the cycle is a backfill: the whole history is
    fetched and the output file is written anew. *)
Lemma zero_watermark_backfill chat w history p ps :
  lastProcessedTimestamp (currentState w) = Some 0 ->
  fetchMessages chat Infinity = Ok history ->
  parsedMessages (parseEach history) = p :: ps ->
  Z.of_nat (List.length history) <= argumentsLimit w ->
  stateWritable w = true -> csvWritable w = true ->
  exists w' s,
    scrape chat w = (w', Ok s)
    /\ isFirstRun s = Some true
    /\ messagesProcessed s = List.length (p :: ps)
    /\ csvFile w' = Some (HeaderRow headerTitles
                          :: map DataRow (map toRecord (p :: ps))).
Proof.
  intros Hz Hf Hp Hl Hsw Hcw.
  rewrite scrape_spec. cbv zeta. rewrite scrapeMessages_spec.
  unfold fetchedFor. rewrite Hz. simpl isZero. simpl orb. rewrite Hf, Hp.
  destruct (Z.leb_spec (Z.of_nat (List.length history)) (argumentsLimit w));
    [|lia].
  rewrite Hsw. rewrite exportToCSV_spec. cbv zeta.
  unfold withState, setStateDoc. cbn [csvWritable]. rewrite Hcw.
  cbn [negb andb app recordLines map]. eexists _, _.
  split; [reflexivity|]. split; [reflexivity|]. split; reflexivity.
Qed.

(** With the [null] watermark of the default state the cycle is an
    incremental one: it asks for 100 messages, keeps those with a positive
    timestamp and reports [isFirstRun = false]. *)
Lemma null_watermark_incremental chat w :
  lastProcessedTimestamp (currentState w) = None ->
  isZero (lastProcessedTimestamp (currentState w)) = false
  /\ fetchedFor chat (isZero (lastProcessedTimestamp (currentState w)))
                (currentState w)
     = match fetchMessages chat (Limit_ 100) with
       | Ok fetched => Ok (filter (fun msg => 0 <? timestamp msg) fetched)
       | Throw e => Throw e
       end.
Proof.
  intros H. unfold fetchedFor. rewrite H. simpl. split; reflexivity.
Qed.

(** C1, on the code: started without a state file (the default watermark,
    [lastProcessedTimestamp = null]) against a chat with 150 messages and an
    output file left from before, the cycle is not a backfill.  It reports
    [isFirstRun = false], processes only the 100 most recent messages and
    appends them after the rows the file already had. *)
Theorem C1_default_watermark_runs_incremental :
  lastProcessedTimestamp (currentState restartedWorld) = None
  /\ exists w' s rows,
       scrape (chatOf history150) restartedWorld = (w', Ok s)
       /\ success s = true
       /\ isFirstRun s = Some false
       /\ messagesProcessed s = 100%nat
       /\ csvFile w' = Some (oldRows ++ rows)
       /\ List.length rows = 100%nat
       /\ lastProcessedTimestamp (currentState w') = Some (1707580800 + 60 * 150).
Proof.
  split; [reflexivity|].
  destruct (scrape (chatOf history150) restartedWorld) as [w' r] eqn:E.
  vm_compute in E. inversion E; subst w' r; clear E.
  eexists _, _, _. split; [reflexivity|].
  split; [reflexivity|]. split; [reflexivity|]. split; [reflexivity|].
  split; [simpl; reflexivity|]. split; reflexivity.
Qed.

(** *** C2 *)

(** C2 as the spec words it fails: in the third scenario with an output
    file that cannot be written, the sink throws and the state file has
    already changed. *)
Lemma C2_watermark_already_advanced :
  ~ (forall chat w,
       sinkRaises chat w ->
       stateDoc (cycle chat w) = stateDoc w
       /\ exists s, snd (scrape chat w) = Ok s /\ success s = false).
Proof.
  intros H.
  destruct (H (chatOf scenario3) (worldAt 1000 false)) as [K _].
  - eexists _, _, _, _. split; vm_compute; reflexivity.
  - vm_compute in K. discriminate.
Qed.

(** The greatest timestamp of a fetch that is not empty, folded from the
    first message on: a fetched timestamp that bounds the others. *)
Lemma latest_of_fetched (first : RawMessage) (rest : list RawMessage) :
  let m := fold_left Z.max (map timestamp rest) (timestamp first) in
  In m (map timestamp (first :: rest))
  /\ Forall (fun msg => timestamp msg <= m) (first :: rest).
Proof.
  cbv zeta. destruct (fold_max_spec (map timestamp rest) (timestamp first))
    as [Hin Hall].
  split; [exact Hin|].
  rewrite Forall_forall in Hall |- *. intros msg Hmsg.
  apply Hall. change (In (timestamp msg) (map timestamp (first :: rest))).
  now apply in_map.
Qed.

(** C2, amended: in every cycle in which the export throws, [scrape] (its
    logger working) does not throw but returns the failed-cycle summary:
    [success = false], nothing processed, the message of the sink's error
    (that of the failure of the file system).
    The state file was already updated by [scrapeMessages] and stays so:
    its timestamp is a fetched timestamp that no fetched timestamp exceeds,
    and its total is raised by the size of the batch (while the sum is a
    safe integer, which the addition of the code needs to be exact), so
    that the file is not what it was.  Of the output file nothing is said:
    a write that is rejected may have written a part. *)
Theorem C2_sink_failure_reported_after_state_update :
  forall chat w l,
    sinkRaises chat w ->
    Logged.quiet l ->
    exists e fetched state' m n,
      Logged.scrape chat l w
      = ((Logged.after n l, cycle chat w),
         Ok {| success := false; messagesProcessed := 0; isFirstRun := None;
               outputFile := None; error := Some e;
               message := str "Scrape workflow failed" |})
      /\ (exists w1 batch,
            scrapeMessages chat (isZero (lastProcessedTimestamp (currentState w))) w
            = (w1, Ok batch)
            /\ snd (exportToCSV batch
                      (negb (isZero (lastProcessedTimestamp (currentState w)))) w1)
               = Throw e)
      /\ e = failureMessage (csvFailure w)
      /\ fetchedFor chat (isZero (lastProcessedTimestamp (currentState w)))
                    (currentState w) = Ok fetched
      /\ parsedMessages (parseEach fetched) <> []
      /\ stateDoc (cycle chat w) = Some state'
      /\ lastProcessedTimestamp state' = Some m
      /\ In m (map timestamp fetched)
      /\ Forall (fun msg => timestamp msg <= m) fetched
      /\ (safeInteger (totalMessagesProcessed (currentState w)
                        + Z.of_nat (List.length (parsedMessages (parseEach fetched)))) ->
          totalMessagesProcessed state'
          = totalMessagesProcessed (currentState w)
            + Z.of_nat (List.length (parsedMessages (parseEach fetched)))
          /\ stateDoc (cycle chat w) <> stateDoc w).
Proof.
  intros chat w l (w1 & p & ps & e & Hs & He) Hq.
  destruct (scrape_quiet chat l w Hq) as [n Hn].
  assert (Hc : scrape chat w
               = (fst (exportToCSV (p :: ps)
                         (negb (isZero (lastProcessedTimestamp (currentState w)))) w1),
                  Ok {| success := false; messagesProcessed := 0;
                        isFirstRun := None; outputFile := None; error := Some e;
                        message := str "Scrape workflow failed" |})).
  { rewrite scrape_spec. cbv zeta. rewrite Hs.
    destruct (exportToCSV (p :: ps) _ w1) as [w2 [[]|e']]; cbn [snd] in He;
      [discriminate|]. inversion He; subst e'. reflexivity. }
  pose proof (exportToCSV_frame (p :: ps)
                (negb (isZero (lastProcessedTimestamp (currentState w)))) w1)
    as (Hdoc & _).
  pose proof Hs as Hs0. rewrite scrapeMessages_spec in Hs.
  destruct (fetchedFor chat _ (currentState w)) as [fetched|e'] eqn:Ef;
    [|discriminate].
  destruct (parsedMessages (parseEach fetched)) as [|p' ps'] eqn:Ep;
    [discriminate|].
  destruct (Z.of_nat (List.length fetched) <=? argumentsLimit w); [|discriminate].
  destruct (stateWritable w) eqn:Esw; [|discriminate].
  inversion Hs; subst w1 p' ps'; clear Hs.
  destruct fetched as [|first rest]; [discriminate|].
  destruct (latest_of_fetched first rest) as [Hin Hall].
  exists e, (first :: rest),
    (merge (currentState w)
       (updatesOf chat (currentState w) (first :: rest) (p :: ps))),
    (fold_left Z.max (map timestamp rest) (timestamp first)), n.
  unfold cycle. rewrite Hn, Hc, !Ep. cbn [fst snd].
  split; [reflexivity|].
  split; [eexists _, _; split; [exact Hs0|exact He]|].
  split.
  { destruct (exportToCSV_outcome (p :: ps)
                (negb (isZero (lastProcessedTimestamp (currentState w))))
                (withState w (merge (currentState w)
                   (updatesOf chat (currentState w) (first :: rest) (p :: ps)))))
      as [[_ K]|[_ K]]; rewrite K in He; [discriminate|].
    inversion He. reflexivity. }
  split; [reflexivity|]. split; [discriminate|].
  split; [exact Hdoc|].
  split; [cbn [merge updatesOf override u_lastProcessedTimestamp
               lastProcessedTimestamp]; reflexivity|].
  split; [exact Hin|]. split; [exact Hall|].
  intros _. split; [reflexivity|].
  rewrite Hdoc. unfold withState, setStateDoc. cbn [stateDoc].
  unfold currentState. destruct (stateDoc w) as [s0|]; [|discriminate].
  intros K. inversion K as [K']. apply (f_equal totalMessagesProcessed) in K'.
  cbn [merge updatesOf override u_totalMessagesProcessed totalMessagesProcessed
       List.length] in K'. lia.
Qed.

Lemma C2_witness :
  exists e fetched state' m n,
    Logged.scrape (chatOf scenario3) silentLog (fullDisk 1000)
    = ((Logged.after n silentLog, cycle (chatOf scenario3) (fullDisk 1000)),
       Ok {| success := false; messagesProcessed := 0; isFirstRun := None;
             outputFile := None; error := Some e;
             message := str "Scrape workflow failed" |})
    /\ (exists w1 batch,
          scrapeMessages (chatOf scenario3)
            (isZero (lastProcessedTimestamp (currentState (fullDisk 1000))))
            (fullDisk 1000)
          = (w1, Ok batch)
          /\ snd (exportToCSV batch
                    (negb (isZero (lastProcessedTimestamp
                                     (currentState (fullDisk 1000))))) w1)
             = Throw e)
    /\ e = failureMessage (csvFailure (fullDisk 1000))
    /\ fetchedFor (chatOf scenario3)
         (isZero (lastProcessedTimestamp (currentState (fullDisk 1000))))
         (currentState (fullDisk 1000)) = Ok fetched
    /\ parsedMessages (parseEach fetched) <> []
    /\ stateDoc (cycle (chatOf scenario3) (fullDisk 1000)) = Some state'
    /\ lastProcessedTimestamp state' = Some m
    /\ In m (map timestamp fetched)
    /\ Forall (fun msg => timestamp msg <= m) fetched
    /\ (safeInteger (totalMessagesProcessed (currentState (fullDisk 1000))
                      + Z.of_nat (List.length (parsedMessages (parseEach fetched)))) ->
        totalMessagesProcessed state'
        = totalMessagesProcessed (currentState (fullDisk 1000))
          + Z.of_nat (List.length (parsedMessages (parseEach fetched)))
        /\ stateDoc (cycle (chatOf scenario3) (fullDisk 1000))
           <> stateDoc (fullDisk 1000)).
Proof.
  apply (C2_sink_failure_reported_after_state_update
           (chatOf scenario3) (fullDisk 1000) silentLog).
  - eexists _, _, _, _. split; vm_compute; reflexivity.
  - intros n. reflexivity.
Defined.

(** The same cycle with its values: the summary carries the message of the
    full disk, the state file has the timestamp 1500 and the total 6, and
    the output file has the beginning of a line after its old rows. *)
Example sink_failure_on_full_disk :
  snd (scrape (chatOf scenario3) (fullDisk 1000))
  = Ok (failed (str "ENOSPC: no space left on device, write"))
  /\ lastProcessedTimestamp (currentState (cycle (chatOf scenario3) (fullDisk 1000)))
     = Some 1500
  /\ totalMessagesProcessed (currentState (cycle (chatOf scenario3) (fullDisk 1000)))
     = 6
  /\ csvFile (cycle (chatOf scenario3) (fullDisk 1000))
     = Some (oldRows ++ [Fragment]).
Proof. vm_compute. repeat split. Qed.

End CycleFacts.

Module WatermarkFacts.
Import JS Parser StateManager Effects Exporter Scraper Props Examples.
Import ScraperFacts CycleFacts.

(** The export leaves the state file alone, whether it throws or not. *)
Lemma exportToCSV_stateDoc messages append w :
  stateDoc (fst (exportToCSV messages append w)) = stateDoc w.
Proof. apply (exportToCSV_frame messages append w). Qed.

(** The state file after a cycle: untouched, or the merge that
    [scrapeMessages] saved. *)
Lemma cycle_stateDoc chat w :
  stateDoc (cycle chat w) =
  match fetchedFor chat (isZero (lastProcessedTimestamp (currentState w)))
                   (currentState w) with
  | Throw _ => stateDoc w
  | Ok fetched =>
      match parsedMessages (parseEach fetched) with
      | [] => stateDoc w
      | p :: ps =>
          if (Z.of_nat (List.length fetched) <=? argumentsLimit w)
             && stateWritable w then
            Some (merge (currentState w)
                    (updatesOf chat (currentState w) fetched (p :: ps)))
          else stateDoc w
      end
  end.
Proof.
  unfold cycle. rewrite scrape_spec. cbv zeta. rewrite scrapeMessages_spec.
  destruct (fetchedFor chat _ (currentState w)) as [fetched|e]; [|reflexivity].
  destruct (parsedMessages (parseEach fetched)) as [|p ps]; [reflexivity|].
  destruct (Z.of_nat (List.length fetched) <=? argumentsLimit w); [|reflexivity].
  destruct (stateWritable w); [|reflexivity]. cbn [andb].
  pose proof (exportToCSV_stateDoc (p :: ps)
    (negb (isZero (lastProcessedTimestamp (currentState w))))
    (withState w (merge (currentState w)
       (updatesOf chat (currentState w) fetched (p :: ps))))) as K.
  destruct (exportToCSV (p :: ps) _ _) as [w2 [[]|e]]; exact K.
Qed.

(** C3: in an incremental cycle that updates the state file, the new
    [lastProcessedTimestamp] is the maximum timestamp of all the messages
    the fetch returned, those at or below the old watermark and those
    without text included: it is the timestamp of one of them and none of
    them has a greater one. *)
Theorem C3_new_watermark_is_max_of_fetched :
  forall chat w fetched,
    isZero (lastProcessedTimestamp (currentState w)) = false ->
    fetchMessages chat (Limit_ 100) = Ok fetched ->
    stateDoc (cycle chat w) <> stateDoc w ->
    exists state' m,
      stateDoc (cycle chat w) = Some state'
      /\ lastProcessedTimestamp state' = Some m
      /\ In m (map timestamp fetched)
      /\ Forall (fun msg => timestamp msg <= m) fetched.
Proof.
  intros chat w fetched Hz Hf Hu. revert Hu.
  rewrite cycle_stateDoc. unfold fetchedFor. rewrite Hz, Hf. simpl orb. cbv iota.
  destruct (parsedMessages (parseEach (filter _ fetched))) as [|p ps] eqn:Ep;
    [intros Hu; now contradiction Hu|].
  destruct ((Z.of_nat (List.length (filter _ fetched)) <=? argumentsLimit w)
            && stateWritable w); [intros _|intros Hu; now contradiction Hu].
  assert (Hne : filter (isNewer (lastProcessedTimestamp (currentState w))) fetched
                <> []).
  { apply parsed_nonempty_fetched. rewrite Ep. discriminate. }
  destruct fetched as [|first rest]; [now contradiction Hne|].
  destruct (latest_of_fetched first rest) as [Hin Hall].
  eexists _, (fold_left Z.max (map timestamp rest) (timestamp first)).
  split; [reflexivity|]. split; [|split; assumption].
  cbn [merge updatesOf override u_lastProcessedTimestamp lastProcessedTimestamp].
  rewrite (Math_max_filter_newer _ (first :: rest) Hne). reflexivity.
Qed.

(** The third scenario of the specification: watermark 1000 and fetched
    timestamps 900, 1500 (a message without text) and 1200; the new
    watermark is 1500. *)
Lemma C3_witness :
  exists state',
    stateDoc (cycle (chatOf scenario3) (worldAt 1000 true)) = Some state'
    /\ lastProcessedTimestamp state' = Some 1500
    /\ map timestamp scenario3 = [900; 1500; 1200].
Proof.
  destruct (C3_new_watermark_is_max_of_fetched
              (chatOf scenario3) (worldAt 1000 true) scenario3)
    as (state' & m & Hs & Hm & Hin & Hall).
  - reflexivity.
  - reflexivity.
  - vm_compute. discriminate.
  - exists state'. split; [exact Hs|]. split; [|reflexivity].
    rewrite Hm. f_equal.
    assert (K : m = 900 \/ m = 1500 \/ m = 1200)
      by (cbn in Hin; intuition congruence).
    assert (B : 1500 <= m).
    { rewrite Forall_forall in Hall.
      apply (Hall (textMessage 1500 (str "   "))). cbn. tauto. }
    lia.
Defined.

(** The third scenario: watermark 1000, fetched 900, 1500 (no text) and
    1200; one record is written and the watermark becomes 1500. *)
Example scenario3_cycle :
  exists w' s,
    scrape (chatOf scenario3) (worldAt 1000 true) = (w', Ok s)
    /\ messagesProcessed s = 1%nat
    /\ lastProcessedTimestamp (currentState w') = Some 1500.
Proof.
  destruct (scrape (chatOf scenario3) (worldAt 1000 true)) as [w' r] eqn:E.
  vm_compute in E. inversion E; subst.
  eexists _, _. repeat split; reflexivity.
Qed.

(** One cycle never lowers the watermark. *)
Lemma cycle_monotone chat w :
  unixTimes chat -> watermark w <= watermark (cycle chat w).
Proof.
  intros Hu. unfold watermark at 2. unfold currentState at 1.
  rewrite cycle_stateDoc. fold (currentState w).
  destruct (fetchedFor chat _ (currentState w)) as [fetched|e] eqn:Ef;
    [|apply Z.le_refl].
  destruct (parsedMessages (parseEach fetched)) as [|p ps] eqn:Ep;
    [apply Z.le_refl|].
  destruct ((Z.of_nat (List.length fetched) <=? argumentsLimit w)
            && stateWritable w); [|apply Z.le_refl].
  simpl.
  assert (Hne : map timestamp fetched <> []).
  { intros K. apply map_eq_nil in K. subst fetched. discriminate. }
  destruct (Math_max_nonempty _ Hne) as [m Hm]. rewrite Hm. simpl.
  apply Math_max_spec in Hm. destruct Hm as [Hin _].
  apply in_map_iff in Hin. destruct Hin as (msg & <- & Hin).
  unfold fetchedFor in Ef. unfold watermark.
  destruct (isZero (lastProcessedTimestamp (currentState w))) eqn:Ez; simpl in Ef.
  - apply Hu in Ef. rewrite Forall_forall in Ef. apply Ef in Hin.
    unfold isZero in Ez.
    destruct (lastProcessedTimestamp (currentState w)) as [z|]; [|discriminate].
    apply Z.eqb_eq in Ez. subst z. exact Hin.
  - destruct (fetchMessages chat (Limit_ 100)) as [raw|e]; [|discriminate].
    inversion Ef; subst fetched. apply filter_In in Hin.
    destruct Hin as [_ Hnew]. unfold isNewer in Hnew.
    apply Z.ltb_lt in Hnew. lia.
Qed.

(** In an incremental cycle this needs nothing of the source: the filter
    keeps only timestamps above the watermark. *)
Lemma cycle_monotone_incremental chat w :
  isZero (lastProcessedTimestamp (currentState w)) = false ->
  watermark w <= watermark (cycle chat w).
Proof.
  intros Hz. unfold watermark at 2. unfold currentState at 1.
  rewrite cycle_stateDoc. fold (currentState w).
  unfold fetchedFor. rewrite Hz. simpl orb. cbv iota.
  destruct (fetchMessages chat (Limit_ 100)) as [raw|e]; [|apply Z.le_refl].
  destruct (parsedMessages (parseEach (filter _ raw))) as [|p ps] eqn:Ep;
    [apply Z.le_refl|].
  destruct ((Z.of_nat (List.length (filter _ raw)) <=? argumentsLimit w)
            && stateWritable w); [|apply Z.le_refl].
  simpl.
  assert (Hne : map timestamp
                  (filter (isNewer (lastProcessedTimestamp (currentState w))) raw)
                <> []).
  { intros K. apply map_eq_nil in K. rewrite K in Ep. discriminate. }
  destruct (Math_max_nonempty _ Hne) as [m Hm]. rewrite Hm. simpl.
  apply Math_max_spec in Hm. destruct Hm as [Hin _].
  apply in_map_iff in Hin. destruct Hin as (msg & <- & Hin).
  apply filter_In in Hin. destruct Hin as [_ Hnew]. unfold isNewer in Hnew.
  apply Z.ltb_lt in Hnew. unfold watermark. lia.
Qed.

(** Why the backfill needs Unix times: from the stored watermark 0, a
    history dated before the epoch is saved with its negative maximum. *)
Example backfill_before_epoch :
  watermark (worldAt 0 true) = 0
  /\ watermark (cycle (chatOf [textMessage (-5) report]) (worldAt 0 true)) = -5.
Proof. vm_compute. split; reflexivity. Qed.

(** C4: along any sequence of cycles over sources with Unix timestamps
    (successful cycles and failed ones alike), the persisted
    [lastProcessedTimestamp] after a cycle is at least what it was after
    the cycle before. *)
Theorem C4_watermark_monotone :
  forall chats w,
    Forall unixTimes chats ->
    Sorted Z.le (map watermark (trajectory chats w)).
Proof.
  induction chats as [|chat chats IH]; intros w Hu; simpl.
  - constructor; constructor.
  - inversion Hu as [|? ? Hc Hr]; subst.
    constructor; [apply IH; assumption|].
    destruct chats as [|chat' chats']; simpl; constructor;
      apply cycle_monotone; assumption.
Qed.

Lemma chatOf_unixTimes history :
  Forall (fun msg => 0 <= timestamp msg) history -> unixTimes (chatOf history).
Proof.
  intros H limit msgs E. destruct limit as [|n]; simpl in E;
    inversion E; subst msgs; clear E; [assumption|].
  unfold recent. rewrite Forall_forall in H |- *.
  intros msg Hin. apply H. revert Hin.
  generalize (List.length history - n)%nat. intros k.
  revert history H. induction k as [|k IHk]; intros history H Hin;
    [assumption|].
  destruct history as [|a history]; [assumption|].
  right. apply (IHk history); [|assumption].
  intros x Hx. apply H. now right.
Qed.

Lemma C4_witness :
  Sorted Z.le
    (map watermark
       (trajectory [chatOf scenario3; chatOf []; chatOf scenario3] freshWorld)).
Proof.
  apply (C4_watermark_monotone
           [chatOf scenario3; chatOf []; chatOf scenario3] freshWorld).
  repeat constructor; apply chatOf_unixTimes; repeat constructor;
    simpl; lia.
Defined.

(** C6: when every message of the cycle is skipped, the batch is empty and
    the cycle changes nothing, neither the output file nor the state file,
    and reports success with no message processed. *)
Theorem C6_empty_batch_is_noop :
  forall chat w fetched,
    fetchedFor chat (isZero (lastProcessedTimestamp (currentState w)))
               (currentState w) = Ok fetched ->
    Forall (fun msg => skipped msg = true) fetched ->
    scrape chat w
    = (w, Ok {| success := true;
                messagesProcessed := 0;
                isFirstRun :=
                  Some (isZero (lastProcessedTimestamp (currentState w)));
                outputFile := Some config_paths_output;
                error := None;
                message := str "No new messages found" |}).
Proof.
  intros chat w fetched Hf Hs.
  rewrite scrape_spec. cbv zeta. rewrite scrapeMessages_spec, Hf.
  apply parseEach_nil_iff in Hs. rewrite Hs. reflexivity.
Qed.

Lemma C6_witness :
  scrape (chatOf [textMessage 1500 (str "   ")]) (worldAt 1000 true)
  = (worldAt 1000 true,
     Ok {| success := true;
           messagesProcessed := 0;
           isFirstRun :=
             Some (isZero (lastProcessedTimestamp
                             (currentState (worldAt 1000 true))));
           outputFile := Some config_paths_output;
           error := None;
           message := str "No new messages found" |}).
Proof.
  apply (C6_empty_batch_is_noop
           (chatOf [textMessage 1500 (str "   ")]) (worldAt 1000 true)
           [textMessage 1500 (str "   ")]).
  - reflexivity.
  - repeat constructor.
Defined.

End WatermarkFacts.

(* ================================================================== *)
(** ** The CSV exporter                                                *)
(* ================================================================== *)

Module ExporterFacts.
Import JS Parser StateManager Effects Exporter Scraper Props Examples.
Import ScraperFacts.

Lemma no_header_in_data records :
  filter isHeader (map DataRow records) = [].
Proof. induction records as [|r records IH]; [reflexivity|exact IH]. Qed.

Lemma no_header_in_records records :
  filter isHeader (recordLines records) = [].
Proof.
  destruct records as [|r records]; [reflexivity|].
  apply (no_header_in_data (r :: records)).
Qed.

Lemma headers_firstn n (rows : list Row) :
  (List.length (filter isHeader (firstn n rows))
   <= List.length (filter isHeader rows))%nat.
Proof.
  revert n. induction rows as [|r rows IH]; intros [|n]; simpl; try lia.
  specialize (IH n). destruct (isHeader r); simpl; lia.
Qed.

Lemma headers_writtenPart n fragment (text : list Row) :
  (List.length (filter isHeader (writtenPart n fragment text))
   <= List.length (filter isHeader text))%nat.
Proof.
  unfold writtenPart. rewrite filter_app, length_app.
  pose proof (headers_firstn n text).
  destruct (fragment && (n <? List.length text)%nat); simpl; lia.
Qed.

(** An append to an existing file adds no header, whether it is written
    whole, in part or not at all. *)
Lemma headerCount_after_append messages w :
  existsSync w = true ->
  headerCount (fst (exportToCSV messages true w)) = headerCount w.
Proof.
  intros H. rewrite exportToCSV_spec. cbv zeta. rewrite H. cbn [andb app].
  unfold headerCount, existsSync in *.
  destruct (csvFile w) as [rows|] eqn:Ef; [|discriminate].
  destruct (csvWritable w).
  - cbn [fst setCsvFile csvFile]. rewrite filter_app, no_header_in_records.
    now rewrite app_nil_r.
  - destruct (progress (csvFailure w)) as [|n fragment];
      [cbn [fst]; now rewrite Ef|].
    cbn [fst setCsvFile csvFile]. rewrite filter_app, length_app.
    pose proof (headers_writtenPart n fragment
                  (recordLines (map toRecord messages))) as K.
    rewrite no_header_in_records in K. simpl in K. lia.
Qed.

(** A call that creates the file leaves one header in it, or what a
    rejected write left: at most one header, or the file as it was. *)
Lemma headerCount_after_create messages append w :
  append && existsSync w = false ->
  (headerCount (fst (exportToCSV messages append w)) <= 1)%nat
  \/ fst (exportToCSV messages append w) = w.
Proof.
  intros H. rewrite exportToCSV_spec. cbv zeta. rewrite H. unfold headerCount.
  destruct (csvWritable w).
  - left. cbn [fst setCsvFile csvFile app filter isHeader List.length].
    rewrite no_header_in_records. simpl. lia.
  - destruct (progress (csvFailure w)) as [|n fragment]; [right; reflexivity|].
    left. cbn [fst setCsvFile csvFile app].
    pose proof (headers_writtenPart n fragment
                  (HeaderRow headerTitles :: recordLines (map toRecord messages)))
      as K.
    cbn [filter isHeader List.length] in K.
    rewrite no_header_in_records in K. simpl in K. exact K.
Qed.

Lemma existsSync_after_export messages append w :
  existsSync w = true ->
  existsSync (fst (exportToCSV messages append w)) = true.
Proof.
  intros H. rewrite exportToCSV_spec. cbv zeta.
  destruct (csvWritable w); [reflexivity|].
  destruct (progress (csvFailure w)); [exact H|reflexivity].
Qed.

Lemma appendAll_existing batches : forall w,
  existsSync w = true -> headerCount (appendAll batches w) = headerCount w.
Proof.
  induction batches as [|b batches IH]; intros w H; [reflexivity|].
  simpl. rewrite IH by (now apply existsSync_after_export).
  now apply headerCount_after_append.
Qed.

Lemma appendAll_at_most_one batches : forall w,
  (headerCount w <= 1)%nat -> (headerCount (appendAll batches w) <= 1)%nat.
Proof.
  induction batches as [|b batches IH]; intros w H; [exact H|].
  simpl. apply IH. destruct (existsSync w) eqn:E.
  - now rewrite headerCount_after_append.
  - destruct (headerCount_after_create b true w) as [K|K];
      [now rewrite E|exact K|now rewrite K].
Qed.

(** C9: an append to a file that does not exist is the create case, header
    row first and then the lines of the records; a call writes the header
    exactly when it is not an append to an existing file; the lines of the
    records are their data rows, and one empty line when there is no
    record; and repeated appends never bring the number of header rows
    above one (on an existing file they leave it as it is), whether the
    writes succeed or are rejected on the way. *)
Theorem C9_header_written_at_most_once :
  (forall messages w,
     existsSync w = false ->
     exportToCSV messages true w = exportToCSV messages false w
     /\ (csvWritable w = true ->
         csvFile (fst (exportToCSV messages true w))
         = Some (HeaderRow headerTitles :: recordLines (map toRecord messages))))
  /\ (forall messages append w rows,
        csvWritable w = true ->
        csvFile w = Some rows ->
        csvFile (fst (exportToCSV messages append w))
        = Some ((if append then rows else [HeaderRow headerTitles])
                ++ recordLines (map toRecord messages)))
  /\ (forall messages,
        recordLines (map toRecord messages)
        = match messages with
          | [] => [BlankRow]
          | _ :: _ => map DataRow (map toRecord messages)
          end)
  /\ (forall batches w,
        (headerCount w <= 1)%nat ->
        (headerCount (appendAll batches w) <= 1)%nat)
  /\ (forall batches w,
        existsSync w = true ->
        headerCount (appendAll batches w) = headerCount w).
Proof.
  split; [|split; [|split; [|split]]].
  - intros messages w H. rewrite !exportToCSV_spec. cbv zeta. rewrite H.
    cbn [andb]. split; [reflexivity|]. intros Hw. rewrite Hw. reflexivity.
  - intros messages append w rows Hw Hf. rewrite exportToCSV_spec. cbv zeta.
    rewrite Hw. unfold existsSync. rewrite Hf. cbn [fst setCsvFile csvFile].
    destruct append; reflexivity.
  - intros [|m messages]; reflexivity.
  - intros batches w. apply appendAll_at_most_one.
  - intros batches w. apply appendAll_existing.
Qed.

Lemma C9_witness :
  (exportToCSV [parseMessage (VString scenario1) 1707580800 false] true freshWorld
   = exportToCSV [parseMessage (VString scenario1) 1707580800 false] false freshWorld)
  /\ (headerCount
        (appendAll [[parseMessage (VString scenario1) 1707580800 false];
                    [];
                    [parseMessage (VString taggedText) 1707580860 true]]
                   freshWorld) <= 1)%nat
  /\ headerCount
       (appendAll [[parseMessage (VString scenario1) 1707580800 false]; []]
                  restartedWorld)
     = headerCount restartedWorld.
Proof.
  destruct C9_header_written_at_most_once as (H1 & _ & _ & H3 & H4).
  split; [|split].
  - apply (H1 [parseMessage (VString scenario1) 1707580800 false] freshWorld).
    reflexivity.
  - apply (H3 _ freshWorld). vm_compute. lia.
  - apply (H4 _ restartedWorld). reflexivity.
Defined.

End ExporterFacts.

(* ================================================================== *)
(** ** [JSON.parse] and the state file                                 *)
(* ================================================================== *)

Module JSONFacts.
Import JS JSON JSFacts.

Lemma skip_ws_length s : (List.length (skip_ws s) <= List.length s)%nat.
Proof.
  induction s as [|c s IH]; simpl; [lia|].
  destruct (isJSONWhiteSpace c); simpl; lia.
Qed.

Lemma parse_chars_length s : forall cs r,
  parse_chars s = Some (cs, r) -> (List.length r < List.length s)%nat.
Proof.
  enough (K : forall n s0, (List.length s0 < n)%nat -> forall cs r,
            parse_chars s0 = Some (cs, r) -> (List.length r < List.length s0)%nat)
    by (apply (K (S (List.length s))); lia).
  clear s. induction n as [|n IHn]; intros s Hn cs r H; [lia|].
  assert (IH : forall y, (List.length y < List.length s)%nat -> forall cs r,
            parse_chars y = Some (cs, r) -> (List.length r < List.length y)%nat)
    by (intros y Hy; apply IHn; lia).
  clear IHn Hn.
  destruct s as [|c s1]; simpl in H; [discriminate|].
  destruct (c =? 34)%N.
  { inversion H; subst. simpl. lia. }
  destruct (c =? 92)%N.
  { destruct s1 as [|e s2]; [discriminate|].
    destruct (e =? 117)%N.
    - destruct s2 as [|h1 [|h2 [|h3 [|h4 s3]]]]; try discriminate.
      destruct (hex4 h1 h2 h3 h4); [|discriminate].
      destruct (parse_chars s3) as [[cs' r']|] eqn:E; [|discriminate].
      inversion H; subst. apply IH in E; simpl in *; lia.
    - destruct (escapeOf e); [|discriminate].
      destruct (parse_chars s2) as [[cs' r']|] eqn:E; [|discriminate].
      inversion H; subst. apply IH in E; simpl in *; lia. }
  destruct (c <? 32)%N; [discriminate|].
  destruct (parse_chars s1) as [[cs' r']|] eqn:E; [|discriminate].
  inversion H; subst. apply IH in E; simpl in *; lia.
Qed.

Lemma takeDigits_length s : forall ds r,
  takeDigits s = (ds, r) -> (List.length r <= List.length s)%nat.
Proof.
  induction s as [|c s IH]; intros ds r H; simpl in H.
  - inversion H; subst. simpl. lia.
  - destruct (isDigit c).
    + destruct (takeDigits s) as [ds' r'] eqn:E. inversion H; subst.
      specialize (IH _ _ eq_refl). simpl. lia.
    + inversion H; subst. simpl. lia.
Qed.

Lemma parse_int_length s i r :
  parse_int s = Some (i, r) -> (List.length r < List.length s)%nat.
Proof.
  unfold parse_int. destruct s as [|c s]; [discriminate|].
  destruct (c =? 48)%N.
  - intros H. inversion H; subst. simpl. lia.
  - destruct (isDigit c); [|discriminate].
    destruct (takeDigits s) as [ds r'] eqn:E. intros H. inversion H; subst.
    apply takeDigits_length in E. simpl. lia.
Qed.

Lemma parse_frac_length s f r :
  parse_frac s = Some (f, r) -> (List.length r <= List.length s)%nat.
Proof.
  unfold parse_frac. destruct s as [|c s].
  - intros H. inversion H; subst. simpl. lia.
  - destruct (c =? 46)%N.
    + destruct (takeDigits s) as [ds r'] eqn:E.
      apply takeDigits_length in E. destruct ds; [discriminate|].
      intros H. inversion H; subst. simpl. lia.
    + intros H. inversion H; subst. simpl. lia.
Qed.

Lemma parse_exp_length s e r :
  parse_exp s = Some (e, r) -> (List.length r <= List.length s)%nat.
Proof.
  unfold parse_exp. destruct s as [|c s].
  - intros H. inversion H; subst. simpl. lia.
  - destruct ((c =? 101) || (c =? 69))%N.
    + match goal with
      | |- context [let (_, _) := ?p in _] => destruct p as [sign s''] eqn:Ep
      end.
      assert (Hl : (List.length s'' <= List.length s)%nat).
      { destruct s as [|g t]; [inversion Ep; subst; simpl; lia|].
        destruct ((g =? 43) || (g =? 45))%N; inversion Ep; subst; simpl; lia. }
      destruct (takeDigits s'') as [ds r'] eqn:E.
      apply takeDigits_length in E. destruct ds; [discriminate|].
      intros H. inversion H; subst. simpl. lia.
    + intros H. inversion H; subst. simpl. lia.
Qed.

Lemma parse_number_length s lit r :
  parse_number s = Some (lit, r) -> (List.length r < List.length s)%nat.
Proof.
  unfold parse_number.
  assert (K : forall minus s0,
    (List.length s0 <= List.length s)%nat ->
    match parse_int s0 with
    | None => None
    | Some (i, s1) =>
        match parse_frac s1 with
        | None => None
        | Some (f, s2) =>
            match parse_exp s2 with
            | None => None
            | Some (e, s3) => Some (minus ++ i ++ f ++ e, s3)
            end
        end
    end = Some (lit, r) -> (List.length r < List.length s)%nat).
  { intros minus s0 Hl H.
    destruct (parse_int s0) as [[i s1]|] eqn:E1; [|discriminate].
    destruct (parse_frac s1) as [[f s2]|] eqn:E2; [|discriminate].
    destruct (parse_exp s2) as [[e s3]|] eqn:E3; [|discriminate].
    inversion H; subst.
    apply parse_int_length in E1. apply parse_frac_length in E2.
    apply parse_exp_length in E3. lia. }
  destruct s as [|c t].
  - apply K. simpl. lia.
  - destruct (c =? 45)%N; apply K; simpl; lia.
Qed.

Lemma stripPrefix_length pat s r :
  stripPrefix pat s = Some r ->
  List.length s = (List.length pat + List.length r)%nat.
Proof.
  intros H. apply stripPrefix_app in H. subst s. apply length_app.
Qed.

Lemma parse_literal_length s v r :
  parse_literal s = POk v r -> (List.length r < List.length s)%nat.
Proof.
  unfold parse_literal.
  destruct (stripPrefix (str "true") s) eqn:E1.
  { intros H. inversion H; subst. apply stripPrefix_length in E1.
    simpl in E1. lia. }
  destruct (stripPrefix (str "false") s) eqn:E2.
  { intros H. inversion H; subst. apply stripPrefix_length in E2.
    simpl in E2. lia. }
  destruct (stripPrefix (str "null") s) eqn:E3; [|discriminate].
  intros H. inversion H; subst. apply stripPrefix_length in E3.
  simpl in E3. lia.
Qed.

Section Containers.
Variable parseValue : jsstring -> PR value.
Variable n : nat.
Hypothesis parseValue_settles :
  forall s, (List.length s < n)%nat -> settles (parseValue s) s.

Lemma parse_elements_settles : forall k s,
  (List.length s < k)%nat -> (k <= n)%nat ->
  settles (parse_elements parseValue k s) s.
Proof.
  induction k as [|k IH]; intros s Hk Hn; [lia|].
  simpl. destruct (parseValue_settles s) as [Hne Hlen]; [lia|].
  destruct (parseValue s) as [v r| |]; [|split; congruence|congruence].
  specialize (Hlen v r eq_refl).
  pose proof (skip_ws_length r) as Hws.
  destruct (skip_ws r) as [|c r']; [split; congruence|].
  simpl in Hws.
  destruct (c =? 44)%N.
  - destruct (IH r') as [Hne' Hlen']; [lia|lia|].
    destruct (parse_elements parseValue k r') as [vs r''| |];
      [|split; congruence|congruence].
    specialize (Hlen' vs r'' eq_refl). split; [congruence|].
    intros a r0 H. inversion H; subst. lia.
  - destruct (c =? 93)%N; [|split; congruence].
    split; [congruence|]. intros a r0 H. inversion H; subst. lia.
Qed.

Lemma parse_members_settles : forall k s acc,
  (List.length s < k)%nat -> (k <= n)%nat ->
  settles (parse_members parseValue k s acc) s.
Proof.
  induction k as [|k IH]; intros s acc Hk Hn; [lia|].
  simpl. pose proof (skip_ws_length s) as Hws.
  destruct (skip_ws s) as [|q r]; [split; congruence|]. simpl in Hws.
  destruct (q =? 34)%N; [|split; congruence].
  destruct (parse_chars r) as [[key r1]|] eqn:Ec; [|split; congruence].
  apply parse_chars_length in Ec.
  pose proof (skip_ws_length r1) as Hws1.
  destruct (skip_ws r1) as [|c r2]; [split; congruence|]. simpl in Hws1.
  destruct (c =? 58)%N; [|split; congruence].
  destruct (parseValue_settles r2) as [Hne Hlen]; [lia|].
  destruct (parseValue r2) as [v r3| |]; [|split; congruence|congruence].
  specialize (Hlen v r3 eq_refl).
  pose proof (skip_ws_length r3) as Hws3.
  destruct (skip_ws r3) as [|d r4]; [split; congruence|]. simpl in Hws3.
  destruct (d =? 44)%N.
  - destruct (IH r4 (setProperty key v acc)) as [Hne' Hlen']; [lia|lia|].
    split; [exact Hne'|]. intros a r0 H. apply Hlen' in H. lia.
  - destruct (d =? 125)%N; [|split; congruence].
    split; [congruence|]. intros a r0 H. inversion H; subst. lia.
Qed.
End Containers.

(** A budget above the length of the text is never used up, and a value
    takes at least one code unit. *)
Lemma parse_value_settles : forall n s,
  (List.length s < n)%nat -> settles (parse_value n s) s.
Proof.
  induction n as [|n IH]; intros s Hn; [lia|].
  simpl. pose proof (skip_ws_length s) as Hws.
  destruct (skip_ws s) as [|c r]; [split; congruence|]. simpl in Hws.
  assert (IH' : forall s0, (List.length s0 < n)%nat -> settles (parse_value n s0) s0)
    by exact IH.
  destruct (c =? 123)%N.
  { pose proof (skip_ws_length r) as Hws'.
    destruct (skip_ws r) as [|d r']; [split; congruence|]. simpl in Hws'.
    destruct (d =? 125)%N.
    - split; [congruence|]. intros a r0 H. inversion H; subst. lia.
    - destruct (parse_members_settles (parse_value n) n IH' n r [])
        as [Hne Hlen]; [lia|lia|].
      destruct (parse_members (parse_value n) n r []) as [ps r''| |];
        [|split; congruence|congruence].
      specialize (Hlen ps r'' eq_refl). split; [congruence|].
      intros a r0 H. inversion H; subst. lia. }
  destruct (c =? 91)%N.
  { pose proof (skip_ws_length r) as Hws'.
    destruct (skip_ws r) as [|d r']; [split; congruence|]. simpl in Hws'.
    destruct (d =? 93)%N.
    - split; [congruence|]. intros a r0 H. inversion H; subst. lia.
    - destruct (parse_elements_settles (parse_value n) n IH' n r)
        as [Hne Hlen]; [lia|lia|].
      destruct (parse_elements (parse_value n) n r) as [vs r''| |];
        [|split; congruence|congruence].
      specialize (Hlen vs r'' eq_refl). split; [congruence|].
      intros a r0 H. inversion H; subst. lia. }
  destruct (c =? 34)%N.
  { destruct (parse_chars r) as [[cs r']|] eqn:Ec; [|split; congruence].
    apply parse_chars_length in Ec. split; [congruence|].
    intros a r0 H. inversion H; subst. lia. }
  destruct ((c =? 45)%N || isDigit c).
  { destruct (parse_number (c :: r)) as [[lit r']|] eqn:En; [|split; congruence].
    apply parse_number_length in En. simpl in En. split; [congruence|].
    intros a r0 H. inversion H; subst. lia. }
  split.
  - unfold parse_literal.
    destruct (stripPrefix (str "true") (c :: r)); [congruence|].
    destruct (stripPrefix (str "false") (c :: r)); [congruence|].
    destruct (stripPrefix (str "null") (c :: r)); congruence.
  - intros a r0 H. apply parse_literal_length in H. simpl in H. lia.
Qed.

(** [JSON.parse] is given enough budget: [None] is always a SyntaxError. *)
Lemma parse_value_fuel text :
  parse_value (S (List.length text)) text <> POutOfFuel.
Proof. apply parse_value_settles. lia. Qed.

(** More budget changes nothing. *)
Lemma parse_value_fuel_irrelevant : forall n m s,
  (List.length s < n)%nat -> (n <= m)%nat ->
  parse_value m s = parse_value n s.
Proof.
  assert (elements : forall pv pv' (n : nat),
    (forall s, (List.length s < n)%nat -> settles (pv s) s /\ pv' s = pv s) ->
    forall k k' s, (List.length s < k)%nat -> (k <= n)%nat -> (k <= k')%nat ->
    parse_elements pv' k' s = parse_elements pv k s).
  { intros pv pv' n Hpv. induction k as [|k IH]; intros k' s Hk Hn Hk'; [lia|].
    destruct k' as [|k']; [lia|]. simpl.
    destruct (Hpv s) as [[_ Hlen] ->]; [lia|].
    destruct (pv s) as [v r| |]; [|reflexivity|reflexivity].
    specialize (Hlen v r eq_refl). pose proof (skip_ws_length r) as Hws.
    destruct (skip_ws r) as [|c r']; [reflexivity|]. simpl in Hws.
    destruct (c =? 44)%N; [|reflexivity].
    rewrite (IH k' r'); [reflexivity|lia|lia|lia]. }
  assert (members : forall pv pv' (n : nat),
    (forall s, (List.length s < n)%nat -> settles (pv s) s /\ pv' s = pv s) ->
    forall k k' s acc, (List.length s < k)%nat -> (k <= n)%nat -> (k <= k')%nat ->
    parse_members pv' k' s acc = parse_members pv k s acc).
  { intros pv pv' n Hpv. induction k as [|k IH]; intros k' s acc Hk Hn Hk'; [lia|].
    destruct k' as [|k']; [lia|]. simpl.
    pose proof (skip_ws_length s) as Hws.
    destruct (skip_ws s) as [|q r]; [reflexivity|]. simpl in Hws.
    destruct (q =? 34)%N; [|reflexivity].
    destruct (parse_chars r) as [[key r1]|] eqn:Ec; [|reflexivity].
    apply parse_chars_length in Ec.
    pose proof (skip_ws_length r1) as Hws1.
    destruct (skip_ws r1) as [|c r2]; [reflexivity|]. simpl in Hws1.
    destruct (c =? 58)%N; [|reflexivity].
    destruct (Hpv r2) as [[_ Hlen] ->]; [lia|].
    destruct (pv r2) as [v r3| |]; [|reflexivity|reflexivity].
    specialize (Hlen v r3 eq_refl). pose proof (skip_ws_length r3) as Hws3.
    destruct (skip_ws r3) as [|d r4]; [reflexivity|]. simpl in Hws3.
    destruct (d =? 44)%N; [|reflexivity].
    apply IH; lia. }
  induction n as [|n IH]; intros m s Hn Hm; [lia|].
  destruct m as [|m]; [lia|]. simpl.
  pose proof (skip_ws_length s) as Hws.
  destruct (skip_ws s) as [|c r]; [reflexivity|]. simpl in Hws.
  assert (Hpv : forall s0, (List.length s0 < n)%nat ->
            settles (parse_value n s0) s0 /\ parse_value m s0 = parse_value n s0).
  { intros s0 H0. split; [now apply parse_value_settles|apply IH; lia]. }
  destruct (c =? 123)%N.
  { pose proof (skip_ws_length r) as Hws'.
    destruct (skip_ws r) as [|d r']; [reflexivity|]. simpl in Hws'.
    destruct (d =? 125)%N; [reflexivity|].
    rewrite (members (parse_value n) (parse_value m) n Hpv n m r []);
      [reflexivity|lia|lia|lia]. }
  destruct (c =? 91)%N; [|reflexivity].
  pose proof (skip_ws_length r) as Hws'.
  destruct (skip_ws r) as [|d r']; [reflexivity|]. simpl in Hws'.
  destruct (d =? 93)%N; [reflexivity|].
  rewrite (elements (parse_value n) (parse_value m) n Hpv n m r);
    [reflexivity|lia|lia|lia].
Qed.

End JSONFacts.

Module StateManagerFacts.
Import JS StateManager Props.

(** C5 as the spec words it fails: the file content [{}] parses, is not a
    watermark, and is what [loadState] returns. *)
Lemma C5_object_without_fields_returned :
  ~ (forall read,
       match read with
       | ReadError _ => True
       | ReadOk fileContent =>
           match JSON.parse fileContent with
           | Some v => isValidWatermark v = false
           | None => True
           end
       end ->
       loadState read = defaultStateObject).
Proof.
  intros H. specialize (H (ReadOk (str "{}")) eq_refl).
  vm_compute in H. discriminate.
Qed.

(** C5, amended: [loadState] is defined for every outcome of the read and
    every file content; it returns the default state (null chat id, chat
    name, timestamp and run date, total 0) when the file cannot be read or
    its content is not a JSON text, and otherwise the parsed value as it
    is, with no check that it is a watermark. *)
Theorem C5_loadState_default_on_unreadable_or_not_json :
  (forall message, loadState (ReadError message) = defaultStateObject)
  /\ (forall fileContent,
        JSON.parse fileContent = None ->
        loadState (ReadOk fileContent) = defaultStateObject)
  /\ (forall fileContent v,
        JSON.parse fileContent = Some v ->
        loadState (ReadOk fileContent) = v)
  /\ defaultStateObject
     = JSON.JObject
         [ (str "chatId", JSON.JNull);
           (str "chatName", JSON.JNull);
           (str "lastProcessedTimestamp", JSON.JNull);
           (str "lastRunDate", JSON.JNull);
           (str "totalMessagesProcessed", JSON.JNumber (str "0")) ]
  /\ defaultStateObject = State_object defaultState.
Proof.
  split; [reflexivity|]. split; [|split; [|split; reflexivity]].
  - intros fileContent H. unfold loadState. now rewrite H.
  - intros fileContent v H. unfold loadState. now rewrite H.
Qed.

(** A state file written by the scraper reads back as the object of its
    state, whatever the order of its fields. *)
Example stateText_loaded :
  exists props,
    loadState (ReadOk Examples.stateText) = JSON.JObject props
    /\ isValidWatermark (JSON.JObject props) = true
    /\ forall k, lookup k props
         = match State_object (Examples.stateAt 1000) with
           | JSON.JObject props' => lookup k props'
           | _ => None
           end.
Proof.
  eexists. split; [vm_compute; reflexivity|]. split; [reflexivity|].
  intros k. simpl.
  repeat match goal with
         | |- context [jsstring_eqb k ?x] => destruct (jsstring_eqb k x) eqn:?
         end; try reflexivity;
  unfold jsstring_eqb in *;
  repeat match goal with
         | H : (if list_eq_dec N.eq_dec k ?x then true else false) = true |- _ =>
             destruct (list_eq_dec N.eq_dec k x); [subst k|discriminate]
         end; try discriminate.
Qed.

Lemma C5_witness :
  loadState (ReadOk (str "{ chatId: ")) = defaultStateObject
  /\ loadState (ReadOk (str "[1, 2]"))
     = JSON.JArray [JSON.JNumber (str "1"); JSON.JNumber (str "2")].
Proof.
  destruct C5_loadState_default_on_unreadable_or_not_json as (_ & H2 & H3 & _).
  split.
  - apply (H2 (str "{ chatId: ")). reflexivity.
  - apply (H3 (str "[1, 2]")). reflexivity.
Defined.

End StateManagerFacts.

(* ================================================================== *)
(** ** More of [parseMessage]                                     *)
(* ================================================================== *)

Module ParserMore.
Import JS Parser Props MoreProps JSFacts ParserFacts.

(** *** [trim] *)

Lemma trimStart_head s :
  match trimStart s with
  | [] => True
  | c :: _ => isWhiteSpace c = false
  end.
Proof.
  induction s as [|c s IH]; simpl; [exact I|].
  destruct (isWhiteSpace c) eqn:E; [exact IH|exact E].
Qed.

Lemma trimStart_fixed c s : isWhiteSpace c = false -> trimStart (c :: s) = c :: s.
Proof. intros H. simpl. now rewrite H. Qed.

Lemma trimStart_snoc l c :
  isWhiteSpace c = false -> exists y, trimStart (l ++ [c]) = y ++ [c].
Proof.
  intros H. induction l as [|a l [y IH]]; simpl.
  - rewrite H. now exists [].
  - destruct (isWhiteSpace a); [now exists y|now exists (a :: l)].
Qed.

Lemma trimEnd_head c s :
  isWhiteSpace c = false -> exists t, trimEnd (c :: s) = c :: t.
Proof.
  intros H. unfold trimEnd. simpl rev.
  destruct (trimStart_snoc (rev s) c H) as [y ->].
  rewrite rev_app_distr. simpl. now exists (rev y).
Qed.

Lemma trimEnd_idempotent s : trimEnd (trimEnd s) = trimEnd s.
Proof.
  unfold trimEnd. rewrite rev_involutive. f_equal.
  pose proof (trimStart_head (rev s)) as H.
  destruct (trimStart (rev s)) as [|c t]; [reflexivity|].
  now apply trimStart_fixed.
Qed.

Lemma trim_head s :
  match trim s with
  | [] => True
  | c :: _ => isWhiteSpace c = false
  end.
Proof.
  unfold trim. pose proof (trimStart_head s) as H.
  destruct (trimStart s) as [|c t]; [exact I|].
  destruct (trimEnd_head c t H) as [t' ->]. exact H.
Qed.

Lemma trim_idempotent s : trim (trim s) = trim s.
Proof.
  pose proof (trim_head s) as H. unfold trim at 1.
  destruct (trim s) as [|c t] eqn:E; [reflexivity|].
  rewrite (trimStart_fixed c t H). rewrite <- E. unfold trim.
  apply trimEnd_idempotent.
Qed.

Lemma trim_nonspace_head c s : isWhiteSpace c = false -> trim (c :: s) <> [].
Proof.
  intros H. unfold trim. rewrite (trimStart_fixed c s H).
  destruct (trimEnd_head c s H) as [t ->]. discriminate.
Qed.

(** *** Lines *)

Lemma split_head sep c s :
  (c =? sep)%N = false -> exists l ls, split sep (c :: s) = (c :: l) :: ls.
Proof.
  intros H. simpl. rewrite H.
  destruct (split sep s) as [|l ls]; eauto.
Qed.

(** A text with something to read has a first non-blank line. *)
Lemma nonBlankLines_nonempty s : trim s <> [] -> nonBlankLines s <> [].
Proof.
  intros H. unfold nonBlankLines. pose proof (trim_head s) as Hh.
  destruct (trim s) as [|c t]; [contradiction|].
  assert (Hc : (c =? LF)%N = false).
  { destruct (N.eqb_spec c LF) as [->|]; [discriminate|reflexivity]. }
  destruct (split_head LF c t Hc) as (l & ls & ->). simpl.
  pose proof (trim_nonspace_head c l Hh) as Hn.
  destruct (trim (c :: l)); [contradiction|]. discriminate.
Qed.

Lemma nonBlankLines_iff s : nonBlankLines s = [] <-> trim s = [].
Proof.
  split; [|apply nonBlankLines_blank].
  intros H. destruct (trim s) as [|c t] eqn:E; [reflexivity|].
  exfalso. apply (nonBlankLines_nonempty s); [rewrite E; discriminate|exact H].
Qed.

Lemma nonBlankLines_In s line : In line (nonBlankLines s) -> trim line <> [].
Proof.
  unfold nonBlankLines. intros H. apply filter_In in H. destruct H as [_ H].
  destruct (trim line); [discriminate|discriminate].
Qed.

(** X1: white space around the text makes no difference. *)
Theorem parseMessage_ignores_outer_space :
  forall (s : jsstring) (timestamp : Z) (hasMedia : bool),
    parseMessage (VString (trim s)) timestamp hasMedia
    = parseMessage (VString s) timestamp hasMedia.
Proof.
  intros s timestamp hasMedia. unfold parseMessage.
  assert (Hl : nonBlankLines (trim s) = nonBlankLines s).
  { unfold nonBlankLines. now rewrite trim_idempotent. }
  destruct s as [|c s]; [reflexivity|].
  destruct (trim (c :: s)) as [|d t] eqn:E.
  - cbn [truthy typeof_string negb orb].
    now rewrite (nonBlankLines_blank _ E).
  - cbn [truthy typeof_string negb orb]. now rewrite Hl.
Qed.

Lemma reporter_empty_noText messageText timestamp hasMedia :
  reporter (parseMessage messageText timestamp hasMedia) = [] <-> noText messageText.
Proof.
  unfold parseMessage.
  destruct messageText as [| |b|z| |s|];
    cbn [truthy typeof_string negb orb noText];
    try (split; [intros _; exact I|reflexivity]).
  - destruct b; split; auto.
  - destruct (negb (z =? 0)); split; auto.
  - destruct s as [|c s]; cbn [negb orb]; [split; reflexivity|].
    destruct (nonBlankLines (c :: s)) as [|line0 rest] eqn:E.
    + split; [intros _|reflexivity]. now apply nonBlankLines_iff.
    + cbn [reporter].
      assert (Hin : In line0 (nonBlankLines (c :: s))) by (rewrite E; now left).
      apply nonBlankLines_In in Hin. split; [intros K; contradiction|].
      intros K. apply nonBlankLines_iff in K. rewrite K in E. discriminate.
Qed.


(** X2: the reporter is empty exactly when the text has nothing to read;
    otherwise it is the trimmed first non-blank line: not empty, no white
    space at either end. *)
Theorem reporter_empty_iff_no_text :
  forall (messageText : JSValue) (timestamp : Z) (hasMedia : bool),
    let r := parseMessage messageText timestamp hasMedia in
    (reporter r = [] <-> noText messageText)
    /\ trim (reporter r) = reporter r.
Proof.
  intros messageText timestamp hasMedia r. subst r.
  split; [apply reporter_empty_noText|].
  unfold parseMessage.
  destruct (negb (truthy messageText) || negb (typeof_string messageText));
    [reflexivity|].
  destruct messageText; try reflexivity.
  destruct (nonBlankLines s); [reflexivity|]. cbn [reporter].
  apply trim_idempotent.
Qed.

(** *** The content *)

Lemma sameLetter_LF p : sameLetter p LF -> p = LF.
Proof. unfold sameLetter, LF. intros [H|[[H1 H2]|[H1 H2]]]; lia. Qed.

Lemma Forall2_sameLetter_LF word : forall w,
  Forall2 sameLetter word w -> In LF w -> In LF word.
Proof.
  induction word as [|p word IH]; intros w F H; inversion F; subst;
    [contradiction|].
  destruct H as [E|H].
  - left. subst y. now apply sameLetter_LF.
  - right. eauto.
Qed.

Lemma Forall2_nonempty {A B} (R : A -> B -> Prop) x xs w :
  Forall2 R (x :: xs) w -> w <> [].
Proof. intros F. inversion F. discriminate. Qed.

(** No source tag survives in what is left of the lines. *)
Lemma contentOf_untagged lines : sourceTagPattern_test (contentOf lines) = false.
Proof.
  destruct (sourceTagPattern_test (contentOf lines)) eqn:E; [|reflexivity].
  exfalso. unfold sourceTagPattern_test in E.
  apply test_alternatives_ci_spec in E.
  destruct E as (word & Hword & pre & w & post & Hc & F).
  assert (Hw : w <> [] /\ ~ In LF w).
  { destruct Hword as [<-|[<-|[<-|[]]]]; (split;
      [eapply Forall2_nonempty; exact F|]);
      intros K; apply (Forall2_sameLetter_LF _ _ F) in K; vm_compute in K;
      repeat destruct K as [K|K]; try discriminate; contradiction. }
  destruct Hw as [Hne Hlf].
  assert (Hsub : isSubstring w (contentOf lines)) by (now exists pre, post).
  unfold contentOf in Hsub. apply isSubstring_trim in Hsub.
  apply isSubstring_join in Hsub; [|assumption|assumption].
  destruct Hsub as (line & Hin & pre' & post' & Hline).
  apply filter_In in Hin. destruct Hin as [_ Hin].
  apply negb_true_iff in Hin.
  assert (K : sourceTagPattern_test line = true).
  { unfold sourceTagPattern_test. apply test_alternatives_ci_spec.
    exists word. split; [assumption|]. now exists pre', w, post'. }
  congruence.
Qed.

(** X3: whatever the text, the content holds none of the three source tags
    and has no white space at either end. *)
Theorem content_holds_no_source_tag :
  forall (messageText : JSValue) (timestamp : Z) (hasMedia : bool),
    let r := parseMessage messageText timestamp hasMedia in
    sourceTagPattern_test (content r) = false
    /\ trim (content r) = content r.
Proof.
  intros messageText timestamp hasMedia r. subst r. unfold parseMessage.
  destruct (negb (truthy messageText) || negb (typeof_string messageText));
    [split; reflexivity|].
  destruct messageText as [| |b|z| |s|]; try (split; reflexivity).
  destruct (nonBlankLines s) as [|line0 rest]; [split; reflexivity|].
  cbn [content]. split; [apply contentOf_untagged|].
  unfold contentOf. apply trim_idempotent.
Qed.

(** *** The links *)

(** A match is a scheme, [://] and a non-empty run without white space. *)
Lemma linkAt_shape s u :
  linkAt s = Some u ->
  exists run, run <> [] /\ noSpace run
    /\ (u = str "http://" ++ run \/ u = str "https://" ++ run).
Proof.
  unfold linkAt.
  assert (attempt : forall scheme rest v,
    match stripPrefix (str "://") rest with
    | Some body =>
        match takeNonSpace body with
        | [] => None
        | c :: run => Some (scheme ++ str "://" ++ c :: run)
        end
    | None => None
    end = Some v ->
    exists run, run <> [] /\ noSpace run /\ v = scheme ++ str "://" ++ run).
  { intros scheme rest v H.
    destruct (stripPrefix (str "://") rest) as [body|]; [|discriminate].
    pose proof (takeNonSpace_noSpace body) as Hns.
    destruct (takeNonSpace body) as [|c run]; [discriminate|].
    inversion H; subst v. exists (c :: run).
    split; [discriminate|]. split; [exact Hns|reflexivity]. }
  destruct (stripPrefix (str "http") s) as [r|]; [|discriminate].
  assert (Hhttp : forall rest v,
    match stripPrefix (str "://") rest with
    | Some body =>
        match takeNonSpace body with
        | [] => None
        | c :: run => Some (str "http" ++ str "://" ++ c :: run)
        end
    | None => None
    end = Some v ->
    exists run, run <> [] /\ noSpace run
      /\ (v = str "http://" ++ run \/ v = str "https://" ++ run)).
  { intros rest v H. apply attempt in H. destruct H as (run & H1 & H2 & ->).
    exists run. split; [assumption|]. split; [assumption|]. now left. }
  destruct r as [|c r']; [apply Hhttp|].
  destruct (c =? 115)%N; [|apply Hhttp].
  destruct (stripPrefix (str "://") r') as [body|] eqn:E1; [|apply Hhttp].
  destruct (takeNonSpace body) as [|d run] eqn:E2; [apply Hhttp|].
  intros H.
  assert (K := attempt (str "https") r' u). rewrite E1, E2 in K.
  destruct (K H) as (run' & H1 & H2 & ->).
  exists run'. split; [assumption|]. split; [assumption|]. now right.
Qed.

Lemma matchLinks_from_shape s : forall skip u,
  In u (matchLinks_from skip s) ->
  exists run, run <> [] /\ noSpace run
    /\ (u = str "http://" ++ run \/ u = str "https://" ++ run).
Proof.
  induction s as [|c s IH]; intros skip u H; simpl in H; [contradiction|].
  destruct skip as [|k]; [|eauto].
  destruct (linkAt (c :: s)) as [v|] eqn:E; [|eauto].
  destruct H as [->|H]; [|eauto]. now apply linkAt_shape in E.
Qed.

(** X4: every link of the result starts with [http://] or [https://], goes
    on with at least one character, holds no white space and occurs in the
    content. *)
Theorem links_are_urls_of_the_content :
  forall (messageText : JSValue) (timestamp : Z) (hasMedia : bool) (u : jsstring),
    In u (links (parseMessage messageText timestamp hasMedia)) ->
    (exists run, run <> [] /\ noSpace run
       /\ (u = str "http://" ++ run \/ u = str "https://" ++ run))
    /\ isSubstring u (content (parseMessage messageText timestamp hasMedia)).
Proof.
  intros messageText timestamp hasMedia u. unfold parseMessage.
  destruct (negb (truthy messageText) || negb (typeof_string messageText));
    [intros []|].
  destruct messageText as [| |b|z| |s|]; try (intros []).
  destruct (nonBlankLines s) as [|line0 rest]; [intros []|].
  cbn [links content]. unfold matchLinks. intros H. split.
  - now apply matchLinks_from_shape in H.
  - now apply matchLinks_from_substring in H.
Qed.

Lemma links_are_urls_witness :
  (exists run, run <> [] /\ noSpace run
     /\ (str "https://a.test/x" = str "http://" ++ run
         \/ str "https://a.test/x" = str "https://" ++ run))
  /\ isSubstring (str "https://a.test/x")
       (content (parseMessage
                   (VString (str "R" ++ [LF] ++ str "see https://a.test/x now"))
                   0 false)).
Proof.
  apply (links_are_urls_of_the_content
           (VString (str "R" ++ [LF] ++ str "see https://a.test/x now")) 0 false
           (str "https://a.test/x")).
  vm_compute. left. reflexivity.
Defined.

(** *** Links line by line *)


















End ParserMore.

(* ================================================================== *)
(** ** [formatDate] and [formatTime]                              *)
(* ================================================================== *)

Module FormatFacts.
Import DecimalPos DecimalZ.
Import JS JSDate Parser Props MoreProps JSDateFacts.

(** *** Decimal texts *)

Lemma str_inj a b : str a = str b -> a = b.
Proof.
  unfold str. revert b. induction a as [|x a IH]; intros [|y b] H;
    simpl in H; try discriminate; [reflexivity|].
  inversion H as [[H1 H2]]. f_equal; [|now apply IH].
  rewrite <- (ascii_N_embedding x), <- (ascii_N_embedding y). now rewrite H1.
Qed.

Lemma to_int_proper z : Z.to_int z <> Decimal.Pos Decimal.Nil
                        /\ Z.to_int z <> Decimal.Neg Decimal.Nil.
Proof.
  destruct z as [|p|p]; simpl; split; try discriminate;
    intros H; inversion H as [K]; now apply Unsigned.to_uint_nonnil in K.
Qed.

(** [String] of an integer tells the integer. *)
Lemma String_of_Z_inj a b : String_of_Z a = String_of_Z b -> a = b.
Proof.
  unfold String_of_Z. intros H. apply str_inj in H.
  apply DecimalZ.to_int_inj.
  destruct (to_int_proper a) as [Ha1 Ha2], (to_int_proper b) as [Hb1 Hb2].
  pose proof (NilZero.isi _ Ha1 Ha2) as Ia.
  pose proof (NilZero.isi _ Hb1 Hb2) as Ib.
  rewrite H in Ia. rewrite Ia in Ib. now inversion Ib.
Qed.

(** A check on every number below [n] holds for each of them. *)
Lemma below_forall (P : Z -> bool) (n : Z) :
  forallb P (map Z.of_nat (seq 0 (Z.to_nat n))) = true ->
  forall z, 0 <= z < n -> P z = true.
Proof.
  intros H z Hz. rewrite forallb_forall in H. apply H.
  apply in_map_iff. exists (Z.to_nat z). split; [lia|].
  apply in_seq. lia.
Qed.

Lemma padStart2_twoDigits z :
  0 <= z < 100 -> padStart2 (String_of_Z z) = twoDigits z.
Proof.
  intros Hz.
  assert (K : jsstring_eqb (padStart2 (String_of_Z z)) (twoDigits z) = true).
  { apply (below_forall
             (fun z => jsstring_eqb (padStart2 (String_of_Z z)) (twoDigits z))
             100); [vm_compute; reflexivity|exact Hz]. }
  unfold jsstring_eqb in K.
  destruct (list_eq_dec N.eq_dec _ _); [assumption|discriminate].
Qed.

Lemma twoDigits_inj a b :
  0 <= a < 100 -> 0 <= b < 100 -> twoDigits a = twoDigits b -> a = b.
Proof.
  unfold twoDigits. intros Ha Hb H.
  assert (K : forall x1 x2 y1 y2 : N, [x1; x2] = [y1; y2] -> x1 = y1 /\ x2 = y2)
    by (intros x1 x2 y1 y2 E; split; congruence).
  apply K in H. destruct H as [H1 H2]. clear K.
  assert (0 <= a / 10 /\ 0 <= b / 10 /\ 0 <= a mod 10 /\ 0 <= b mod 10)
    as (A1 & B1 & A2 & B2) by (Z.div_mod_to_equations; lia).
  apply Z2N.inj in H1; [|lia|lia]. apply Z2N.inj in H2; [|lia|lia].
  rewrite (Z.div_mod a 10), (Z.div_mod b 10) by lia. lia.
Qed.

(** *** Valid timestamps *)

Lemma new_Date_valid t : validTimestamp t -> new_Date (t * 1000) = TimeValue (t * 1000).
Proof.
  unfold validTimestamp, new_Date. intros H.
  destruct (Z.leb_spec (Z.abs (t * 1000)) 8640000000000000); [reflexivity|lia].
Qed.

Lemma new_Date_invalid t : ~ validTimestamp t -> new_Date (t * 1000) = InvalidDate.
Proof.
  unfold validTimestamp, new_Date. intros H.
  destruct (Z.leb_spec (Z.abs (t * 1000)) 8640000000000000); [lia|reflexivity].
Qed.

Lemma Day_seconds t : Day (t * 1000) = t / 86400.
Proof.
  unfold Day, msPerDay. change 86400000 with (86400 * 1000).
  apply Z.div_mul_cancel_r; lia.
Qed.

Lemma Hour_seconds t : HourFromTime (t * 1000) = (t / 3600) mod 24.
Proof.
  unfold HourFromTime, msPerHour. change 3600000 with (3600 * 1000).
  now rewrite Z.div_mul_cancel_r by lia.
Qed.

Lemma Min_seconds t : MinFromTime (t * 1000) = (t / 60) mod 60.
Proof.
  unfold MinFromTime, msPerMinute. change 60000 with (60 * 1000).
  now rewrite Z.div_mul_cancel_r by lia.
Qed.

Lemma formatTime_valid t :
  validTimestamp t ->
  formatTime t = twoDigits ((t / 3600) mod 24) ++ colon ++ twoDigits ((t / 60) mod 60).
Proof.
  intros H. unfold formatTime. rewrite (new_Date_valid t H).
  cbn [getUTCHours getUTCMinutes getter String_of_number].
  rewrite Hour_seconds, Min_seconds.
  rewrite !padStart2_twoDigits; [reflexivity| |];
    Z.div_mod_to_equations; lia.
Qed.

Lemma formatDate_valid t :
  validTimestamp t ->
  formatDate t
  = twoDigits (DateFromTime (t * 1000)) ++ slash
    ++ twoDigits (MonthFromTime (t * 1000) + 1) ++ slash
    ++ String_of_Z (YearFromTime (t * 1000)).
Proof.
  intros H. unfold formatDate. rewrite (new_Date_valid t H).
  cbn [getUTCDate getUTCMonth getUTCFullYear getter String_of_number plus1 option_map].
  pose proof (DateFromTime_range (t * 1000)).
  pose proof (MonthFromTime_range (t * 1000)).
  rewrite !padStart2_twoDigits; [reflexivity|lia|lia].
Qed.

Lemma DayWithinYear_from_date t :
  DayWithinYear t = monthStart (MonthFromTime t) (InLeapYear t) + DateFromTime t - 1.
Proof.
  unfold DateFromTime, MonthFromTime. cbv zeta.
  repeat match goal with
         | |- context [if ?a <? ?b then _ else _] => destruct (a <? b)
         end; cbn [monthStart]; lia.
Qed.

Lemma Day_from_date t :
  Day t = DayFromYear (YearFromTime t)
          + monthStart (MonthFromTime t) (InLeapYear t) + DateFromTime t - 1.
Proof.
  pose proof (DayWithinYear_from_date t) as H.
  unfold DayWithinYear in H at 1. lia.
Qed.

(** Year, month and day of the month depend on the day alone. *)
Lemma calendar_of_day a b :
  Day a = Day b ->
  YearFromTime a = YearFromTime b
  /\ MonthFromTime a = MonthFromTime b
  /\ DateFromTime a = DateFromTime b.
Proof.
  intros H.
  assert (Hy : YearFromTime a = YearFromTime b)
    by (unfold YearFromTime; now rewrite H).
  assert (Hl : InLeapYear a = InLeapYear b)
    by (unfold InLeapYear; now rewrite Hy).
  assert (Hd : DayWithinYear a = DayWithinYear b)
    by (unfold DayWithinYear; now rewrite H, Hy).
  assert (Hm : MonthFromTime a = MonthFromTime b)
    by (unfold MonthFromTime; now rewrite Hd, Hl).
  split; [assumption|]. split; [assumption|].
  unfold DateFromTime. now rewrite Hd, Hl, Hm.
Qed.

Lemma date_parts (x1 x2 x3 x4 y1 y2 y3 y4 : N) (s t : jsstring) :
  [x1; x2] ++ slash ++ [x3; x4] ++ slash ++ s
  = [y1; y2] ++ slash ++ [y3; y4] ++ slash ++ t ->
  [x1; x2] = [y1; y2] /\ [x3; x4] = [y3; y4] /\ s = t.
Proof. intros H. inversion H. auto. Qed.

Lemma time_parts (x1 x2 x3 x4 y1 y2 y3 y4 : N) :
  [x1; x2] ++ colon ++ [x3; x4] = [y1; y2] ++ colon ++ [y3; y4] ->
  [x1; x2] = [y1; y2] /\ [x3; x4] = [y3; y4].
Proof. intros H. inversion H. auto. Qed.

(** X6: two valid timestamps print the same date exactly when they fall on
    the same UTC day. *)
Theorem formatDate_same_day :
  forall a b : Z,
    validTimestamp a -> validTimestamp b ->
    (formatDate a = formatDate b <-> a / 86400 = b / 86400).
Proof.
  intros a b Ha Hb. rewrite (formatDate_valid a Ha), (formatDate_valid b Hb).
  rewrite <- !Day_seconds. split.
  - unfold twoDigits at 1 2 3 4. intros H. apply date_parts in H.
    destruct H as (Hd & Hm & Hy).
    fold (twoDigits (DateFromTime (a * 1000))) in Hd.
    fold (twoDigits (DateFromTime (b * 1000))) in Hd.
    fold (twoDigits (MonthFromTime (a * 1000) + 1)) in Hm.
    fold (twoDigits (MonthFromTime (b * 1000) + 1)) in Hm.
    pose proof (DateFromTime_range (a * 1000)).
    pose proof (DateFromTime_range (b * 1000)).
    pose proof (MonthFromTime_range (a * 1000)).
    pose proof (MonthFromTime_range (b * 1000)).
    apply twoDigits_inj in Hd; [|lia|lia].
    apply twoDigits_inj in Hm; [|lia|lia].
    apply String_of_Z_inj in Hy.
    rewrite (Day_from_date (a * 1000)), (Day_from_date (b * 1000)).
    assert (Hl : InLeapYear (a * 1000) = InLeapYear (b * 1000))
      by (unfold InLeapYear; now rewrite Hy).
    assert (Hm' : MonthFromTime (a * 1000) = MonthFromTime (b * 1000)) by lia.
    now rewrite Hy, Hl, Hm', Hd.
  - intros H. apply calendar_of_day in H. destruct H as (Hy & Hm & Hd).
    now rewrite Hy, Hm, Hd.
Qed.

Lemma formatDate_same_day_witness :
  formatDate 1707580800 = formatDate 1707609599
  <-> 1707580800 / 86400 = 1707609599 / 86400.
Proof.
  refine (formatDate_same_day 1707580800 1707609599 _ _);
    unfold validTimestamp; lia.
Defined.

Lemma minute_of_day t :
  (t / 60) mod 1440 = 60 * ((t / 3600) mod 24) + (t / 60) mod 60.
Proof.
  change 3600 with (60 * 60). rewrite <- Z.div_div by lia.
  generalize (t / 60). intros q. Z.div_mod_to_equations. lia.
Qed.

(** X7: two valid timestamps print the same time exactly when they are at
    the same minute of the UTC day. *)
Theorem formatTime_same_minute :
  forall a b : Z,
    validTimestamp a -> validTimestamp b ->
    (formatTime a = formatTime b <-> (a / 60) mod 1440 = (b / 60) mod 1440).
Proof.
  intros a b Ha Hb. rewrite (formatTime_valid a Ha), (formatTime_valid b Hb).
  rewrite !minute_of_day.
  assert (Ra : 0 <= (a / 3600) mod 24 < 24 /\ 0 <= (a / 60) mod 60 < 60)
    by (split; apply Z.mod_pos_bound; lia).
  assert (Rb : 0 <= (b / 3600) mod 24 < 24 /\ 0 <= (b / 60) mod 60 < 60)
    by (split; apply Z.mod_pos_bound; lia).
  split.
  - unfold twoDigits at 1 2 3 4. intros H. apply time_parts in H.
    destruct H as (Hh & Hm).
    fold (twoDigits ((a / 3600) mod 24)) in Hh.
    fold (twoDigits ((b / 3600) mod 24)) in Hh.
    fold (twoDigits ((a / 60) mod 60)) in Hm.
    fold (twoDigits ((b / 60) mod 60)) in Hm.
    apply twoDigits_inj in Hh; [|lia|lia].
    apply twoDigits_inj in Hm; [|lia|lia]. lia.
  - intros H.
    assert ((a / 3600) mod 24 = (b / 3600) mod 24
            /\ (a / 60) mod 60 = (b / 60) mod 60) as [-> ->] by lia.
    reflexivity.
Qed.

Lemma formatTime_same_minute_witness :
  formatTime 1707580800 = formatTime 59
  <-> (1707580800 / 60) mod 1440 = (59 / 60) mod 1440.
Proof.
  refine (formatTime_same_minute 1707580800 59 _ _);
    unfold validTimestamp; lia.
Defined.

(** X8: the shape of both texts.  For a valid timestamp the date is a
    two-digit day from 01 to 31, a slash, a two-digit month from 01 to 12,
    a slash and the year, and the time is a two-digit hour below 24, a
    colon and a two-digit minute below 60.  For any other timestamp the
    date is NaN/NaN/NaN and the time NaN:NaN; nothing is thrown. *)
Theorem formatDate_formatTime_shape :
  forall t : Z,
    (validTimestamp t ->
     exists d m y h mi,
       1 <= d <= 31 /\ 1 <= m <= 12 /\ 0 <= h < 24 /\ 0 <= mi < 60
       /\ formatDate t = twoDigits d ++ slash ++ twoDigits m ++ slash ++ String_of_Z y
       /\ formatTime t = twoDigits h ++ colon ++ twoDigits mi
       /\ 3600 * h + 60 * mi <= t mod 86400 < 3600 * h + 60 * mi + 60)
    /\ (~ validTimestamp t ->
        formatDate t = str "NaN/NaN/NaN" /\ formatTime t = str "NaN:NaN").
Proof.
  intros t. split.
  - intros H.
    exists (DateFromTime (t * 1000)), (MonthFromTime (t * 1000) + 1),
           (YearFromTime (t * 1000)), ((t / 3600) mod 24), ((t / 60) mod 60).
    pose proof (DateFromTime_range (t * 1000)).
    pose proof (MonthFromTime_range (t * 1000)).
    split; [lia|]. split; [lia|].
    split; [apply Z.mod_pos_bound; lia|]. split; [apply Z.mod_pos_bound; lia|].
    split; [now apply formatDate_valid|]. split; [now apply formatTime_valid|].
    Z.div_mod_to_equations. lia.
  - intros H. unfold formatDate, formatTime.
    rewrite (new_Date_invalid t H). split; reflexivity.
Qed.

Lemma year_four_digits y :
  1000 <= y < 10000 -> List.length (String_of_Z y) = 4%nat.
Proof.
  intros Hy.
  assert (K : (y <? 1000) || (List.length (String_of_Z y) =? 4)%nat = true).
  { apply (below_forall
             (fun z => (z <? 1000) || (List.length (String_of_Z z) =? 4)%nat)
             10000); [vm_compute; reflexivity|lia]. }
  apply orb_true_iff in K. destruct K as [K|K].
  - apply Z.ltb_lt in K. lia.
  - now apply Nat.eqb_eq in K.
Qed.

(** X9: from the epoch to the end of the year 9999 the date has exactly ten
    code units (DD/MM/YYYY) and the time five (HH:MM). *)
Theorem formatDate_fixed_width :
  forall t : Z,
    0 <= t < 253402300800 ->
    List.length (formatDate t) = 10%nat /\ List.length (formatTime t) = 5%nat.
Proof.
  intros t Ht.
  assert (Hv : validTimestamp t) by (unfold validTimestamp; lia).
  rewrite (formatDate_valid t Hv), (formatTime_valid t Hv).
  split; [|reflexivity].
  rewrite !length_app. cbn [twoDigits slash List.length].
  rewrite year_four_digits; [reflexivity|].
  unfold YearFromTime. rewrite Day_seconds.
  pose proof (YearFromDay_spec (t / 86400)) as [H1 H2].
  split.
  - assert (1970 <= YearFromDay (t / 86400)); [|lia].
    apply YearFromDay_largest. change (DayFromYear 1970) with 0.
    apply Z.div_pos; lia.
  - destruct (Z.lt_ge_cases (YearFromDay (t / 86400)) 10000) as [K|K];
      [exact K|].
    assert (DayFromYear 10000 <= DayFromYear (YearFromDay (t / 86400))).
    { destruct (Z.eq_dec (YearFromDay (t / 86400)) 10000) as [->|N]; [lia|].
      apply Z.lt_le_incl, DayFromYear_increasing. lia. }
    change (DayFromYear 10000) with 2932897 in H.
    assert (t / 86400 < 2932897) by (apply Z.div_lt_upper_bound; lia).
    lia.
Qed.

Lemma formatDate_fixed_width_witness :
  List.length (formatDate 1707580800) = 10%nat
  /\ List.length (formatTime 1707580800) = 5%nat.
Proof. apply (formatDate_fixed_width 1707580800). lia. Defined.

End FormatFacts.

(* ================================================================== *)
(** ** [parseMessage] never throws, and the date it prints             *)
(* ================================================================== *)

Module TotalityFacts.
Import JS JSDate Parser Effects Props MoreProps JSDateFacts JSFacts ParserFacts.
Import FormatFacts.

(** *** The calendar *)

Lemma DaysInYear_daysInYear y : DaysInYear y = daysInYear y.
Proof.
  unfold DaysInYear, daysInYear, leapYear.
  destruct (Z.eqb_spec (y mod 4) 0), (Z.eqb_spec (y mod 100) 0),
           (Z.eqb_spec (y mod 400) 0); simpl; try reflexivity;
    exfalso; Z.div_mod_to_equations; lia.
Qed.

Lemma countFrom_S first count :
  countFrom first (S count) = countFrom first count ++ [first + Z.of_nat count].
Proof. unfold countFrom. now rewrite seq_S, map_app. Qed.

Lemma sumZ_app l1 l2 : sumZ (l1 ++ l2) = sumZ l1 + sumZ l2.
Proof.
  unfold sumZ. induction l1 as [|x l1 IH]; simpl; [reflexivity|].
  rewrite IH. lia.
Qed.

(** The days of [count] years on end are the distance between the first
    days of the years at both ends. *)
Lemma years_between first count :
  sumZ (map daysInYear (countFrom first count))
  = DayFromYear (first + Z.of_nat count) - DayFromYear first.
Proof.
  induction count as [|count IH].
  - cbn [countFrom seq map sumZ fold_right Z.of_nat]. rewrite Z.add_0_r. lia.
  - rewrite countFrom_S, map_app, sumZ_app, IH.
    cbn [map sumZ fold_right]. rewrite <- DaysInYear_daysInYear.
    replace (first + Z.of_nat (S count)) with (first + Z.of_nat count + 1) by lia.
    rewrite DayFromYear_step. lia.
Qed.

Lemma daysBeforeYear_DayFromYear y : daysBeforeYear y = DayFromYear y.
Proof.
  unfold daysBeforeYear.
  destruct (Z.leb_spec 1970 y).
  - rewrite years_between. replace (1970 + Z.of_nat (Z.to_nat (y - 1970))) with y by lia.
    change (DayFromYear 1970) with 0. lia.
  - rewrite years_between. replace (y + Z.of_nat (Z.to_nat (1970 - y))) with 1970 by lia.
    change (DayFromYear 1970) with 0. lia.
Qed.

Lemma daysBeforeMonth_monthStart y month :
  0 <= month <= 11 ->
  daysBeforeMonth y (month + 1) = monthStart month (if leapYear y then 1 else 0).
Proof.
  intros H.
  assert (K : month = 0 \/ month = 1 \/ month = 2 \/ month = 3 \/ month = 4
              \/ month = 5 \/ month = 6 \/ month = 7 \/ month = 8
              \/ month = 9 \/ month = 10 \/ month = 11) by lia.
  unfold daysBeforeMonth, daysInMonth.
  generalize (leapYear y). intros leap.
  repeat (destruct K as [->|K]; [destruct leap; reflexivity|]).
  subst month. destruct leap; reflexivity.
Qed.

Lemma InLeapYear_leapYear t :
  InLeapYear t = if leapYear (YearFromTime t) then 1 else 0.
Proof.
  unfold InLeapYear. rewrite DaysInYear_daysInYear. unfold daysInYear.
  destruct (leapYear (YearFromTime t)); reflexivity.
Qed.

(** The day of the month is a day of that month. *)
Lemma DateFromTime_in_month t :
  1 <= DateFromTime t <= daysInMonth (YearFromTime t) (MonthFromTime t + 1).
Proof.
  pose proof (DayWithinYear_range t) as Hd.
  rewrite DaysInYear_daysInYear in Hd. unfold daysInYear in Hd.
  unfold DateFromTime, MonthFromTime. cbv zeta.
  rewrite InLeapYear_leapYear. unfold daysInMonth.
  destruct (leapYear (YearFromTime t));
    repeat match goal with
           | |- context [if ?a <? ?b then _ else _] =>
               destruct (Z.ltb_spec a b)
           end; cbn; lia.
Qed.

(** The year, month and day that [Date] gives for a time value are the
    date of the calendar that lies as many days after 1 January 1970 as
    the time value has whole days. *)
Lemma civil_of_time t :
  civilDate (YearFromTime (t * 1000)) (MonthFromTime (t * 1000) + 1)
            (DateFromTime (t * 1000))
  /\ daysFromCivil (YearFromTime (t * 1000)) (MonthFromTime (t * 1000) + 1)
                   (DateFromTime (t * 1000))
     = t / 86400.
Proof.
  pose proof (MonthFromTime_range (t * 1000)) as Hm.
  split; [split; [lia|apply DateFromTime_in_month]|].
  unfold daysFromCivil.
  rewrite daysBeforeYear_DayFromYear, (daysBeforeMonth_monthStart _ _ Hm).
  rewrite <- InLeapYear_leapYear, <- Day_seconds, (Day_from_date (t * 1000)). lia.
Qed.

(** *** The statements of [parseMessage] *)

(** [parseMessage] never throws: its guards keep every call of [trim] on a
    string, and its result is that of the function of [Parser]. *)
Lemma parseMessage_steps messageText timestamp hasMedia :
  ParserSteps.parseMessage messageText timestamp hasMedia
  = Ok (parseMessage messageText timestamp hasMedia).
Proof.
  unfold ParserSteps.parseMessage, parseMessage, emptyParsed.
  destruct messageText as [| |b|z| |s|]; try reflexivity.
  - destruct b; reflexivity.
  - change (typeof_string (VNumber z)) with false. cbn [negb].
    rewrite orb_true_r. reflexivity.
  - destruct s as [|c s]; [reflexivity|].
    change (negb (truthy (VString (c :: s)))
            || negb (typeof_string (VString (c :: s)))) with false.
    cbv iota. cbn [ParserSteps.call_trim].
    change (filter (fun line => truthy (VString (trim line)))
                   (split LF (trim (c :: s))))
      with (nonBlankLines (c :: s)).
    destruct (nonBlankLines (c :: s)) as [|line0 rest]; reflexivity.
Qed.

(** C8: [parseMessage] never throws, whatever its arguments: run statement
    by statement, with the TypeError that each call of a method can throw,
    it returns a record, the one of the function of [Parser] (which builds
    a new record from values it only reads).  The media flag of the record
    is the one given.  For a timestamp in the range of [Date] its date is
    DD/MM/YYYY for the day of the calendar that lies [timestamp / 86400]
    days after 1 January 1970, and its time HH:MM for the hour and the
    minute of that day (UTC, two digits each); for any other timestamp
    they are NaN/NaN/NaN and NaN:NaN.  When the text is null, not a string,
    or empty after trimming, the reporter and the content are empty and
    there is no link. *)
Theorem C8_parseMessage_total_blank :
  forall (messageText : JSValue) (timestamp : Z) (hasMedia : bool),
    let r := parseMessage messageText timestamp hasMedia in
    ParserSteps.parseMessage messageText timestamp hasMedia = Ok r
    /\ Parser.hasMedia r = hasMedia
    /\ (validTimestamp timestamp ->
        exists y m d,
          civilDate y m d
          /\ daysFromCivil y m d = timestamp / 86400
          /\ date r
             = twoDigits d ++ slash ++ twoDigits m ++ slash ++ String_of_Z y
          /\ time r
             = twoDigits ((timestamp / 3600) mod 24) ++ colon
               ++ twoDigits ((timestamp / 60) mod 60))
    /\ (~ validTimestamp timestamp ->
        date r = str "NaN/NaN/NaN" /\ time r = str "NaN:NaN")
    /\ (noText messageText ->
        reporter r = [] /\ content r = [] /\ links r = [] /\ sender r = None).
Proof.
  intros messageText timestamp hasMedia r. subst r.
  assert (Hstamp :
    date (parseMessage messageText timestamp hasMedia) = formatDate timestamp
    /\ time (parseMessage messageText timestamp hasMedia) = formatTime timestamp
    /\ Parser.hasMedia (parseMessage messageText timestamp hasMedia) = hasMedia).
  { unfold parseMessage.
    destruct (negb (truthy messageText) || negb (typeof_string messageText));
      [repeat split; reflexivity|].
    destruct messageText; try (repeat split; reflexivity).
    destruct (nonBlankLines s); repeat split; reflexivity. }
  destruct Hstamp as (Hd & Ht & Hm). rewrite Hd, Ht.
  split; [apply parseMessage_steps|]. split; [exact Hm|].
  split; [|split].
  - intros Hv. destruct (civil_of_time timestamp) as [Hc Hn].
    exists (YearFromTime (timestamp * 1000)), (MonthFromTime (timestamp * 1000) + 1),
           (DateFromTime (timestamp * 1000)).
    split; [exact Hc|]. split; [exact Hn|].
    unfold formatDate, formatTime. rewrite (new_Date_valid timestamp Hv).
    cbn [getUTCDate getUTCMonth getUTCFullYear getUTCHours getUTCMinutes getter
         String_of_number plus1 option_map].
    rewrite Hour_seconds, Min_seconds.
    pose proof (DateFromTime_range (timestamp * 1000)).
    pose proof (MonthFromTime_range (timestamp * 1000)).
    rewrite !padStart2_twoDigits;
      [split; reflexivity|..]; try lia; Z.div_mod_to_equations; lia.
  - intros Hv. unfold formatDate, formatTime.
    rewrite (new_Date_invalid timestamp Hv). split; reflexivity.
  - intros H. unfold parseMessage.
    destruct messageText as [| |b|z| |s|];
      cbn [truthy typeof_string negb orb]; try (repeat split; reflexivity).
    + destruct b; repeat split; reflexivity.
    + destruct (negb (z =? 0)); repeat split; reflexivity.
    + destruct s as [|c s]; cbn [negb orb]; [repeat split; reflexivity|].
      cbn [noText] in H. rewrite (nonBlankLines_blank _ H).
      repeat split; reflexivity.
Qed.

(** A text of white space at 2024-02-10T16:00:00Z: the record with the
    date 10/02/2024 and the time 16:00, and the count of the days of that
    date. *)
Lemma C8_witness :
  ParserSteps.parseMessage (VString (str "   " ++ [LF] ++ str "  ")) 1707580800 true
  = Ok {| reporter := [];
          content := [];
          date := str "10/02/2024";
          time := str "16:00";
          links := [];
          hasMedia := true;
          sender := None |}
  /\ daysFromCivil 2024 2 10 = 1707580800 / 86400
  /\ civilDate 2024 2 10.
Proof.
  destruct (C8_parseMessage_total_blank
              (VString (str "   " ++ [LF] ++ str "  ")) 1707580800 true)
    as (Hrun & _).
  split; [rewrite Hrun; vm_compute; reflexivity|].
  split; [vm_compute; reflexivity|].
  unfold civilDate. vm_compute. intuition discriminate.
Defined.

End TotalityFacts.

(* ================================================================== *)
(** ** The outcomes of a cycle                                    *)
(* ================================================================== *)

Module CycleMore.
Import JS Parser StateManager Effects Exporter Scraper Props MoreProps Examples MoreExamples.
Import JSONText ScraperFacts LoggedFacts CycleFacts WatermarkFacts ParserMore.

(** *** The parsing loop *)


Lemma parseEach_records msgs :
  parsedMessages (parseEach msgs)
  = map recordOf (filter (fun msg => negb (skipped msg)) msgs).
Proof.
  induction msgs as [|msg msgs IH]; [reflexivity|].
  rewrite parseEach_cons, IH. simpl filter.
  destruct (skipped msg); reflexivity.
Qed.



(** *** The outcomes of a cycle *)

Lemma fetchedFor_limitOf chat w :
  fetchedFor chat (isZero (lastProcessedTimestamp (currentState w))) (currentState w)
  = match fetchMessages chat (limitOf w) with
    | Ok raw => Ok (selected w raw)
    | Throw e => Throw e
    end.
Proof.
  unfold fetchedFor, limitOf, selected. rewrite orb_diag.
  destruct (isZero (lastProcessedTimestamp (currentState w)));
    destruct (fetchMessages chat _); reflexivity.
Qed.

(** The timestamp the cycle saves is the maximum of the whole fetch. *)
Lemma Math_max_selected w raw :
  selected w raw <> [] ->
  Math_max (map timestamp (selected w raw)) = Math_max (map timestamp raw).
Proof.
  unfold selected.
  destruct (isZero (lastProcessedTimestamp (currentState w))); [reflexivity|].
  apply Math_max_filter_newer.
Qed.

(** The decision table of [scrape]. *)
Lemma scrape_cases chat w :
  scrape chat w =
  match fetchMessages chat (limitOf w) with
  | Throw e => (w, Ok (failed e))
  | Ok raw =>
      match parsedMessages (parseEach (selected w raw)) with
      | [] =>
          (w, Ok {| success := true; messagesProcessed := 0;
                    isFirstRun := Some (isZero (lastProcessedTimestamp (currentState w)));
                    outputFile := Some config_paths_output; error := None;
                    message := str "No new messages found" |})
      | p :: ps =>
          if Z.of_nat (List.length (selected w raw)) <=? argumentsLimit w then
            if stateWritable w then
              let w1 := withState w (merge (currentState w)
                          (updatesOf chat (currentState w) (selected w raw) (p :: ps))) in
              match exportToCSV (p :: ps)
                      (negb (isZero (lastProcessedTimestamp (currentState w)))) w1 with
              | (w2, Ok _) =>
                  (w2,
                   Ok {| success := true;
                         messagesProcessed := List.length (p :: ps);
                         isFirstRun := Some (isZero (lastProcessedTimestamp (currentState w)));
                         outputFile := Some config_paths_output; error := None;
                         message := str "Successfully processed "
                                      ++ countText (List.length (p :: ps))
                                      ++ str " messages" |})
              | (w2, Throw e) => (w2, Ok (failed e))
              end
            else
              (w, Ok (failed (str "Failed to update state: "
                              ++ str "Failed to save state: " ++ stateError w)))
          else (w, Ok (failed (str "Maximum call stack size exceeded")))
      end
  end.
Proof.
  rewrite scrape_spec. cbv zeta. rewrite scrapeMessages_spec, fetchedFor_limitOf.
  destruct (fetchMessages chat (limitOf w)) as [raw|e]; [|reflexivity].
  destruct (parsedMessages (parseEach (selected w raw))) as [|p ps]; [reflexivity|].
  destruct (Z.of_nat (List.length (selected w raw)) <=? argumentsLimit w);
    [|reflexivity].
  destruct (stateWritable w) eqn:Esw; reflexivity.
Qed.

(** The summaries [scrape] can settle with. *)
Lemma scrape_summary chat w :
  exists s,
    snd (scrape chat w) = Ok s
    /\ ((success s = true
         /\ error s = None
         /\ isFirstRun s = Some (isZero (lastProcessedTimestamp (currentState w)))
         /\ outputFile s = Some config_paths_output)
        \/ (exists e, s = failed e)).
Proof.
  rewrite scrape_cases.
  destruct (fetchMessages chat (limitOf w)) as [raw|e].
  - destruct (parsedMessages (parseEach (selected w raw))) as [|p ps].
    + eexists. split; [reflexivity|]. left. repeat split.
    + destruct (Z.of_nat (List.length (selected w raw)) <=? argumentsLimit w);
        [|eexists; split; [reflexivity|right; eauto]].
      destruct (stateWritable w); [|eexists; split; [reflexivity|right; eauto]].
      cbv zeta. destruct (exportToCSV (p :: ps) _ _) as [w2 [[]|e]].
      * eexists. split; [reflexivity|]. left. repeat split.
      * eexists. split; [reflexivity|]. right. eauto.
  - eexists. split; [reflexivity|]. right. eauto.
Qed.

(** X11: [scrape] rejects only through its logger.  In every world of the
    model and whatever the log does, [scrape] settles with a summary, which
    either reports success, with the mode and the output path, or is the
    failed summary ([success = false], nothing processed and the message
    of the error that stopped the cycle), or it rejects with the error of
    a write of the log.  When every write of the log succeeds it settles,
    and the files are as the cycle leaves them.  When no write of the log
    succeeds it rejects: its first statement throws, the [logger.error] of
    its [catch] throws again, and no file is touched. *)
Theorem scrape_settles_unless_the_log_fails :
  forall chat w l,
    match snd (Logged.scrape chat l w) with
    | Ok s =>
        (success s = true
         /\ error s = None
         /\ isFirstRun s = Some (isZero (lastProcessedTimestamp (currentState w)))
         /\ outputFile s = Some config_paths_output)
        \/ (exists e, s = failed e)
    | Throw e => exists n, Logged.failing l n = Some e
    end
    /\ (Logged.quiet l ->
        exists n s,
          Logged.scrape chat l w = ((Logged.after n l, cycle chat w), Ok s))
    /\ (forall e,
          (forall n, Logged.failing l n = Some e) ->
          Logged.scrape chat l w = ((Logged.after 2 l, w), Throw e)).
Proof.
  intros chat w l. split; [apply scrape_outcomes|]. split.
  - intros Hq. destruct (scrape_quiet chat l w Hq) as [n Hn].
    destruct (scrape_summary chat w) as (s & Hs & _).
    exists n, s. rewrite Hn, Hs. reflexivity.
  - intros e H. now apply scrape_unwritable_log.
Qed.

(** X12: when the fetch throws, the cycle changes no file and reports the
    failure with the message of the source's error. *)
Theorem fetch_failure_changes_nothing :
  forall chat w e,
    fetchMessages chat (limitOf w) = Throw e ->
    scrape chat w = (w, Ok (failed e)).
Proof. intros chat w e H. rewrite scrape_cases, H. reflexivity. Qed.

(** X13: when the state file cannot be written, a cycle with a batch to
    save (of a size the call of [Math.max] takes) stops before the export:
    no file changes, the output file gets no row, and the error message is
    that of the file system behind the prefixes of [updateState] and
    [saveState]. *)
Theorem state_save_failure_exports_nothing :
  forall chat w raw,
    stateWritable w = false ->
    fetchMessages chat (limitOf w) = Ok raw ->
    parsedMessages (parseEach (selected w raw)) <> [] ->
    Z.of_nat (List.length (selected w raw)) <= argumentsLimit w ->
    scrape chat w
    = (w, Ok (failed (str "Failed to update state: Failed to save state: "
                      ++ stateError w))).
Proof.
  intros chat w raw Hsw Hf Hp Hl. rewrite scrape_cases, Hf, Hsw.
  destruct (parsedMessages (parseEach (selected w raw))); [contradiction|].
  destruct (Z.leb_spec (Z.of_nat (List.length (selected w raw))) (argumentsLimit w));
    [reflexivity|lia].
Qed.

(** X14: a cycle with both files writable and a batch to save, of a size
    the call of [Math.max] takes and with a total that stays a safe
    integer.  The state file takes the chat's id and name, the maximum
    timestamp of the whole fetch (the timestamp of a fetched message that
    none exceeds) and the total raised by the size of the batch, and keeps
    its run date; the output file is the header (backfill, or no file yet)
    or the old rows (otherwise) followed by one row per record, in order;
    the summary counts the records. *)
Theorem successful_cycle :
  forall chat w raw,
    let batch := map recordOf (filter (fun msg => negb (skipped msg)) (selected w raw)) in
    let first := isZero (lastProcessedTimestamp (currentState w)) in
    stateWritable w = true ->
    csvWritable w = true ->
    fetchMessages chat (limitOf w) = Ok raw ->
    parsedMessages (parseEach (selected w raw)) <> [] ->
    Z.of_nat (List.length (selected w raw)) <= argumentsLimit w ->
    safeInteger (totalMessagesProcessed (currentState w)
                 + Z.of_nat (List.length batch)) ->
    exists w' s m,
      scrape chat w = (w', Ok s)
      /\ success s = true
      /\ messagesProcessed s = List.length batch
      /\ isFirstRun s = Some first
      /\ In m (map timestamp raw)
      /\ Forall (fun msg => timestamp msg <= m) raw
      /\ stateDoc w'
         = Some {| chatId := Some (chat_id_serialized chat);
                   chatName := Some (chat_name chat);
                   lastProcessedTimestamp := Some m;
                   lastRunDate := lastRunDate (currentState w);
                   totalMessagesProcessed :=
                     totalMessagesProcessed (currentState w)
                     + Z.of_nat (List.length batch) |}
      /\ csvFile w'
         = Some ((if negb first && existsSync w then rowsOf w
                  else [HeaderRow headerTitles])
                 ++ map DataRow (map toRecord batch)).
Proof.
  intros chat w raw batch first Hsw Hcw Hf Hp Hl _. subst batch first.
  rewrite scrape_cases, Hf, Hsw. cbv zeta.
  destruct (Z.leb_spec (Z.of_nat (List.length (selected w raw))) (argumentsLimit w));
    [|lia].
  rewrite <- parseEach_records.
  assert (Hsel : selected w raw <> []) by (now apply parsed_nonempty_fetched).
  assert (Hraw : raw <> []).
  { intros ->. apply Hsel. unfold selected.
    destruct (isZero (lastProcessedTimestamp (currentState w))); reflexivity. }
  destruct raw as [|first rest]; [now contradiction Hraw|].
  destruct (latest_of_fetched first rest) as [Hin Hall].
  set (m := fold_left Z.max (map timestamp rest) (timestamp first)) in *.
  destruct (parsedMessages (parseEach (selected w (first :: rest))))
    as [|p ps] eqn:Ep; [contradiction|].
  rewrite exportToCSV_spec. cbv zeta.
  unfold withState at 1 2 3. unfold setStateDoc at 1 2 3.
  cbn [csvWritable]. rewrite Hcw.
  eexists _, _, m. split; [reflexivity|].
  split; [reflexivity|]. split; [reflexivity|]. split; [reflexivity|].
  split; [exact Hin|]. split; [exact Hall|]. split.
  - unfold withState, setStateDoc, setCsvFile, merge, updatesOf, override.
    cbn [stateDoc u_chatId u_chatName u_lastProcessedTimestamp
         u_lastRunDate u_totalMessagesProcessed].
    rewrite (Math_max_selected w (first :: rest) Hsel). reflexivity.
  - unfold withState, setStateDoc, setCsvFile, existsSync, rowsOf.
    cbn [csvFile recordLines map].
    destruct (negb (isZero (lastProcessedTimestamp (currentState w))));
      destruct (csvFile w); reflexivity.
Qed.

(** X27: a cycle whose messages are more than a call takes as arguments
    fails at [Math.max(...)], before any write: no file changes, nothing
    is exported, and the summary carries the message of the RangeError.
    The next cycle meets the same messages again. *)
Theorem spread_beyond_the_limit_changes_nothing :
  forall chat w raw,
    fetchMessages chat (limitOf w) = Ok raw ->
    parsedMessages (parseEach (selected w raw)) <> [] ->
    argumentsLimit w < Z.of_nat (List.length (selected w raw)) ->
    scrape chat w = (w, Ok (failed (str "Maximum call stack size exceeded"))).
Proof.
  intros chat w raw Hf Hp Hl. rewrite scrape_cases, Hf.
  destruct (parsedMessages (parseEach (selected w raw))); [contradiction|].
  destruct (Z.leb_spec (Z.of_nat (List.length (selected w raw))) (argumentsLimit w));
    [lia|reflexivity].
Qed.

(** The third scenario beside a log file that cannot be written, and
    beside one that takes every line. *)
Lemma scrape_log_witness :
  Logged.scrape (chatOf scenario3) brokenLog (worldAt 1000 true)
  = ((Logged.after 2 brokenLog, worldAt 1000 true),
     Throw (str "EACCES: permission denied, open"))
  /\ exists n s,
       Logged.scrape (chatOf scenario3) silentLog (worldAt 1000 true)
       = ((Logged.after n silentLog, cycle (chatOf scenario3) (worldAt 1000 true)),
          Ok s).
Proof.
  destruct (scrape_settles_unless_the_log_fails
              (chatOf scenario3) (worldAt 1000 true) brokenLog) as (_ & _ & Hb).
  destruct (scrape_settles_unless_the_log_fails
              (chatOf scenario3) (worldAt 1000 true) silentLog) as (_ & Hq & _).
  split; [apply Hb; intros n; reflexivity|apply Hq; intros n; reflexivity].
Defined.

Lemma fetch_failure_witness :
  scrape brokenChat (worldAt 1000 true)
  = (worldAt 1000 true, Ok (failed (str "Evaluation failed: chat not loaded"))).
Proof.
  apply (fetch_failure_changes_nothing brokenChat (worldAt 1000 true)).
  reflexivity.
Defined.

Lemma state_save_failure_witness :
  scrape (chatOf scenario3) (readOnlyState 1000)
  = (readOnlyState 1000,
     Ok (failed (str "Failed to update state: Failed to save state: "
                 ++ stateError (readOnlyState 1000)))).
Proof.
  apply (state_save_failure_exports_nothing
           (chatOf scenario3) (readOnlyState 1000) scenario3).
  - reflexivity.
  - reflexivity.
  - vm_compute. discriminate.
  - vm_compute. discriminate.
Defined.

Lemma successful_cycle_witness :
  exists w' s m,
    scrape (chatOf scenario3) (worldAt 1000 true) = (w', Ok s)
    /\ success s = true
    /\ messagesProcessed s = 1%nat
    /\ isFirstRun s = Some false
    /\ In m [900; 1500; 1200]
    /\ Forall (fun msg => timestamp msg <= m) scenario3
    /\ stateDoc w'
       = Some {| chatId := Some (str "120363401113878063@g.us");
                 chatName := Some (str "N12");
                 lastProcessedTimestamp := Some m;
                 lastRunDate := None;
                 totalMessagesProcessed := 6 |}
    /\ csvFile w'
       = Some (oldRows ++ map DataRow (map toRecord [recordOf (textMessage 1200 report)])).
Proof.
  apply (successful_cycle (chatOf scenario3) (worldAt 1000 true) scenario3).
  - reflexivity.
  - reflexivity.
  - reflexivity.
  - vm_compute. discriminate.
  - vm_compute. discriminate.
  - unfold safeInteger. vm_compute. discriminate.
Defined.

Lemma spread_beyond_the_limit_witness :
  scrape (chatOf history150) (smallEngine 1000)
  = (smallEngine 1000, Ok (failed (str "Maximum call stack size exceeded"))).
Proof.
  apply (spread_beyond_the_limit_changes_nothing
           (chatOf history150) (smallEngine 1000) (recent 100 history150)).
  - reflexivity.
  - vm_compute. discriminate.
  - vm_compute. reflexivity.
Defined.

(** *** What a cycle leaves alone, and what it guarantees *)

Lemma cycle_lastRunDate chat w :
  lastRunDate (currentState (cycle chat w)) = lastRunDate (currentState w).
Proof.
  unfold currentState at 1. rewrite cycle_stateDoc. fold (currentState w).
  destruct (fetchedFor chat _ (currentState w)) as [fetched|e]; [|reflexivity].
  destruct (parsedMessages (parseEach fetched)); [reflexivity|].
  destruct ((Z.of_nat (List.length fetched) <=? argumentsLimit w)
            && stateWritable w); reflexivity.
Qed.

(** A cycle changes the two files and nothing else of the world. *)
Lemma cycle_frame chat w :
  stateWritable (cycle chat w) = stateWritable w
  /\ stateError (cycle chat w) = stateError w
  /\ csvWritable (cycle chat w) = csvWritable w
  /\ csvFailure (cycle chat w) = csvFailure w
  /\ argumentsLimit (cycle chat w) = argumentsLimit w.
Proof.
  unfold cycle. rewrite scrape_cases.
  destruct (fetchMessages chat (limitOf w)) as [raw|e]; [|repeat split].
  destruct (parsedMessages (parseEach (selected w raw))) as [|p ps];
    [repeat split|].
  destruct (Z.of_nat (List.length (selected w raw)) <=? argumentsLimit w);
    [|repeat split].
  destruct (stateWritable w) eqn:E; [|repeat split; cbn [fst]; congruence].
  cbv zeta.
  pose proof (exportToCSV_frame (p :: ps)
                (negb (isZero (lastProcessedTimestamp (currentState w))))
                (withState w (merge (currentState w)
                   (updatesOf chat (currentState w) (selected w raw) (p :: ps)))))
    as (_ & H1 & H2 & H3 & H4 & H5).
  unfold withState, setStateDoc in H1, H2, H3, H4, H5.
  cbn [stateWritable stateError csvWritable csvFailure argumentsLimit]
    in H1, H2, H3, H4, H5.
  destruct (exportToCSV (p :: ps) _ _) as [w2 [[]|e]]; cbn [fst] in *;
    repeat split; congruence.
Qed.

(** X15: no cycle ever writes [lastRunDate]: along any sequence of cycles
    the run date of the state file stays what it was at the start (null on
    a fresh installation). *)
Theorem lastRunDate_never_written :
  forall chats w,
    Forall (fun w' => lastRunDate (currentState w') = lastRunDate (currentState w))
           (trajectory chats w).
Proof.
  induction chats as [|chat chats IH]; intros w; simpl.
  - constructor; [reflexivity|constructor].
  - constructor; [reflexivity|].
    specialize (IH (cycle chat w)). rewrite Forall_forall in IH |- *.
    intros w' Hin. rewrite (IH w' Hin). apply cycle_lastRunDate.
Qed.

Lemma Math_max_bounds xs m y : Math_max xs = Some m -> In y xs -> y <= m.
Proof.
  intros H Hin. apply Math_max_spec in H. destruct H as [_ H].
  rewrite Forall_forall in H. now apply H.
Qed.

(** The state a cycle saves, when it saves one. *)
Lemma cycle_saved chat w raw :
  stateWritable w = true ->
  fetchMessages chat (limitOf w) = Ok raw ->
  parsedMessages (parseEach (selected w raw)) <> [] ->
  Z.of_nat (List.length (selected w raw)) <= argumentsLimit w ->
  exists m,
    Math_max (map timestamp raw) = Some m
    /\ lastProcessedTimestamp (currentState (cycle chat w)) = Some m
    /\ In m (map timestamp (selected w raw)).
Proof.
  intros Hsw Hf Hp Hl.
  assert (Hsel : selected w raw <> []) by (now apply parsed_nonempty_fetched).
  unfold currentState. rewrite cycle_stateDoc, fetchedFor_limitOf, Hf, Hsw.
  destruct (parsedMessages (parseEach (selected w raw))); [contradiction|].
  destruct (Z.leb_spec (Z.of_nat (List.length (selected w raw))) (argumentsLimit w));
    [|lia]. cbn [andb].
  cbn [merge updatesOf override u_lastProcessedTimestamp lastProcessedTimestamp].
  rewrite (Math_max_selected w raw Hsel).
  destruct (Math_max_nonempty (map timestamp (selected w raw))) as [m Hm].
  { intros K. apply map_eq_nil in K. contradiction. }
  exists m. rewrite <- (Math_max_selected w raw Hsel), Hm.
  split; [reflexivity|]. split; [reflexivity|].
  now apply Math_max_spec in Hm.
Qed.

(** X16: the saved timestamp is a high-water mark.  After a cycle that saves
    the state (a writable state file, a batch to save, of a size the call
    of [Math.max] takes), no message of the fetch is newer than the
    watermark, and in an incremental cycle the watermark has strictly
    grown. *)
Theorem watermark_is_high_water_mark :
  forall chat w raw,
    stateWritable w = true ->
    fetchMessages chat (limitOf w) = Ok raw ->
    parsedMessages (parseEach (selected w raw)) <> [] ->
    Z.of_nat (List.length (selected w raw)) <= argumentsLimit w ->
    Forall (fun msg => timestamp msg <= watermark (cycle chat w)) raw
    /\ (isZero (lastProcessedTimestamp (currentState w)) = false ->
        watermark w < watermark (cycle chat w)).
Proof.
  intros chat w raw Hsw Hf Hp Hl.
  assert (Hsel : selected w raw <> []) by (now apply parsed_nonempty_fetched).
  assert (Hts : lastProcessedTimestamp (currentState (cycle chat w))
                = Math_max (map timestamp raw)).
  { unfold currentState. rewrite cycle_stateDoc, fetchedFor_limitOf, Hf, Hsw.
    destruct (parsedMessages (parseEach (selected w raw))); [contradiction|].
    destruct (Z.leb_spec (Z.of_nat (List.length (selected w raw)))
                         (argumentsLimit w)); [|lia].
    cbn [andb merge updatesOf override u_lastProcessedTimestamp
         lastProcessedTimestamp].
    apply (Math_max_selected w raw Hsel). }
  unfold watermark at 1 3. rewrite Hts.
  destruct raw as [|first rest].
  { exfalso. apply Hsel. unfold selected.
    destruct (isZero (lastProcessedTimestamp (currentState w))); reflexivity. }
  destruct (latest_of_fetched first rest) as [_ Hall].
  change (Math_max (map timestamp (first :: rest)))
    with (Some (fold_left Z.max (map timestamp rest) (timestamp first))).
  cbn [toNumber]. split; [exact Hall|].
  intros Hz. unfold selected in Hsel. rewrite Hz in Hsel.
  destruct (filter (isNewer (lastProcessedTimestamp (currentState w)))
                   (first :: rest)) as [|msg others] eqn:Ef;
    [now contradiction Hsel|].
  assert (Hin : In msg (filter (isNewer (lastProcessedTimestamp (currentState w)))
                               (first :: rest)))
    by (rewrite Ef; now left).
  apply filter_In in Hin. destruct Hin as [Hin Hnew].
  unfold isNewer in Hnew. apply Z.ltb_lt in Hnew.
  rewrite Forall_forall in Hall. specialize (Hall msg Hin).
  unfold watermark. lia.
Qed.

Lemma high_water_mark_witness :
  Forall (fun msg => timestamp msg <= watermark (cycle (chatOf scenario3) (worldAt 1000 true)))
         scenario3
  /\ (isZero (lastProcessedTimestamp (currentState (worldAt 1000 true))) = false ->
      watermark (worldAt 1000 true)
      < watermark (cycle (chatOf scenario3) (worldAt 1000 true))).
Proof.
  apply (watermark_is_high_water_mark (chatOf scenario3) (worldAt 1000 true) scenario3).
  - reflexivity.
  - reflexivity.
  - vm_compute. discriminate.
  - vm_compute. discriminate.
Defined.

(** *** Running again *)

Lemma skipn_incl {A} n (l : list A) : incl (skipn n l) l.
Proof.
  revert l. induction n as [|n IH]; intros l; [apply incl_refl|].
  destruct l as [|a l]; [apply incl_refl|].
  simpl. apply incl_tl. apply IH.
Qed.

Lemma chatOf_steady history :
  Forall (fun msg => 0 < timestamp msg) history -> steadySource (chatOf history).
Proof.
  intros H. split.
  - intros limit msgs E. destruct limit as [|n]; simpl in E;
      inversion E; subst msgs; clear E; [assumption|].
    rewrite Forall_forall in H |- *. intros msg Hin. apply H.
    unfold recent in Hin. now apply skipn_incl in Hin.
  - intros r h Er Eh. simpl in Er, Eh. inversion Er; inversion Eh; subst.
    apply skipn_incl.
Qed.

(** X17: a second cycle against the same source finds nothing new.  After
    any cycle with a writable state file, running again changes no file
    and processes no message (so no message is exported twice, and a batch
    whose export failed is not tried again). *)
Theorem rerun_finds_nothing_new :
  forall chat w,
    stateWritable w = true ->
    steadySource chat ->
    cycle chat (cycle chat w) = cycle chat w
    /\ exists s, snd (scrape chat (cycle chat w)) = Ok s /\ messagesProcessed s = 0%nat.
Proof.
  intros chat w Hsw [Hpos Hincl].
  destruct (fetchMessages chat (limitOf w)) as [raw|e] eqn:Hf.
  - destruct (parsedMessages (parseEach (selected w raw))) as [|p ps] eqn:Hp.
    + (* nothing to save: the first cycle changed nothing *)
      assert (E : scrape chat w
                  = (w, Ok {| success := true; messagesProcessed := 0;
                              isFirstRun := Some (isZero (lastProcessedTimestamp (currentState w)));
                              outputFile := Some config_paths_output; error := None;
                              message := str "No new messages found" |}))
        by (rewrite scrape_cases, Hf, Hp; reflexivity).
      unfold cycle. rewrite E. cbn [fst]. rewrite E. split; [reflexivity|].
      eexists. split; reflexivity.
    + destruct (Z.leb_spec (Z.of_nat (List.length (selected w raw)))
                           (argumentsLimit w)) as [Hlim|Hlim].
      2:{ (* too many messages for [Math.max]: nothing changed *)
          assert (E : scrape chat w
                      = (w, Ok (failed (str "Maximum call stack size exceeded")))).
          { rewrite scrape_cases, Hf, Hp.
            destruct (Z.leb_spec (Z.of_nat (List.length (selected w raw)))
                                 (argumentsLimit w)); [lia|reflexivity]. }
          unfold cycle. rewrite E. cbn [fst]. rewrite E. split; [reflexivity|].
          eexists. split; reflexivity. }
      (* a batch was saved: the watermark is now the maximum of the fetch *)
      assert (Hne : parsedMessages (parseEach (selected w raw)) <> [])
        by (rewrite Hp; discriminate).
      destruct (cycle_saved chat w raw Hsw Hf Hne Hlim) as (m & Hm & Hts & Hin).
      assert (Hmpos : 0 < m).
      { apply in_map_iff in Hin. destruct Hin as (msg & <- & Hin).
        pose proof (Hpos _ _ Hf) as K. rewrite Forall_forall in K. apply K.
        unfold selected in Hin.
        destruct (isZero (lastProcessedTimestamp (currentState w)));
          [exact Hin|]. apply filter_In in Hin. tauto. }
      assert (Hz : isZero (lastProcessedTimestamp (currentState (cycle chat w))) = false).
      { rewrite Hts. simpl. apply Z.eqb_neq. lia. }
      assert (Hl : limitOf (cycle chat w) = Limit_ 100)
        by (unfold limitOf; now rewrite Hz).
      assert (Hold : forall recent,
                fetchMessages chat (Limit_ 100) = Ok recent ->
                selected (cycle chat w) recent = []).
      { intros recent Hr. unfold selected. rewrite Hz, Hts.
        assert (Hb : forall msg, In msg recent -> timestamp msg <= m).
        { intros msg Hmsg. apply (Math_max_bounds _ _ _ Hm). apply in_map.
          unfold limitOf in Hf.
          destruct (isZero (lastProcessedTimestamp (currentState w))).
          - apply (Hincl recent raw Hr Hf). exact Hmsg.
          - rewrite Hr in Hf. inversion Hf; subst. exact Hmsg. }
        clear Hr. induction recent as [|msg recent IH]; [reflexivity|].
        simpl. unfold isNewer at 1. cbn [toNumber].
        destruct (Z.ltb_spec m (timestamp msg)) as [K|K].
        - specialize (Hb msg (or_introl eq_refl)). lia.
        - apply IH. intros x Hx. apply Hb. now right. }
      assert (E : exists s, scrape chat (cycle chat w) = (cycle chat w, Ok s)
                            /\ messagesProcessed s = 0%nat).
      { rewrite scrape_cases, Hl.
        destruct (fetchMessages chat (Limit_ 100)) as [recent|e] eqn:Hr.
        - rewrite (Hold recent eq_refl). cbn [parseEach fold_left parsedMessages].
          eexists. split; reflexivity.
        - eexists. split; reflexivity. }
      destruct E as (s & E & Es). split.
      * unfold cycle at 1. now rewrite E.
      * exists s. rewrite E. split; [reflexivity|exact Es].
  - assert (E : scrape chat w = (w, Ok (failed e)))
      by (rewrite scrape_cases, Hf; reflexivity).
    unfold cycle. rewrite E. cbn [fst]. rewrite E. split; [reflexivity|].
    eexists. split; reflexivity.
Qed.

Lemma rerun_witness :
  cycle (chatOf scenario3) (cycle (chatOf scenario3) (worldAt 1000 false))
  = cycle (chatOf scenario3) (worldAt 1000 false)
  /\ exists s,
       snd (scrape (chatOf scenario3) (cycle (chatOf scenario3) (worldAt 1000 false)))
       = Ok s
       /\ messagesProcessed s = 0%nat.
Proof.
  apply (rerun_finds_nothing_new (chatOf scenario3) (worldAt 1000 false)).
  - reflexivity.
  - apply chatOf_steady. repeat constructor.
Defined.

(** *** A write of the log that fails between the two writes of a cycle *)

(** X28: a write of the log that throws after the state update and before
    the export loses the batch.  In a cycle that has a batch and saves the
    state, when the [logger.success] that follows [updateState] throws, or
    the [logger.info] that precedes the export, while the other writes of
    the log succeed, [scrape] settles with the failed summary that carries
    the message of the log's error.  The state file has the new watermark,
    a fetched timestamp that no fetched message exceeds, so that a later
    cycle takes none of these messages; the output file is as it was. *)
Theorem log_failure_after_state_update_loses_the_batch :
  forall chat w raw l e k,
    stateWritable w = true ->
    fetchMessages chat (limitOf w) = Ok raw ->
    parsedMessages (parseEach (selected w raw)) <> [] ->
    Z.of_nat (List.length (selected w raw)) <= argumentsLimit w ->
    (k = 4 \/ k = 5)%nat ->
    Logged.failsOnlyAt k e l ->
    exists state' m,
      Logged.scrape chat l w
      = ((Logged.after 7 l, withState w state'), Ok (failed e))
      /\ lastProcessedTimestamp state' = Some m
      /\ In m (map timestamp raw)
      /\ Forall (fun msg => timestamp msg <= m) raw
      /\ csvFile (withState w state') = csvFile w.
Proof.
  intros chat w raw l e k Hsw Hf Hp Hl Hk Hlog.
  pose proof (failsOnlyAt_steps k e l Hlog) as Hs.
  pose proof (Hs 0%nat) as H0. pose proof (Hs 1%nat) as H1.
  pose proof (Hs 2%nat) as H2. pose proof (Hs 3%nat) as H3.
  pose proof (Hs 4%nat) as H4. pose proof (Hs 5%nat) as H5.
  pose proof (Hs 6%nat) as H6. clear Hs Hlog.
  cbn [Nat.add] in H0, H1, H2, H3, H4, H5, H6.
  assert (Hsel : selected w raw <> []) by (now apply parsed_nonempty_fetched).
  destruct raw as [|first rest].
  { exfalso. apply Hsel. unfold selected.
    destruct (isZero (lastProcessedTimestamp (currentState w))); reflexivity. }
  destruct (latest_of_fetched first rest) as [Hin Hall].
  destruct (parsedMessages (parseEach (selected w (first :: rest))))
    as [|p ps] eqn:Ep; [contradiction|].
  exists (merge (currentState w)
            (updatesOf chat (currentState w) (selected w (first :: rest)) (p :: ps))),
         (fold_left Z.max (map timestamp rest) (timestamp first)).
  split; [|split; [|split; [exact Hin|split; [exact Hall|reflexivity]]]].
  - unfold limitOf in Hf. unfold selected in Ep, Hl |- *.
    unfold Logged.scrape, Logged.scrapeMessages, Logged.tryCatchL, Logged.bindL,
      Logged.quietly, Logged.logger_info, Logged.logger_success,
      Logged.logger_error, Logged.logger_write, Logged.retL, Logged.throwL,
      loadState, lift.
    destruct Hk as [-> | ->]; cbn [Nat.eqb] in H0, H1, H2, H3, H4, H5, H6;
      rewrite H0; cbv beta iota zeta; cbn [Logged.calls Logged.failing fst snd];
      fold (currentState w); rewrite orb_diag;
      destruct (isZero (lastProcessedTimestamp (currentState w)));
      repeat (cbv beta iota zeta; cbn [Logged.calls Logged.failing fst snd];
              first [rewrite H1 | rewrite H2 | rewrite H3 | rewrite Hf | rewrite Ep]);
      cbn [List.length Nat.ltb Nat.leb Nat.eqb]; unfold Math_max_spread;
      rewrite length_map;
      match goal with
      | |- context [?a <=? ?b] => destruct (Z.leb_spec a b); [|lia]
      end;
      rewrite updateState_spec, Hsw;
      repeat (cbv beta iota zeta;
              cbn [Logged.calls Logged.failing fst snd List.length Nat.eqb];
              first [rewrite H4 | rewrite H5 | rewrite H6]);
      reflexivity.
  - cbn [merge updatesOf override u_lastProcessedTimestamp lastProcessedTimestamp].
    rewrite (Math_max_selected w (first :: rest) Hsel). reflexivity.
Qed.

Lemma log_failure_witness :
  exists state' m,
    Logged.scrape (chatOf scenario3) (failingAt 4) (worldAt 1000 true)
    = ((Logged.after 7 (failingAt 4), withState (worldAt 1000 true) state'),
       Ok (failed (str "ENOSPC: no space left on device, write")))
    /\ lastProcessedTimestamp state' = Some m
    /\ In m (map timestamp scenario3)
    /\ Forall (fun msg => timestamp msg <= m) scenario3
    /\ csvFile (withState (worldAt 1000 true) state') = csvFile (worldAt 1000 true).
Proof.
  apply (log_failure_after_state_update_loses_the_batch
           (chatOf scenario3) (worldAt 1000 true) scenario3 (failingAt 4)
           (str "ENOSPC: no space left on device, write") 4).
  - reflexivity.
  - reflexivity.
  - vm_compute. discriminate.
  - vm_compute. discriminate.
  - left. reflexivity.
  - intros i. reflexivity.
Defined.

(** The same cycle with its values: the state file has the watermark 1500
    and the output file its two old rows, and none of the three messages
    is taken by the next cycle. *)
Example log_failure_loses_the_batch :
  snd (Logged.scrape (chatOf scenario3) (failingAt 4) (worldAt 1000 true))
  = Ok (failed (str "ENOSPC: no space left on device, write"))
  /\ lastProcessedTimestamp
       (currentState (snd (fst (Logged.scrape (chatOf scenario3) (failingAt 4)
                                  (worldAt 1000 true)))))
     = Some 1500
  /\ csvFile (snd (fst (Logged.scrape (chatOf scenario3) (failingAt 4)
                         (worldAt 1000 true))))
     = Some oldRows
  /\ selected (snd (fst (Logged.scrape (chatOf scenario3) (failingAt 4)
                          (worldAt 1000 true)))) scenario3
     = [].
Proof. vm_compute. repeat split. Qed.

End CycleMore.

(* ================================================================== *)
(** ** The state manager and the exporter, composed               *)
(* ================================================================== *)

Module StoreMore.
Import JS Parser StateManager Effects Exporter Scraper Props MoreProps Examples MoreExamples.
Import ScraperFacts ExporterFacts.

(** *** [updateState] *)

Lemma merge_merge s u1 u2 :
  merge (merge s u1) u2 = merge s (bothUpdates u1 u2).
Proof.
  unfold merge, bothUpdates, override, later. simpl.
  destruct u1 as [a1 b1 c1 d1 e1], u2 as [a2 b2 c2 d2 e2]; simpl.
  destruct a2, b2, c2, d2, e2; reflexivity.
Qed.

(** X18: [updateState] reads the current state (the default one when there
    is no file), puts the given fields over it and saves the whole: a
    following [loadState] returns the merged state, with every field the
    update does not name as it was.  When the file cannot be written it
    throws, with the prefixes of both functions, and the state is as
    before. *)
Theorem updateState_then_loadState :
  forall updates w,
    (stateWritable w = true ->
     (updateState updates ;;; loadState) w
     = (withState w (merge (currentState w) updates),
        Ok {| chatId := override (chatId (currentState w)) (u_chatId updates);
              chatName := override (chatName (currentState w)) (u_chatName updates);
              lastProcessedTimestamp :=
                override (lastProcessedTimestamp (currentState w))
                         (u_lastProcessedTimestamp updates);
              lastRunDate :=
                override (lastRunDate (currentState w)) (u_lastRunDate updates);
              totalMessagesProcessed :=
                override (totalMessagesProcessed (currentState w))
                         (u_totalMessagesProcessed updates) |}))
    /\ (stateWritable w = false ->
        (updateState updates ;;; loadState) w
        = (w, Throw (str "Failed to update state: Failed to save state: "
                     ++ stateError w))).
Proof.
  intros updates w. unfold bind. rewrite updateState_spec.
  split; intros H; rewrite H; reflexivity.
Qed.

(** X19: two updates in a row are one update with the fields of both, the
    later one winning where both name a field; this holds for the files
    and for the outcome, a failure included. *)
Theorem updateState_twice :
  forall u1 u2 w,
    (updateState u1 ;;; updateState u2) w = updateState (bothUpdates u1 u2) w.
Proof.
  intros u1 u2 w. unfold bind. rewrite !updateState_spec.
  destruct (stateWritable w) eqn:E; [|reflexivity].
  rewrite updateState_spec. unfold withState at 1 2. unfold setStateDoc at 1 2.
  cbn [stateWritable].
  rewrite E. unfold currentState at 1. unfold withState, setStateDoc.
  cbn [stateDoc stateWritable stateError csvFile csvWritable csvFailure
       argumentsLimit].
  now rewrite merge_merge.
Qed.

(** *** Appending in several calls *)

(** The file after a sequence of appends that are all written. *)
Lemma appendAll_rows batches : forall w,
  csvWritable w = true ->
  batches <> [] ->
  csvFile (appendAll batches w)
  = Some ((if existsSync w then rowsOf w else [HeaderRow headerTitles])
          ++ flat_map (fun batch => recordLines (map toRecord batch)) batches)
  /\ stateDoc (appendAll batches w) = stateDoc w.
Proof.
  induction batches as [|b batches IH]; intros w Hw Hne; [contradiction|].
  clear Hne.
  change (appendAll (b :: batches) w)
    with (appendAll batches (fst (exportToCSV b true w))).
  pose proof (exportToCSV_frame b true w) as (Hd & _ & _ & Hw' & _).
  cbv zeta in Hd, Hw'. rewrite Hw in Hw'.
  assert (Hf : csvFile (fst (exportToCSV b true w))
               = Some ((if existsSync w then rowsOf w else [HeaderRow headerTitles])
                       ++ recordLines (map toRecord b))).
  { rewrite exportToCSV_spec. cbv zeta. rewrite Hw. cbn [andb fst setCsvFile csvFile].
    unfold existsSync, rowsOf. destruct (csvFile w); reflexivity. }
  destruct batches as [|b' batches].
  - cbn [appendAll fold_left flat_map]. rewrite app_nil_r. now split.
  - destruct (IH (fst (exportToCSV b true w)) Hw' ltac:(discriminate)) as [K1 K2].
    rewrite K1, K2. split; [|exact Hd].
    unfold existsSync, rowsOf. rewrite Hf.
    change (flat_map (fun batch => recordLines (map toRecord batch)) (b :: b' :: batches))
      with (recordLines (map toRecord b)
            ++ flat_map (fun batch => recordLines (map toRecord batch)) (b' :: batches)).
    now rewrite app_assoc.
Qed.

Lemma recordLines_concat (batches : list (list ParsedMessage)) :
  batches <> [] ->
  Forall (fun batch => batch <> []) batches ->
  flat_map (fun batch => recordLines (map toRecord batch)) batches
  = recordLines (map toRecord (List.concat batches)).
Proof.
  intros Hne Hall.
  assert (K : flat_map (fun batch => recordLines (map toRecord batch)) batches
              = map DataRow (map toRecord (List.concat batches))).
  { clear Hne. induction Hall as [|b batches Hb Hall IH]; [reflexivity|].
    cbn [flat_map List.concat]. rewrite IH, !map_app.
    destruct b as [|m b]; [contradiction|reflexivity]. }
  rewrite K. destruct batches as [|b batches]; [contradiction|].
  inversion Hall as [|? ? Hb _]; subst.
  destruct b as [|m b]; [contradiction|reflexivity].
Qed.

(** X20: appending batch after batch to an output file that can be written
    leaves, behind what was there (or behind a new header), the lines of
    every batch in order, an empty batch leaving an empty line.  When no
    batch is empty, that is the file one append of all the records
    leaves. *)
Theorem appendAll_is_one_append :
  forall batches w,
    batches <> [] ->
    csvWritable w = true ->
    csvFile (appendAll batches w)
    = Some ((if existsSync w then rowsOf w else [HeaderRow headerTitles])
            ++ flat_map (fun batch =>
                           match batch with
                           | [] => [BlankRow]
                           | _ :: _ => map DataRow (map toRecord batch)
                           end) batches)
    /\ (Forall (fun batch => batch <> []) batches ->
        csvFile (appendAll batches w)
        = csvFile (fst (exportToCSV (List.concat batches) true w))
        /\ csvFile (appendAll batches w)
           = Some ((if existsSync w then rowsOf w else [HeaderRow headerTitles])
                   ++ map DataRow (map toRecord (List.concat batches)))).
Proof.
  intros batches w Hne Hw.
  destruct (appendAll_rows batches w Hw Hne) as [Hrows _].
  split.
  { rewrite Hrows. do 2 f_equal. apply flat_map_ext.
    intros [|m batch]; reflexivity. }
  intros Hall.
  rewrite Hrows, (recordLines_concat batches Hne Hall).
  assert (Hc : List.concat batches <> []).
  { destruct batches as [|b batches]; [contradiction|].
    inversion Hall as [|? ? Hb _]; subst.
    destruct b; [contradiction|discriminate]. }
  split.
  - rewrite exportToCSV_spec. cbv zeta. rewrite Hw.
    cbn [andb fst setCsvFile csvFile]. unfold existsSync, rowsOf.
    destruct (csvFile w); reflexivity.
  - destruct (List.concat batches); [contradiction|reflexivity].
Qed.

Lemma appendAll_witness :
  csvFile
    (appendAll [[parseMessage (VString scenario1) 1707580800 false]; [];
                [parseMessage (VString taggedText) 1707580860 true]] freshWorld)
  = Some ([HeaderRow headerTitles]
          ++ [DataRow (toRecord (parseMessage (VString scenario1) 1707580800 false));
              BlankRow;
              DataRow (toRecord (parseMessage (VString taggedText) 1707580860 true))]).
Proof.
  apply (appendAll_is_one_append
           [[parseMessage (VString scenario1) 1707580800 false]; [];
            [parseMessage (VString taggedText) 1707580860 true]] freshWorld).
  - discriminate.
  - reflexivity.
Defined.

End StoreMore.

(* ================================================================== *)
(** ** The state file: [JSON.stringify] read back by [JSON.parse] *)
(* ================================================================== *)

Module JSONTextFacts.
Import DecimalPos DecimalN DecimalZ DecimalFacts.
Import JS JSON StateManager Props Examples JSONText JSFacts JSONFacts.

(** *** String literals *)

Lemma hexValue_hexDigit n : (n < 16)%N -> hexValue (hexDigit n) = Some n.
Proof.
  intros H. unfold hexDigit, hexValue, isDigit.
  destruct (N.ltb_spec n 10).
  - replace ((48 <=? 48 + n) && (48 + n <=? 57))%N with true.
    + f_equal. lia.
    + symmetry. apply andb_true_iff. split; apply N.leb_le; lia.
  - replace ((48 <=? 87 + n) && (87 + n <=? 57))%N with false.
    + replace ((97 <=? 87 + n) && (87 + n <=? 102))%N with true.
      * f_equal. lia.
      * symmetry. apply andb_true_iff. split; apply N.leb_le; lia.
    + symmetry. apply andb_false_iff. right. apply N.leb_gt. lia.
Qed.

Lemma hex4_digits c :
  (c < 65536)%N ->
  hex4 (hexDigit (c / 4096)) (hexDigit ((c / 256) mod 16))
       (hexDigit ((c / 16) mod 16)) (hexDigit (c mod 16)) = Some c.
Proof.
  intros H. unfold hex4.
  rewrite !hexValue_hexDigit;
    try (apply N.mod_lt; discriminate);
    [|apply N.Div0.div_lt_upper_bound; exact H].
  f_equal.
  assert (E : forall a b : N, b <> 0%N -> a = (b * (a / b) + a mod b)%N)
    by (intros a b Hb; apply N.div_mod; exact Hb).
  pose proof (E c 16%N ltac:(discriminate)) as E1.
  pose proof (E (c / 16)%N 16%N ltac:(discriminate)) as E2.
  pose proof (E (c / 256)%N 16%N ltac:(discriminate)) as E3.
  replace (c / 16 / 16)%N with (c / 256)%N in E2
    by (rewrite N.Div0.div_div; reflexivity).
  replace (c / 256 / 16)%N with (c / 4096)%N in E3
    by (rewrite N.Div0.div_div; reflexivity).
  assert (E4 : (c / 4096 < 16)%N) by (apply N.Div0.div_lt_upper_bound; exact H).
  assert (E5 : ((c / 4096) mod 16 = c / 4096)%N) by (apply N.mod_small; exact E4).
  lia.
Qed.

Lemma parse_chars_literal c X :
  c <> 34%N -> c <> 92%N -> (32 <= c)%N ->
  parse_chars (c :: X)
  = match parse_chars X with
    | Some (cs, rest) => Some (c :: cs, rest)
    | None => None
    end.
Proof.
  intros H1 H2 H3. cbn [parse_chars].
  destruct (N.eqb_spec c 34); [contradiction|].
  destruct (N.eqb_spec c 92); [contradiction|].
  destruct (N.ltb_spec c 32); [lia|reflexivity].
Qed.

Lemma parse_chars_escape e u X :
  escapeOf e = Some u ->
  parse_chars (92%N :: e :: X)
  = match parse_chars X with
    | Some (cs, rest) => Some (u :: cs, rest)
    | None => None
    end.
Proof.
  intros H. cbn [parse_chars]. change (92 =? 34)%N with false.
  change (92 =? 92)%N with true. cbv iota.
  destruct (N.eqb_spec e 117) as [->|]; [discriminate|].
  now rewrite H.
Qed.

Lemma parse_chars_unicode c X :
  (c < 65536)%N ->
  parse_chars (unicodeEscape c ++ X)
  = match parse_chars X with
    | Some (cs, rest) => Some (c :: cs, rest)
    | None => None
    end.
Proof.
  intros H. unfold unicodeEscape. cbn [app parse_chars].
  change (92 =? 34)%N with false. change (92 =? 92)%N with true.
  change (117 =? 117)%N with true. cbv iota.
  now rewrite (hex4_digits c H).
Qed.

Lemma parse_chars_quoteUnit c X :
  isHighSurrogate c = false -> isLowSurrogate c = false ->
  parse_chars (quoteUnit c ++ X)
  = match parse_chars X with
    | Some (cs, rest) => Some (c :: cs, rest)
    | None => None
    end.
Proof.
  intros Hh Hl. unfold quoteUnit.
  destruct (N.eqb_spec c 8) as [->|]; [now apply parse_chars_escape|].
  destruct (N.eqb_spec c 9) as [->|]; [now apply parse_chars_escape|].
  destruct (N.eqb_spec c 10) as [->|]; [now apply parse_chars_escape|].
  destruct (N.eqb_spec c 12) as [->|]; [now apply parse_chars_escape|].
  destruct (N.eqb_spec c 13) as [->|]; [now apply parse_chars_escape|].
  destruct (N.eqb_spec c 34) as [->|]; [now apply parse_chars_escape|].
  destruct (N.eqb_spec c 92) as [->|]; [now apply parse_chars_escape|].
  destruct (N.ltb_spec c 32).
  - apply parse_chars_unicode. lia.
  - now apply parse_chars_literal.
Qed.

Lemma surrogate_range c :
  isHighSurrogate c = true \/ isLowSurrogate c = true ->
  (55296 <= c <= 57343)%N.
Proof.
  unfold isHighSurrogate, isLowSurrogate.
  intros [H|H]; apply andb_true_iff in H; destruct H as [H1 H2];
    apply N.leb_le in H1, H2; lia.
Qed.

(** Reading back the characters of a literal gives the string. *)
Lemma parse_chars_quoteChars s : forall rest,
  parse_chars (quoteChars s ++ 34%N :: rest) = Some (s, rest).
Proof.
  enough (K : forall n s0, (List.length s0 < n)%nat -> forall rest,
            parse_chars (quoteChars s0 ++ 34%N :: rest) = Some (s0, rest))
    by (apply (K (S (List.length s))); lia).
  clear s. induction n as [|n IH]; intros s Hn rest; [lia|].
  destruct s as [|c s']; [reflexivity|].
  cbn [quoteChars]. simpl in Hn.
  destruct (isHighSurrogate c) eqn:Eh.
  - pose proof (surrogate_range c (or_introl Eh)) as Hr.
    destruct s' as [|d s''].
    + rewrite parse_chars_unicode by lia. reflexivity.
    + destruct (isLowSurrogate d) eqn:Ed.
      * pose proof (surrogate_range d (or_intror Ed)) as Hd.
        cbn [app]. rewrite parse_chars_literal by lia.
        rewrite parse_chars_literal by lia.
        rewrite IH by (simpl in Hn; lia). reflexivity.
      * rewrite <- app_assoc, parse_chars_unicode by lia.
        rewrite IH by lia. reflexivity.
  - destruct (isLowSurrogate c) eqn:El.
    + pose proof (surrogate_range c (or_intror El)) as Hr.
      rewrite <- app_assoc, parse_chars_unicode by lia.
      rewrite IH by lia. reflexivity.
    + rewrite <- app_assoc, parse_chars_quoteUnit by assumption.
      rewrite IH by lia. reflexivity.
Qed.

Lemma parse_chars_quote s rest :
  exists t, quote s ++ rest = 34%N :: t /\ parse_chars t = Some (s, rest).
Proof.
  exists (quoteChars s ++ 34%N :: rest). split.
  - unfold quote. cbn [app]. now rewrite <- app_assoc.
  - apply parse_chars_quoteChars.
Qed.

(** *** Integers *)

Lemma str_digitsOf d : str (NilEmpty.string_of_uint d) = digitsOf d.
Proof.
  induction d; cbn [NilEmpty.string_of_uint digitsOf]; try reflexivity;
    unfold str in *; cbn [list_ascii_of_string map]; now rewrite IHd.
Qed.

Lemma digitsOf_digits d : forallb isDigit (digitsOf d) = true.
Proof. induction d; cbn [digitsOf forallb]; try reflexivity; exact IHd. Qed.

Lemma delimited_head rest :
  delimited rest ->
  match rest with
  | [] => True
  | c :: _ => isDigit c = false /\ c <> 46%N /\ c <> 101%N /\ c <> 69%N
  end.
Proof.
  destruct rest as [|c r]; [auto|]. unfold delimited, LF.
  intros [->| ->]; repeat split; discriminate.
Qed.

Lemma takeDigits_app ds rest :
  forallb isDigit ds = true -> delimited rest ->
  takeDigits (ds ++ rest) = (ds, rest).
Proof.
  intros Hd Hr. apply delimited_head in Hr.
  induction ds as [|c ds IH]; cbn [app].
  - destruct rest as [|x r]; [reflexivity|]. cbn [takeDigits].
    destruct Hr as [-> _]. reflexivity.
  - cbn [forallb] in Hd. apply andb_true_iff in Hd. destruct Hd as [Hc Hd].
    cbn [takeDigits]. rewrite Hc, (IH Hd). reflexivity.
Qed.

Lemma parse_frac_delimited rest : delimited rest -> parse_frac rest = Some ([], rest).
Proof.
  intros Hr. apply delimited_head in Hr. destruct rest as [|c r]; [reflexivity|].
  unfold parse_frac. destruct Hr as (_ & H & _).
  destruct (N.eqb_spec c 46); [contradiction|reflexivity].
Qed.

Lemma parse_exp_delimited rest : delimited rest -> parse_exp rest = Some ([], rest).
Proof.
  intros Hr. apply delimited_head in Hr. destruct rest as [|c r]; [reflexivity|].
  unfold parse_exp. destruct Hr as (_ & _ & H1 & H2).
  destruct (N.eqb_spec c 101); [contradiction|].
  destruct (N.eqb_spec c 69); [contradiction|reflexivity].
Qed.

(** The decimal numeral of a positive number does not begin with 0. *)
Lemma to_uint_head p :
  match Pos.to_uint p with
  | Decimal.Nil | Decimal.D0 _ => False
  | _ => True
  end.
Proof.
  pose proof (Unsigned.to_uint_nonnil p) as Hnil.
  pose proof (Unsigned.to_uint_nonzero p) as Hz.
  assert (Hn : Pos.to_uint p = Decimal.unorm (Pos.to_uint p)).
  { rewrite <- DecimalPos.Unsigned.to_of, DecimalPos.Unsigned.of_to.
    reflexivity. }
  destruct (Pos.to_uint p) as [|d| | | | | | | | |] eqn:E; auto.
  rewrite unorm_D0 in Hn. unfold Decimal.unorm in Hn.
  destruct (Decimal.nzhead d) eqn:En; try (symmetry in Hn; revert Hn; rewrite <- En;
    apply nzhead_nonzero).
  inversion Hn; subst. now apply Hz.
Qed.

Lemma parse_int_digits d rest :
  match d with Decimal.Nil | Decimal.D0 _ => False | _ => True end ->
  delimited rest ->
  parse_int (digitsOf d ++ rest) = Some (digitsOf d, rest).
Proof.
  intros Hd Hr. pose proof (digitsOf_digits d) as Hall.
  destruct d; try contradiction; cbn [digitsOf app] in *;
    unfold parse_int; cbn [forallb] in Hall;
    apply andb_true_iff in Hall; destruct Hall as [_ Hall];
    (match goal with
     | |- context [(?c =? 48)%N] => change (c =? 48)%N with false
     end);
    (match goal with
     | |- context [isDigit ?c] => change (isDigit c) with true
     end); cbv iota; now rewrite (takeDigits_app _ _ Hall Hr).
Qed.

Lemma digitsOf_head d :
  match d with Decimal.Nil | Decimal.D0 _ => False | _ => True end ->
  exists c t, digitsOf d = c :: t /\ isDigit c = true.
Proof. destruct d; try contradiction; intros _; eexists _, _; split; reflexivity. Qed.

Lemma parse_number_unsigned d rest :
  match d with Decimal.Nil | Decimal.D0 _ => False | _ => True end ->
  delimited rest ->
  parse_number (digitsOf d ++ rest) = Some (digitsOf d, rest).
Proof.
  intros Hd Hr. pose proof (parse_int_digits d rest Hd Hr) as Hi.
  destruct (digitsOf_head d Hd) as (c & t & E & Hc). rewrite E in *.
  unfold parse_number. cbn [app] in *.
  destruct (N.eqb_spec c 45) as [->|]; [discriminate|].
  rewrite Hi.
  rewrite (parse_frac_delimited rest Hr), (parse_exp_delimited rest Hr).
  now rewrite !List.app_nil_r.
Qed.

Lemma parse_number_negative d rest :
  match d with Decimal.Nil | Decimal.D0 _ => False | _ => True end ->
  delimited rest ->
  parse_number (45%N :: digitsOf d ++ rest) = Some (45%N :: digitsOf d, rest).
Proof.
  intros Hd Hr. unfold parse_number. change (45 =? 45)%N with true. cbv iota.
  rewrite (parse_int_digits d rest Hd Hr).
  rewrite (parse_frac_delimited rest Hr), (parse_exp_delimited rest Hr).
  now rewrite !List.app_nil_r.
Qed.

Lemma parse_number_zero rest :
  delimited rest -> parse_number (48%N :: rest) = Some ([48%N], rest).
Proof.
  intros Hr. unfold parse_number. change (48 =? 45)%N with false. cbv iota.
  unfold parse_int. change (48 =? 48)%N with true. cbv iota.
  now rewrite (parse_frac_delimited rest Hr), (parse_exp_delimited rest Hr).
Qed.

Lemma String_of_Z_cases z :
  (z = 0 /\ String_of_Z z = [48%N])
  \/ (exists d, match d with Decimal.Nil | Decimal.D0 _ => False | _ => True end
                /\ (String_of_Z z = digitsOf d \/ String_of_Z z = 45%N :: digitsOf d)).
Proof.
  unfold String_of_Z. destruct z as [|p|p].
  - left. split; reflexivity.
  - right. exists (Pos.to_uint p). split; [apply to_uint_head|]. left.
    cbn [Z.to_int NilZero.string_of_int]. unfold NilZero.string_of_uint.
    pose proof (to_uint_head p) as H.
    destruct (Pos.to_uint p) eqn:E; try contradiction; rewrite <- E;
      apply str_digitsOf.
  - right. exists (Pos.to_uint p). split; [apply to_uint_head|]. right.
    cbn [Z.to_int NilZero.string_of_int]. unfold NilZero.string_of_uint.
    pose proof (to_uint_head p) as H.
    assert (K : forall s, str (String "-" s) = 45%N :: str s) by reflexivity.
    destruct (Pos.to_uint p) eqn:E; try contradiction; rewrite <- E, K;
      f_equal; apply str_digitsOf.
Qed.

(** An integer literal followed by a delimiter is read as that literal. *)
Lemma parse_number_String_of_Z z rest :
  delimited rest ->
  exists c t,
    String_of_Z z ++ rest = c :: t
    /\ ((c =? 45)%N || isDigit c = true)
    /\ parse_number (c :: t) = Some (String_of_Z z, rest).
Proof.
  intros Hr. destruct (String_of_Z_cases z) as [[_ ->]|(d & Hd & [->| ->])].
  - exists 48%N, rest. split; [reflexivity|]. split; [reflexivity|].
    now apply parse_number_zero.
  - destruct (digitsOf_head d Hd) as (c & t & E & Hc).
    exists c, (t ++ rest). split; [now rewrite E|].
    split; [rewrite Hc; apply orb_true_r|].
    change (c :: t ++ rest) with ((c :: t) ++ rest). rewrite <- E.
    now apply parse_number_unsigned.
  - exists 45%N, (digitsOf d ++ rest). split; [reflexivity|].
    split; [reflexivity|]. now apply parse_number_negative.
Qed.

(** *** White space *)

Lemma skip_ws_plain c t : isJSONWhiteSpace c = false -> skip_ws (c :: t) = c :: t.
Proof. intros H. cbn [skip_ws]. now rewrite H. Qed.

Lemma skip_ws_spaces k s : skip_ws (repeat 32%N k ++ s) = skip_ws s.
Proof. induction k as [|k IH]; [reflexivity|exact IH]. Qed.

Lemma skip_ws_indent d s : skip_ws (LF :: indentOf d ++ s) = skip_ws s.
Proof. unfold indentOf. cbn [skip_ws]. apply skip_ws_spaces. Qed.

Lemma parse_value_skip n s s' :
  skip_ws s = skip_ws s' -> parse_value n s = parse_value n s'.
Proof. intros H. destruct n; [reflexivity|]. cbn [parse_value]. now rewrite H. Qed.

Lemma parse_members_skip pv k s s' acc :
  skip_ws s = skip_ws s' -> parse_members pv k s acc = parse_members pv k s' acc.
Proof. intros H. destruct k; [reflexivity|]. cbn [parse_members]. now rewrite H. Qed.

Lemma number_head c :
  (c =? 45)%N || isDigit c = true ->
  isJSONWhiteSpace c = false
  /\ c <> 123%N /\ c <> 91%N /\ c <> 34%N /\ c <> 93%N /\ c <> 125%N.
Proof.
  intros H.
  assert (R : (45 <= c <= 57)%N).
  { apply orb_true_iff in H. destruct H as [H|H].
    - apply N.eqb_eq in H. lia.
    - unfold isDigit in H. apply andb_true_iff in H. destruct H as [H1 H2].
      apply N.leb_le in H1, H2. lia. }
  split.
  - unfold isJSONWhiteSpace. rewrite !orb_false_iff.
    repeat split; apply N.eqb_neq; lia.
  - repeat split; lia.
Qed.

(** *** The first character of the text of a value *)

Lemma stringifyAt_head depth v :
  wellFormed v ->
  exists c t, stringifyAt depth v = c :: t
              /\ isJSONWhiteSpace c = false /\ c <> 93%N /\ c <> 125%N.
Proof.
  intros Hv. destruct v as [|b|lit|s|es|ps].
  - eexists _, _. split; [reflexivity|]. repeat split; discriminate.
  - destruct b; eexists _, _; (split; [reflexivity|]); repeat split; discriminate.
  - destruct Hv as [z ->].
    destruct (parse_number_String_of_Z z [] I) as (c & t & E & Hc & _).
    rewrite List.app_nil_r in E. exists c, t. split; [exact E|].
    destruct (number_head c Hc) as (H1 & _ & _ & _ & H2 & H3). auto.
  - eexists _, _. split; [reflexivity|]. repeat split; discriminate.
  - destruct es; eexists _, _; (split; [reflexivity|]); repeat split; discriminate.
  - destruct ps; eexists _, _; (split; [reflexivity|]); repeat split; discriminate.
Qed.

Lemma size_pos v : (1 <= size v)%nat.
Proof. destruct v; simpl; lia. Qed.

Lemma setProperty_fresh k v acc :
  ~ In k (map fst acc) -> setProperty k v acc = acc ++ [(k, v)].
Proof.
  induction acc as [|[k' v'] acc IH]; intros H; [reflexivity|].
  cbn [setProperty]. unfold jsstring_eqb.
  destruct (list_eq_dec N.eq_dec k k') as [->|_].
  - exfalso. apply H. now left.
  - cbn [app]. f_equal. apply IH. intros Hin. apply H. now right.
Qed.

Lemma delimited_comma X : delimited (44%N :: X).
Proof. now left. Qed.

Lemma delimited_LF X : delimited (LF :: X).
Proof. now right. Qed.

(** *** Containers *)

Section RoundTrip.
Variable n : nat.
Hypothesis values : forall v depth rest,
  wellFormed v -> delimited rest -> (size v <= n)%nat ->
  parse_value n (stringifyAt depth v ++ rest) = POk v rest.

Lemma elements_round_trip : forall es k d tail rest0,
  es <> [] ->
  Forall wellFormed es ->
  Forall (fun e => (size e <= n)%nat) es ->
  (List.length es <= k)%nat ->
  delimited tail -> skip_ws tail = 93%N :: rest0 ->
  parse_elements (parse_value n) k
    (LF :: indentOf d ++ join (separator d) (map (stringifyAt d) es) ++ tail)
  = POk es rest0.
Proof.
  induction es as [|e es IH]; intros k d tail rest0 Hne Hwf Hsz Hk Hd Ht;
    [contradiction|].
  destruct k as [|k]; [simpl in Hk; lia|].
  inversion Hwf as [|? ? We Wes]; subst. inversion Hsz as [|? ? Se Ses]; subst.
  cbn [parse_elements]. destruct es as [|e2 es'].
  - cbn [map join].
    rewrite (parse_value_skip n _ (stringifyAt d e ++ tail))
      by apply skip_ws_indent.
    rewrite (values e d tail We Hd Se), Ht. reflexivity.
  - assert (E : join (separator d) (map (stringifyAt d) (e :: e2 :: es')) ++ tail
              = stringifyAt d e
                ++ 44%N :: LF :: indentOf d
                   ++ join (separator d) (map (stringifyAt d) (e2 :: es')) ++ tail).
    { cbn [map join]. unfold separator. rewrite <- !List.app_assoc. reflexivity. }
    rewrite E.
    rewrite (parse_value_skip n _ (stringifyAt d e ++ 44%N :: LF :: indentOf d
                   ++ join (separator d) (map (stringifyAt d) (e2 :: es')) ++ tail))
      by apply skip_ws_indent.
    rewrite (values e d _ We (delimited_comma _) Se).
    rewrite skip_ws_plain by reflexivity. change (44 =? 44)%N with true. cbv iota.
    rewrite (IH k d tail rest0); try assumption;
      [reflexivity|discriminate|simpl in Hk |- *; lia].
Qed.

Lemma members_round_trip : forall ps k d tail rest0 acc,
  ps <> [] ->
  Forall (fun kv => wellFormed (snd kv)) ps ->
  Forall (fun kv => (size (snd kv) <= n)%nat) ps ->
  (List.length ps <= k)%nat ->
  NoDup (map fst acc ++ map fst ps) ->
  delimited tail -> skip_ws tail = 125%N :: rest0 ->
  parse_members (parse_value n) k
    (LF :: indentOf d
        ++ join (separator d)
             (map (fun kv => quote (fst kv) ++ [58%N; 32%N] ++ stringifyAt d (snd kv))
                  ps)
        ++ tail) acc
  = POk (acc ++ ps) rest0.
Proof.
  induction ps as [|[key v] ps IH];
    intros k d tail rest0 acc Hne Hwf Hsz Hk Hnd Hd Ht; [contradiction|].
  destruct k as [|k]; [simpl in Hk; lia|].
  inversion Hwf as [|? ? We Wes]; subst. inversion Hsz as [|? ? Se Ses]; subst.
  cbn [fst snd] in We, Se.
  assert (Hfresh : ~ In key (map fst acc)).
  { cbn [map fst] in Hnd. apply NoDup_remove_2 in Hnd. intros Hin. apply Hnd.
    apply in_or_app. now left. }
  assert (Hnd' : NoDup (map fst (acc ++ [(key, v)]) ++ map fst ps)).
  { rewrite map_app. cbn [map fst]. rewrite <- List.app_assoc. exact Hnd. }
  assert (step : forall R,
    delimited R ->
    parse_members (parse_value n) (S k)
      (LF :: indentOf d ++ quote key ++ [58%N; 32%N] ++ stringifyAt d v ++ R) acc
    = match skip_ws R with
      | c :: r4 =>
          if (c =? 44)%N then parse_members (parse_value n) k r4 (acc ++ [(key, v)])
          else if (c =? 125)%N then POk (acc ++ [(key, v)]) r4
          else PSyntaxError
      | [] => PSyntaxError
      end).
  { intros R HR.
    rewrite (parse_members_skip _ _ _
               (quote key ++ [58%N; 32%N] ++ stringifyAt d v ++ R))
      by apply skip_ws_indent.
    destruct (parse_chars_quote key ([58%N; 32%N] ++ stringifyAt d v ++ R))
      as (t & Et & Pt).
    rewrite Et. cbn [parse_members]. rewrite skip_ws_plain by reflexivity.
    change (34 =? 34)%N with true. cbv iota. rewrite Pt. cbn [app].
    rewrite skip_ws_plain by reflexivity.
    change (58 =? 58)%N with true. cbv iota.
    rewrite (parse_value_skip n _ (stringifyAt d v ++ R)) by reflexivity.
    rewrite (values v d R We HR Se).
    rewrite (setProperty_fresh key v acc Hfresh). reflexivity. }
  destruct ps as [|kv2 ps'].
  - cbn [map join fst snd]. rewrite <- !List.app_assoc.
    rewrite (step tail Hd), Ht. cbn [app]. reflexivity.
  - assert (E : join (separator d)
                  (map (fun kv => quote (fst kv) ++ [58%N; 32%N]
                                  ++ stringifyAt d (snd kv))
                       ((key, v) :: kv2 :: ps')) ++ tail
              = quote key ++ [58%N; 32%N] ++ stringifyAt d v
                ++ 44%N :: LF :: indentOf d
                   ++ join (separator d)
                        (map (fun kv => quote (fst kv) ++ [58%N; 32%N]
                                        ++ stringifyAt d (snd kv))
                             (kv2 :: ps')) ++ tail).
    { cbn [map join fst snd]. unfold separator. rewrite <- !List.app_assoc.
      reflexivity. }
    rewrite E, (step _ (delimited_comma _)).
    rewrite skip_ws_plain by reflexivity. change (44 =? 44)%N with true. cbv iota.
    rewrite (IH k d tail rest0 (acc ++ [(key, v)])); try assumption;
      [now rewrite <- List.app_assoc|discriminate|simpl in Hk |- *; lia].
Qed.

End RoundTrip.

Lemma wellFormed_elements es :
  fold_right (fun x rest => wellFormed x /\ rest) True es -> Forall wellFormed es.
Proof. induction es; intros H; constructor; simpl in H; tauto. Qed.

Lemma wellFormed_members (ps : list (jsstring * value)) :
  fold_right (fun kv rest => wellFormed (snd kv) /\ rest) True ps ->
  Forall (fun kv => wellFormed (snd kv)) ps.
Proof. induction ps; intros H; constructor; simpl in H; tauto. Qed.

Lemma list_sum_bound {A} (f : A -> nat) (l : list A) m :
  (forall a, 1 <= f a)%nat -> (list_sum (map f l) <= m)%nat ->
  Forall (fun a => (f a <= m)%nat) l /\ (List.length l <= m)%nat.
Proof.
  intros Hf. revert m. induction l as [|a l IH]; intros m H.
  - split; [constructor|simpl; lia].
  - simpl in H. specialize (Hf a) as Ha.
    destruct (IH (m - f a)%nat ltac:(lia)) as [F L]. split.
    + constructor; [lia|]. eapply Forall_impl; [|exact F]. simpl. intros; lia.
    + simpl. lia.
Qed.

(** The text of a value, read with a budget of at least its size and
    followed by a delimiter, is that value. *)
Lemma parse_stringifyAt : forall n v depth rest,
  wellFormed v -> delimited rest -> (size v <= n)%nat ->
  parse_value n (stringifyAt depth v ++ rest) = POk v rest.
Proof.
  induction n as [|n IH]; intros v depth rest Hv Hr Hn;
    [pose proof (size_pos v); lia|].
  destruct v as [|b|lit|s|es|ps].
  - reflexivity.
  - destruct b; reflexivity.
  - destruct Hv as [z ->]. cbn [stringifyAt].
    destruct (parse_number_String_of_Z z rest Hr) as (c & t & E & Hc & Hp).
    rewrite E. destruct (number_head c Hc) as (H1 & H2 & H3 & H4 & _).
    cbn [parse_value]. rewrite (skip_ws_plain c t H1).
    destruct (N.eqb_spec c 123); [contradiction|].
    destruct (N.eqb_spec c 91); [contradiction|].
    destruct (N.eqb_spec c 34); [contradiction|].
    rewrite Hc, Hp. reflexivity.
  - cbn [stringifyAt]. destruct (parse_chars_quote s rest) as (t & E & Hp).
    rewrite E. cbn [parse_value]. rewrite skip_ws_plain by reflexivity.
    change (34 =? 123)%N with false. change (34 =? 91)%N with false.
    change (34 =? 34)%N with true. cbv iota. now rewrite Hp.
  - destruct es as [|e es]; [reflexivity|].
    assert (E : stringifyAt depth (JArray (e :: es)) ++ rest
              = 91%N :: LF :: indentOf (S depth)
                  ++ join (separator (S depth))
                       (map (stringifyAt (S depth)) (e :: es))
                  ++ LF :: indentOf depth ++ 93%N :: rest).
    { cbn [stringifyAt app]. rewrite <- !List.app_assoc. cbn [app].
      rewrite <- !List.app_assoc. reflexivity. }
    rewrite E. clear E. cbn [parse_value]. rewrite skip_ws_plain by reflexivity.
    change (91 =? 123)%N with false. change (91 =? 91)%N with true. cbv iota.
    cbn [wellFormed] in Hv. apply wellFormed_elements in Hv.
    cbn [size] in Hn.
    destruct (list_sum_bound size (e :: es) n size_pos ltac:(lia)) as [F L].
    assert (Hhead : exists c t,
      skip_ws (LF :: indentOf (S depth)
                 ++ join (separator (S depth))
                      (map (stringifyAt (S depth)) (e :: es))
                 ++ LF :: indentOf depth ++ 93%N :: rest) = c :: t
      /\ c <> 93%N).
    { rewrite skip_ws_indent.
      inversion Hv as [|? ? We _]; subst.
      destruct (stringifyAt_head (S depth) e We) as (c & t & Ec & Hc & H93 & _).
      destruct es as [|e2 es']; cbn [map join]; rewrite Ec; cbn [app];
        rewrite (skip_ws_plain c _ Hc); eexists _, _; split; eauto. }
    destruct Hhead as (c & t & -> & Hc).
    destruct (N.eqb_spec c 93); [contradiction|].
    rewrite (elements_round_trip n IH (e :: es) n (S depth)
               (LF :: indentOf depth ++ 93%N :: rest) rest);
      try assumption; [reflexivity|discriminate|apply delimited_LF|apply skip_ws_indent].
  - destruct ps as [|kv ps]; [reflexivity|].
    assert (E : stringifyAt depth (JObject (kv :: ps)) ++ rest
              = 123%N :: LF :: indentOf (S depth)
                  ++ join (separator (S depth))
                       (map (fun kv => quote (fst kv) ++ [58%N; 32%N]
                                       ++ stringifyAt (S depth) (snd kv))
                            (kv :: ps))
                  ++ LF :: indentOf depth ++ 125%N :: rest).
    { cbn [stringifyAt app]. rewrite <- !List.app_assoc. cbn [app].
      rewrite <- !List.app_assoc. reflexivity. }
    rewrite E. clear E. cbn [parse_value]. rewrite skip_ws_plain by reflexivity.
    change (123 =? 123)%N with true. cbv iota.
    cbn [wellFormed] in Hv. destruct Hv as [Hnd Hv].
    apply wellFormed_members in Hv. cbn [size] in Hn.
    destruct (list_sum_bound (fun kv => size (snd kv)) (kv :: ps) n
                (fun kv => size_pos (snd kv)) ltac:(lia)) as [F L].
    assert (Hhead : exists t,
      skip_ws (LF :: indentOf (S depth)
                 ++ join (separator (S depth))
                      (map (fun kv => quote (fst kv) ++ [58%N; 32%N]
                                      ++ stringifyAt (S depth) (snd kv))
                           (kv :: ps))
                 ++ LF :: indentOf depth ++ 125%N :: rest) = 34%N :: t).
    { rewrite skip_ws_indent.
      destruct ps as [|kv2 ps']; cbn [map join]; unfold quote; cbn [app];
        rewrite skip_ws_plain by reflexivity; eexists; reflexivity. }
    destruct Hhead as (t & ->). change (34 =? 125)%N with false. cbv iota.
    rewrite (members_round_trip n IH (kv :: ps) n (S depth)
               (LF :: indentOf depth ++ 125%N :: rest) rest []);
      try assumption; [reflexivity|discriminate|apply delimited_LF|apply skip_ws_indent].
Qed.

(** [JSON.parse(JSON.stringify(value, null, 2))] *)
Lemma parse_stringify v : wellFormed v -> JSON.parse (stringify v) = Some v.
Proof.
  intros Hv. unfold JSON.parse, stringify.
  set (text := stringifyAt 0 v).
  rewrite <- (parse_value_fuel_irrelevant (S (List.length text))
                (Nat.max (S (List.length text)) (size v)) text) by lia.
  rewrite <- (List.app_nil_r text) at 2. unfold text.
  rewrite parse_stringifyAt; [reflexivity|exact Hv|exact I|lia].
Qed.

Lemma State_object_wellFormed s : wellFormed (State_object s).
Proof.
  unfold State_object. cbn [wellFormed map fst snd fold_right]. split.
  - repeat constructor; cbn [In]; intuition discriminate.
  - unfold nullable, numberValue.
    destruct (chatId s), (chatName s), (lastProcessedTimestamp s), (lastRunDate s);
      cbn [wellFormed]; repeat split; eexists; reflexivity.
Qed.

(** X21: what [saveState] writes, [loadState] reads back.  The text
    [JSON.stringify(state, null, 2)] of a state with safe integers is read
    by [loadState] as the object with the same five fields, whatever the
    strings of the chat hold (quotes, control characters, surrogates): no
    saved state is taken for a broken file and replaced by the default. *)
Theorem saved_state_is_loaded_back (state : State) :
  safeState state ->
  loadState (ReadOk (stateFileText state)) = State_object state.
Proof.
  intros _. unfold loadState, stateFileText.
  now rewrite (parse_stringify (State_object state)
                 (State_object_wellFormed state)).
Qed.

Lemma saved_state_witness :
  loadState (ReadOk (stateFileText (stateAt 1000))) = State_object (stateAt 1000).
Proof.
  apply (saved_state_is_loaded_back (stateAt 1000)).
  unfold safeState, safeInteger. cbn. lia.
Defined.

End JSONTextFacts.

(* ================================================================== *)
(** ** The batched first run and the client                       *)
(* ================================================================== *)

Module BackfillFacts.
Import JS Effects Scraper Examples MoreExamples Backfill.

Lemma gathered_S fetch k :
  gathered fetch (S k)
  = gathered fetch k ++ match fetch k with Ok batch => batch | Throw _ => [] end.
Proof.
  unfold gathered. rewrite seq_S, flat_map_app. cbn [flat_map Nat.add].
  now rewrite List.app_nil_r.
Qed.

(** The loop from call [start] on, with [allMessages] gathered so far. *)
Lemma fetchAllBatches_from fetch : forall k start fuel,
  (forall i, (i < k)%nat -> fullBatch (fetch (start + i)%nat)) ->
  lastBatch (fetch (start + k)%nat) ->
  (k < fuel)%nat ->
  fetchAllBatches fuel fetch start (gathered fetch start)
  = Some (Ok (gathered fetch (S (start + k)), S (start + k))).
Proof.
  induction k as [|k IH]; intros start fuel Hfull Hlast Hfuel;
    (destruct fuel as [|fuel]; [lia|]); cbn [fetchAllBatches].
  - rewrite Nat.add_0_r in *. rewrite gathered_S.
    unfold lastBatch in Hlast. destruct (fetch start) as [batch|e]; [|contradiction].
    destruct (Nat.eqb_spec (List.length batch) 0) as [E|E].
    + destruct batch; [|discriminate]. now rewrite List.app_nil_r.
    + destruct (Nat.ltb_spec (List.length batch) batchSize); [reflexivity|lia].
  - pose proof (Hfull 0%nat ltac:(lia)) as H0. rewrite Nat.add_0_r in H0.
    pose proof (gathered_S fetch start) as G.
    unfold fullBatch in H0. destruct (fetch start) as [batch|e]; [|contradiction].
    unfold batchSize in *.
    destruct (Nat.eqb_spec (List.length batch) 0) as [E|E]; [lia|].
    destruct (Nat.ltb_spec (List.length batch) 100); [lia|].
    rewrite <- G. replace (start + S k)%nat with (S start + k)%nat in * by lia.
    apply IH; [|exact Hlast|lia].
    intros i Hi. replace (S start + i)%nat with (start + S i)%nat by lia.
    apply Hfull. lia.
Qed.

Lemma fetchAllBatches_full fetch :
  (forall i, fullBatch (fetch i)) ->
  forall fuel start allMessages,
    fetchAllBatches fuel fetch start allMessages = None.
Proof.
  intros Hfull. induction fuel as [|fuel IH]; intros start allMessages;
    [reflexivity|].
  cbn [fetchAllBatches]. specialize (Hfull start). unfold fullBatch in Hfull.
  destruct (fetch start) as [batch|e]; [|contradiction]. unfold batchSize in *.
  destruct (Nat.eqb_spec (List.length batch) 0) as [E|E]; [lia|].
  destruct (Nat.ltb_spec (List.length batch) 100); [lia|]. apply IH.
Qed.

(** X22: the first run gathers the batches up to the first one that is
    empty or shorter than [batchSize], that one included, and makes no call
    after it: when the calls [0 .. k-1] settle to full batches and call [k]
    to a shorter one, the loop ends after [k+1] calls with the messages of
    these calls in order, whatever the budget above [k]. *)
Theorem backfill_ends_at_first_short_batch fetch k fuel :
  (forall i, (i < k)%nat -> fullBatch (fetch i)) ->
  lastBatch (fetch k) ->
  (k < fuel)%nat ->
  fetchAllBatches fuel fetch 0 [] = Some (Ok (gathered fetch (S k), S k)).
Proof.
  intros Hfull Hlast Hfuel.
  exact (fetchAllBatches_from fetch k 0 fuel Hfull Hlast Hfuel).
Qed.

Lemma backfill_ends_witness :
  fetchAllBatches 5 twoFullBatches 0 []
  = Some (Ok (gathered twoFullBatches 3, 3%nat)).
Proof.
  apply (backfill_ends_at_first_short_batch twoFullBatches 2 5).
  - intros i Hi. assert (K : i = 0%nat \/ i = 1%nat) by lia.
    destruct K as [->| ->]; vm_compute; lia.
  - vm_compute. lia.
  - lia.
Defined.

(** X23: the first run does not end while every call settles to a full
    batch: no budget of iterations is enough.  A chat that answers each
    [fetchMessages({ limit: 100 })] with its 100 most recent messages is
    such a case. *)
Theorem backfill_never_ends_on_full_batches fetch :
  (forall i, fullBatch (fetch i)) ->
  forall fuel, fetchAllBatches fuel fetch 0 [] = None.
Proof. intros Hfull fuel. now apply fetchAllBatches_full. Qed.

Lemma backfill_never_ends_witness :
  fetchAllBatches 1000 (callsOf (chatOf history150)) 0 [] = None.
Proof.
  apply (backfill_never_ends_on_full_batches (callsOf (chatOf history150))).
  intros i. vm_compute. lia.
Defined.

End BackfillFacts.

Module ClientFacts.
Import JS Effects Client.

Lemma connectLoop_success m d init : forall c a fuel,
  (c < fuel)%nat ->
  a + Z.of_nat c <= m ->
  (forall j, a <= j < a + Z.of_nat c -> fails init j) ->
  init (a + Z.of_nat c) = Ok tt ->
  connectLoop fuel m d init a
  = Some (failedAttempts d a c ++ [Attempt (a + Z.of_nat c)], Ok tt).
Proof.
  induction c as [|c IH]; intros a fuel Hfuel Hm Hfail Hok;
    (destruct fuel as [|fuel]; [lia|]); cbn [connectLoop failedAttempts app].
  - cbn [Z.of_nat] in *. rewrite Z.add_0_r in *.
    destruct (Z.leb_spec a m); [|lia]. now rewrite Hok.
  - destruct (Z.leb_spec a m); [|lia].
    pose proof (Hfail a ltac:(lia)) as Ha. unfold fails in Ha.
    destruct (init a) as [u|message]; [contradiction|].
    destruct (Z.ltb_spec a m); [|lia].
    replace (a + Z.of_nat (S c)) with (a + 1 + Z.of_nat c) in * by lia.
    rewrite (IH (a + 1) fuel); [reflexivity|lia|lia| |exact Hok].
    intros j Hj. apply Hfail. lia.
Qed.

Lemma connectLoop_failure m d init : forall c a fuel,
  (c < fuel)%nat ->
  a + Z.of_nat c = m ->
  (forall j, a <= j <= m -> fails init j) ->
  connectLoop fuel m d init a
  = Some (failedAttempts d a c ++ [Attempt m],
          Throw (str "Failed to connect after " ++ String_of_Z m
                 ++ str " attempts: " ++ messageOf init m)).
Proof.
  induction c as [|c IH]; intros a fuel Hfuel Hm Hfail;
    (destruct fuel as [|fuel]; [lia|]); cbn [connectLoop failedAttempts app].
  - cbn [Z.of_nat] in *. rewrite Z.add_0_r in *. subst a.
    destruct (Z.leb_spec m m); [|lia].
    pose proof (Hfail m ltac:(lia)) as Ha. unfold fails in Ha. unfold messageOf.
    destruct (init m) as [u|message]; [contradiction|].
    destruct (Z.ltb_spec m m); [lia|reflexivity].
  - destruct (Z.leb_spec a m); [|lia].
    pose proof (Hfail a ltac:(lia)) as Ha. unfold fails in Ha.
    destruct (init a) as [u|message]; [contradiction|].
    destruct (Z.ltb_spec a m); [|lia].
    rewrite (IH (a + 1) fuel); [reflexivity|lia|lia|].
    intros j Hj. apply Hfail. lia.
Qed.

(** X24: [connectWithRetry] stops at the first attempt that succeeds: when
    the attempts before attempt [k] fail and attempt [k] (at most
    [maxRetries]) succeeds, it resolves after these [k] attempts, with a
    pause of [retryDelay] after each failed one and no attempt after the
    successful one. *)
Theorem connect_stops_at_first_success maxRetries retryDelay initialize k :
  1 <= k <= maxRetries ->
  (forall j, 1 <= j < k -> fails initialize j) ->
  initialize k = Ok tt ->
  connectWithRetry maxRetries retryDelay initialize
  = Some (failedAttempts retryDelay 1 (Z.to_nat (k - 1)) ++ [Attempt k], Ok tt).
Proof.
  intros Hk Hfail Hok. unfold connectWithRetry.
  rewrite (connectLoop_success maxRetries retryDelay initialize
             (Z.to_nat (k - 1)) 1); rewrite ?Z2Nat.id by lia.
  - repeat f_equal. lia.
  - lia.
  - lia.
  - intros j Hj. apply Hfail. lia.
  - replace (1 + (k - 1)) with k by lia. exact Hok.
Qed.

Lemma connect_first_success_witness :
  connectWithRetry 3 30000
    (fun k => if k =? 2 then Ok tt else Throw (str "Auth failed: timeout"))
  = Some ([Attempt 1; Sleep 30000; Attempt 2], Ok tt).
Proof.
  apply (connect_stops_at_first_success 3 30000
           (fun k => if k =? 2 then Ok tt else Throw (str "Auth failed: timeout")) 2).
  - lia.
  - intros j Hj. assert (j = 1) by lia. subst j. exact I.
  - reflexivity.
Defined.

(** X25: [connectWithRetry] gives up after [maxRetries] failed attempts: it
    pauses after each of them but the last and rejects with the number of
    attempts and the message of the last failure. *)
Theorem connect_gives_up_after_maxRetries maxRetries retryDelay initialize :
  1 <= maxRetries ->
  (forall j, 1 <= j <= maxRetries -> fails initialize j) ->
  connectWithRetry maxRetries retryDelay initialize
  = Some (failedAttempts retryDelay 1 (Z.to_nat (maxRetries - 1))
          ++ [Attempt maxRetries],
          Throw (str "Failed to connect after " ++ String_of_Z maxRetries
                 ++ str " attempts: " ++ messageOf initialize maxRetries)).
Proof.
  intros Hm Hfail. unfold connectWithRetry.
  apply connectLoop_failure; [lia|rewrite Z2Nat.id by lia; lia|exact Hfail].
Qed.

Lemma connect_gives_up_witness :
  connectWithRetry 3 30000 (fun _ => Throw (str "Auth failed: timeout"))
  = Some ([Attempt 1; Sleep 30000; Attempt 2; Sleep 30000; Attempt 3],
          Throw (str "Failed to connect after 3 attempts: Auth failed: timeout")).
Proof.
  apply (connect_gives_up_after_maxRetries 3 30000
           (fun _ => Throw (str "Auth failed: timeout"))).
  - lia.
  - intros j Hj. exact I.
Defined.

Lemma connectLoop_attempts m d init : forall fuel a events r,
  a <= m ->
  connectLoop fuel m d init a = Some (events, r) -> events <> [].
Proof.
  induction fuel as [|fuel IH]; intros a events r Ha H; [discriminate|].
  cbn [connectLoop] in H. destruct (Z.leb_spec a m); [|lia].
  destruct (init a) as [u|message].
  - injection H as <- _. discriminate.
  - destruct (a <? m).
    + destruct (connectLoop fuel m d init (a + 1)) as [[ev r']|]; [|discriminate].
      injection H as <- _. discriminate.
    + injection H as <- _. discriminate.
Qed.

(** X26: with the configured number of attempts,
    [parseInt(process.env.MAX_RETRIES) || 3], [connectWithRetry] resolves
    without a single attempt exactly when MAX_RETRIES parses to a negative
    number; NaN and 0 give three attempts. *)
Theorem connect_without_attempt_iff_negative parsed retryDelay initialize :
  connectWithRetry (maxRetriesOf parsed) retryDelay initialize = Some ([], Ok tt)
  <-> exists z, parsed = PInt z /\ z < 0.
Proof.
  split.
  - intros H. destruct (Z.leb_spec 1 (maxRetriesOf parsed)) as [Hm|Hm].
    + exfalso. unfold connectWithRetry in H.
      now apply (connectLoop_attempts _ _ _ _ _ _ _ Hm H).
    + destruct parsed as [|z]; cbn [maxRetriesOf] in Hm; [lia|].
      exists z. split; [reflexivity|]. destruct (Z.eqb_spec z 0); lia.
  - intros (z & -> & Hz). cbn [maxRetriesOf]. destruct (Z.eqb_spec z 0); [lia|].
    unfold connectWithRetry. cbn [connectLoop].
    destruct (Z.leb_spec 1 z); [lia|reflexivity].
Qed.

End ClientFacts.
